(** * Podcast downloader / RSS generator: a shallow embedding of
      [download_generator.py] and the properties of its feed pipeline.

    Python [str] values are represented by Rocq [string]s (their UTF-8
    bytes); every string function below is exact on ASCII text.  The
    filesystem, the network and the clock are explicit: a [World] that is
    threaded through the calls and an [Env] of oracles the program reads. *)

From Stdlib Require Import ZArith NArith Ascii String List Bool Lia.
From Stdlib Require Import DecimalString DecimalPos DecimalN.
From stdpp Require Import base option list strings gmap.

Local Open Scope string_scope.
Local Open Scope nat_scope.

(** ** Python string primitives used by the program *)

Module PyStr.

Definition code (c : ascii) : nat := nat_of_ascii c.

Definition quote_char : ascii := ascii_of_nat 34.
Definition backslash : ascii := ascii_of_nat 92.

(** [c in s] for a one-character needle. *)
Fixpoint contains (c : ascii) (s : string) : bool :=
  match s with
  | EmptyString => false
  | String a t => if Ascii.eqb a c then true else contains c t
  end.

(** [s.find(c)]: index of the first occurrence. *)
Fixpoint find (c : ascii) (s : string) : option nat :=
  match s with
  | EmptyString => None
  | String a t => if Ascii.eqb a c then Some 0 else S <$> find c t
  end.

(** [s.rfind(c)]: index of the last occurrence. *)
Fixpoint rfind (c : ascii) (s : string) : option nat :=
  match s with
  | EmptyString => None
  | String a t =>
      match rfind c t with
      | Some i => Some (S i)
      | None => if Ascii.eqb a c then Some 0 else None
      end
  end.

(** [s[:n]] and [s[n:]]. *)
Fixpoint take (n : nat) (s : string) : string :=
  match n, s with
  | S n', String a t => String a (take n' t)
  | _, _ => EmptyString
  end.

Fixpoint drop (n : nat) (s : string) : string :=
  match n, s with
  | S n', String _ t => drop n' t
  | _, _ => s
  end.

(** Removal of every character satisfying [p]
    ([re.sub] of a character class by the empty string). *)
Fixpoint remove_if (p : ascii -> bool) (s : string) : string :=
  match s with
  | EmptyString => EmptyString
  | String a t => if p a then remove_if p t else String a (remove_if p t)
  end.

(** [s.lstrip(chars)] for a set of characters given as a predicate. *)
Fixpoint lstrip_if (p : ascii -> bool) (s : string) : string :=
  match s with
  | EmptyString => EmptyString
  | String a t => if p a then lstrip_if p t else s
  end.

(** [s.rstrip(chars)]. *)
Fixpoint rstrip_if (p : ascii -> bool) (s : string) : string :=
  match s with
  | EmptyString => EmptyString
  | String a t =>
      match rstrip_if p t with
      | EmptyString => if p a then EmptyString else String a EmptyString
      | r => String a r
      end
  end.

(** [str.isspace] on ASCII: TAB, LF, VT, FF, CR, FS, GS, RS, US, SPACE. *)
Definition isspace (c : ascii) : bool :=
  let n := code c in
  ((9 <=? n) && (n <=? 13)) || ((28 <=? n) && (n <=? 32)).

(** [s.strip()] *)
Definition strip (s : string) : string := rstrip_if isspace (lstrip_if isspace s).

(** [s.replace(a, b)] for one-character [a] and [b]. *)
Fixpoint replace (a b : ascii) (s : string) : string :=
  match s with
  | EmptyString => EmptyString
  | String c t => String (if Ascii.eqb c a then b else c) (replace a b t)
  end.

Definition isalpha (c : ascii) : bool :=
  let n := code c in
  ((65 <=? n) && (n <=? 90)) || ((97 <=? n) && (n <=? 122)).

Definition isdigit (c : ascii) : bool :=
  let n := code c in (48 <=? n) && (n <=? 57).

Definition lower_char (c : ascii) : ascii :=
  let n := code c in
  if (65 <=? n) && (n <=? 90) then ascii_of_nat (n + 32) else c.

Fixpoint lower (s : string) : string :=
  match s with
  | EmptyString => EmptyString
  | String a t => String (lower_char a) (lower t)
  end.

Fixpoint all (p : ascii -> bool) (s : string) : bool :=
  match s with
  | EmptyString => true
  | String a t => p a && all p t
  end.

(** [str(n)] for a non-negative integer. *)
Definition of_N (n : N) : string := NilZero.string_of_uint (N.to_uint n).

End PyStr.

(** ** [urllib.parse]: the path component of a URL and percent-decoding *)

Module Urllib.
Import PyStr.

(** [_WHATWG_C0_CONTROL_OR_SPACE]: code points 0x00 .. 0x20. *)
Definition c0_or_space (c : ascii) : bool := code c <=? 32.

(** [_UNSAFE_URL_BYTES_TO_REMOVE]: TAB, CR, LF. *)
Definition unsafe_byte (c : ascii) : bool :=
  let n := code c in (n =? 9) || (n =? 13) || (n =? 10).

(** [scheme_chars]: letters, digits and [+-.]. *)
Definition scheme_char (c : ascii) : bool :=
  isalpha c || isdigit c || contains c "+-.".

Definition starts_alpha (s : string) : bool :=
  match s with
  | String a _ => isalpha a
  | EmptyString => false
  end.

(** The scheme split of [urlsplit]: [(scheme, rest)]. *)
Definition split_scheme (url : string) : string * string :=
  match find ":" url with
  | Some (S i) =>
      if starts_alpha url && all scheme_char (take (S i) url)
      then (lower (take (S i) url), drop (S (S i)) url)
      else (EmptyString, url)
  | _ => (EmptyString, url)
  end.

Definition is_delim (c : ascii) : bool := contains c "/?#".

(** Index of the first character satisfying [p], or the length. *)
Fixpoint span_len (p : ascii -> bool) (s : string) : nat :=
  match s with
  | EmptyString => 0
  | String a t => if p a then 0 else S (span_len p t)
  end.

(** [_splitnetloc(url, 2)] when [url[:2] == '//']; the path is what
    follows the authority. *)
Definition split_netloc (url : string) : string * string :=
  match url with
  | String "/" (String "/" r) =>
      let d := span_len is_delim r in (take d r, drop d r)
  | _ => (EmptyString, url)
  end.

(** [url.split(c, 1)[0]] *)
Definition before (c : ascii) (s : string) : string :=
  match find c s with
  | Some i => take i s
  | None => s
  end.

Definition uses_params : list string :=
  [""; "ftp"; "hdl"; "prospero"; "http"; "imap"; "https"; "shttp";
   "rtsp"; "rtspu"; "sip"; "sips"; "mms"; "sftp"; "tel"].

Definition in_list (s : string) (l : list string) : bool :=
  existsb (String.eqb s) l.

(** [_splitparams(url)[0]] *)
Definition strip_params (url : string) : string :=
  match rfind "/" url with
  | Some j =>
      match find ";" (drop j url) with
      | Some i => take (j + i) url
      | None => url
      end
  | None => before ";" url
  end.

(** [urlparse(url).path] *)
Definition urlparse_path (url : string) : string :=
  let url := lstrip_if c0_or_space url in
  let url := remove_if unsafe_byte url in
  let '(scheme, url) := split_scheme url in
  let '(_, url) := split_netloc url in
  let url := before "#" url in
  let url := before "?" url in
  if in_list scheme uses_params && contains ";" url
  then strip_params url else url.

Definition hex_digit (c : ascii) : option nat :=
  let n := code c in
  if (48 <=? n) && (n <=? 57) then Some (n - 48)
  else if (65 <=? n) && (n <=? 70) then Some (n - 55)
  else if (97 <=? n) && (n <=? 102) then Some (n - 87)
  else None.

(** [unquote(s)]: every [%XX] with two hexadecimal digits becomes the
    byte it denotes; any other [%] is kept. *)
Fixpoint unquote (s : string) : string :=
  match s with
  | EmptyString => EmptyString
  | String c t =>
      if Ascii.eqb c "%" then
        match t with
        | String h (String l rest) =>
            match hex_digit h, hex_digit l with
            | Some a, Some b => String (ascii_of_nat (16 * a + b)) (unquote rest)
            | _, _ => String c (unquote t)
            end
        | _ => String c (unquote t)
        end
      else String c (unquote t)
  end.

End Urllib.

(** ** [os.path] on POSIX *)

Module OsPath.
Import PyStr.

(** [basename(p)]: [p[p.rfind('/') + 1:]] *)
Definition basename (p : string) : string :=
  match rfind "/" p with
  | Some i => drop (S i) p
  | None => p
  end.

End OsPath.

(** ** [PodcastDownloader.sanitize_filename] and the destination name *)

(** The character class of the regular expression in [sanitize_filename]. *)
Definition forbidden_char (c : ascii) : bool :=
  PyStr.contains c "<>:/|?*"
  || Ascii.eqb c PyStr.quote_char || Ascii.eqb c PyStr.backslash.

Definition sanitize_filename (filename : string) : string :=
  let filename := PyStr.remove_if forbidden_char filename in
  PyStr.replace " " "_" (PyStr.strip filename).

(** The file name [download_file] computes from a URL. *)
Definition derive_filename (url : string) : string :=
  sanitize_filename (OsPath.basename (Urllib.unquote (Urllib.urlparse_path url))).


(** ** [xml.etree.ElementTree]: elements, lookups and in-place updates *)

Module ET.

(** An element: tag, attribute dictionary (insertion-ordered), text,
    child elements and tail text. *)
#[warnings="-register-all"]
Inductive Element : Type :=
  Elem (tag : string) (attrib : list (string * string))
       (text : option string) (children : list Element)
       (tail : option string).

Definition tag (e : Element) : string :=
  match e with Elem t _ _ _ _ => t end.
Definition attrib (e : Element) : list (string * string) :=
  match e with Elem _ a _ _ _ => a end.
Definition text (e : Element) : option string :=
  match e with Elem _ _ x _ _ => x end.
Definition children (e : Element) : list Element :=
  match e with Elem _ _ _ cs _ => cs end.
Definition tail (e : Element) : option string :=
  match e with Elem _ _ _ _ tl => tl end.

Definition with_children (cs : list Element) (e : Element) : Element :=
  match e with Elem t a x _ tl => Elem t a x cs tl end.

(** *** Attribute dictionaries *)

(** [d.get(k)] *)
Fixpoint dict_get (k : string) (d : list (string * string)) : option string :=
  match d with
  | [] => None
  | (k', v) :: d' => if String.eqb k' k then Some v else dict_get k d'
  end.

(** [d[k] = v]: an existing key keeps its position, a new key goes last. *)
Fixpoint dict_set (k v : string) (d : list (string * string)) : list (string * string) :=
  match d with
  | [] => [(k, v)]
  | (k', v') :: d' =>
      if String.eqb k' k then (k', v) :: d' else (k', v') :: dict_set k v d'
  end.

(** [e.get(k)], [e.set(k, v)], [e.text = s] *)
Definition get (k : string) (e : Element) : option string := dict_get k (attrib e).

Definition set (k v : string) (e : Element) : Element :=
  match e with Elem t a x cs tl => Elem t (dict_set k v a) x cs tl end.

Definition set_text (s : string) (e : Element) : Element :=
  match e with Elem t a _ cs tl => Elem t a (Some s) cs tl end.

(** *** Lookups *)

Definition has_tag (t : string) (e : Element) : bool := String.eqb (tag e) t.

(** First result of [f] along a list. *)
Definition first_some {A B : Type} (f : A -> option B) : list A -> option B :=
  fix go (l : list A) : option B :=
    match l with
    | [] => None
    | x :: l' => match f x with Some r => Some r | None => go l' end
    end.

(** Rewrite the first list element on which [f] answers. *)
Definition update_first {A : Type} (f : A -> option A) : list A -> option (list A) :=
  fix go (l : list A) : option (list A) :=
    match l with
    | [] => None
    | x :: l' =>
        match f x with
        | Some x' => Some (x' :: l')
        | None => match go l' with Some r => Some (x :: r) | None => None end
        end
    end.

(** [e.find(t)]: the first direct child with tag [t]. *)
Definition find (t : string) (e : Element) : option Element :=
  first_some (fun c => if has_tag t c then Some c else None) (children e).

(** [e.findall(t)]: the direct children with tag [t], in document order. *)
Definition findall (t : string) (e : Element) : list Element :=
  List.filter (has_tag t) (children e).

(** First element of [e.iter(t)]: [e] itself or a descendant, in
    document order. *)
Fixpoint iter_first (t : string) (e : Element) : option Element :=
  match e with
  | Elem t' _ _ cs _ =>
      if String.eqb t' t then Some e else first_some (iter_first t) cs
  end.

(** [e.find('.//' + t)]: the first proper descendant with tag [t]. *)
Definition find_desc (t : string) (e : Element) : option Element :=
  first_some (iter_first t) (children e).

(** [e.find(a + '/' + b)]: the first [b] child of an [a] child. *)
Definition find_path (a b : string) (e : Element) : option Element :=
  first_some (fun c => if has_tag a c then find b c else None) (children e).

(** *** In-place updates, as functions on the tree

    The program keeps a reference to an element it found and mutates it.
    The element found by a lookup is the one the matching update
    rewrites: both walk the tree in the same order. *)

Definition update_child (t : string) (g : Element -> Element) (e : Element) : Element :=
  match update_first (fun c => if has_tag t c then Some (g c) else None) (children e) with
  | Some cs => with_children cs e
  | None => e
  end.

Fixpoint update_iter (t : string) (g : Element -> Element) (e : Element) : option Element :=
  match e with
  | Elem t' a x cs tl =>
      if String.eqb t' t then Some (g e)
      else match update_first (update_iter t g) cs with
           | Some cs' => Some (Elem t' a x cs' tl)
           | None => None
           end
  end.

Definition update_desc (t : string) (g : Element -> Element) (e : Element) : Element :=
  match update_first (update_iter t g) (children e) with
  | Some cs => with_children cs e
  | None => e
  end.

Definition update_path (a b : string) (g : Element -> Element) (e : Element) : Element :=
  match update_first
          (fun c => if has_tag a c
                    then match find b c with
                         | Some _ => Some (update_child b g c)
                         | None => None
                         end
                    else None) (children e) with
  | Some cs => with_children cs e
  | None => e
  end.

(** *** What stays of an element when attribute values and text change *)

(** Attribute dictionaries are dropped; text and tail are kept or not. *)
Fixpoint erase (keep_text : bool) (e : Element) : Element :=
  match e with
  | Elem t _ x cs tl =>
      Elem t [] (if keep_text then x else None)
           (List.map (erase keep_text) cs)
           (if keep_text then tl else None)
  end.

(** Tags and nesting only. *)
Definition shape : Element -> Element := erase false.

(** Everything but the attribute dictionaries. *)
Definition strip_attrs : Element -> Element := erase true.

End ET.

(** ** [datetime]: the clock reading and [strftime] *)

Module DateTime.
Local Open Scope N_scope.

Record datetime : Type := {
  year : N; month : N; day : N;
  hour : N; minute : N; second : N
}.

Definition is_leap (y : N) : bool :=
  (y mod 4 =? 0) && (negb (y mod 100 =? 0) || (y mod 400 =? 0)).

Definition days_before_year (y : N) : N :=
  let p := y - 1 in p * 365 + p / 4 - p / 100 + p / 400.

Definition days_in_month (y m : N) : N :=
  match m with
  | 2 => if is_leap y then 29 else 28
  | 4 | 6 | 9 | 11 => 30
  | _ => 31
  end.

Definition days_before_month (y m : N) : N :=
  fold_right N.add 0
    (List.map (fun k => days_in_month y (N.of_nat k)) (seq 1 (N.to_nat m - 1))).

Definition toordinal (d : datetime) : N :=
  days_before_year (year d) + days_before_month (year d) (month d) + day d.

(** [d.weekday()]: Monday is 0. *)
Definition weekday (d : datetime) : N := (toordinal d + 6) mod 7.

(** A value the [datetime] constructor accepts. *)
Definition valid (d : datetime) : bool :=
  (1 <=? year d) && (year d <=? 9999)
  && (1 <=? month d) && (month d <=? 12)
  && (1 <=? day d) && (day d <=? days_in_month (year d) (month d))
  && (hour d <? 24) && (minute d <? 60) && (second d <? 60).

Definition day_abbr (w : N) : string :=
  nth (N.to_nat w) ["Mon"; "Tue"; "Wed"; "Thu"; "Fri"; "Sat"; "Sun"] "Sun".

Definition month_abbr (m : N) : string :=
  nth (N.to_nat (m - 1))
      ["Jan"; "Feb"; "Mar"; "Apr"; "May"; "Jun";
       "Jul"; "Aug"; "Sep"; "Oct"; "Nov"; "Dec"] "Dec".

Definition digit (n : N) : ascii := ascii_of_N (48 + n mod 10).

(** [%d], [%H], [%M], [%S]: two digits, zero padded. *)
Definition two_digits (n : N) : string :=
  String (digit (n / 10)) (String (digit n) EmptyString).

(** [%Y], for the years from 1000 on that a clock reads. *)
Definition four_digits (n : N) : string :=
  String (digit (n / 1000)) (String (digit (n / 100))
    (String (digit (n / 10)) (String (digit n) EmptyString))).

(** [d.strftime('%a, %d %b %Y %H:%M:%S +0000')] in the C locale. *)
Definition strftime_rfc (d : datetime) : string :=
  (day_abbr (weekday d) ++ ", " ++ two_digits (day d) ++ " "
   ++ month_abbr (month d) ++ " " ++ four_digits (year d) ++ " "
   ++ two_digits (hour d) ++ ":" ++ two_digits (minute d) ++ ":"
   ++ two_digits (second d) ++ " +0000")%string.

End DateTime.

(** ** The world the program runs in *)

Import ET.

(** [self.media_folder] and [self.images_folder], the two directories
    files are downloaded to. *)
Inductive Folder : Type := MediaFolder | ImagesFolder.

Definition folder_name (f : Folder) : string :=
  match f with MediaFolder => "media" | ImagesFolder => "images" end.

(** A destination [os.path.join(folder, filename)], kept as the pair. *)
Definition Path : Type := (Folder * string)%type.

(** Names that denote a directory that exists once the folders are made:
    the folder itself and its parent. *)
Definition is_dir_name (name : string) : bool :=
  String.eqb name "" || String.eqb name "." || String.eqb name "..".

(** [os.path.relpath(path, self.output_folder)] *)
Definition relpath (p : Path) : string :=
  let '(f, name) := p in
  if String.eqb name "" || String.eqb name "." then folder_name f
  else if String.eqb name ".." then "."
  else folder_name f ++ "/" ++ name.

(** Files below the output folder with their sizes in bytes, the URLs
    requested from the network so far (oldest first), and the feed
    document [feed.xml] holds; [None] when there is no [feed.xml] or it
    does not hold a whole document. *)
Record World : Type := {
  media_files : gmap string N;
  image_files : gmap string N;
  requests : list string;
  feed_xml : option Element
}.

Definition files (f : Folder) (w : World) : gmap string N :=
  match f with MediaFolder => media_files w | ImagesFolder => image_files w end.

Definition write_file (p : Path) (size : N) (w : World) : World :=
  match fst p with
  | MediaFolder =>
      {| media_files := <[snd p := size]> (media_files w);
         image_files := image_files w;
         requests := requests w; feed_xml := feed_xml w |}
  | ImagesFolder =>
      {| media_files := media_files w;
         image_files := <[snd p := size]> (image_files w);
         requests := requests w; feed_xml := feed_xml w |}
  end.

Definition log_request (url : string) (w : World) : World :=
  {| media_files := media_files w; image_files := image_files w;
     requests := requests w ++ [url]; feed_xml := feed_xml w |}.

Definition write_feed (tree : Element) (w : World) : World :=
  {| media_files := media_files w; image_files := image_files w;
     requests := requests w; feed_xml := Some tree |}.

(** [feed.xml] opened for writing and left without a whole document. *)
Definition truncate_feed (w : World) : World :=
  {| media_files := media_files w; image_files := image_files w;
     requests := requests w; feed_xml := None |}.

(** [os.path.exists(path)] *)
Definition path_exists (w : World) (p : Path) : bool :=
  is_dir_name (snd p) || bool_decide (is_Some (files (fst p) w !! snd p)).

(** What a streaming GET of an asset does. *)
Inductive Transfer : Type :=
| Refused                    (* an exception before the file is opened *)
| Interrupted (written : N)  (* an exception after [written] bytes reached the file *)
| Complete (size : N).       (* the whole body was written *)

(** What [requests.get(rss_url)] does: it raises, or returns a response
    with a status code and a body. *)
Inductive FetchOutcome : Type :=
| FetchRaises
| Response (status_code : N) (content : string).

(** What [tree.write(output_rss, ...)] does: it writes the document, or
    [open] raises and [feed.xml] stays as it was, or an exception comes
    after [open] has truncated the file. *)
Inductive WriteOutcome : Type :=
| WriteCompletes
| OpenRaises
| WriteBreaksOff.

(** The oracles of a run. [transfer k url] is the outcome of the GET of
    [url] issued after [k] earlier asset requests. [dir_size w path] is
    the size the file system reports for the directory [path] in the
    world [w]: it may change as files are added. *)
Record Env : Type := {
  makedirs_raises : bool;
  fetch : string -> FetchOutcome;
  fromstring : string -> option Element;
  urlparse_raises : string -> bool;
  transfer : nat -> string -> Transfer;
  dir_size : World -> string -> N;
  utcnow : DateTime.datetime;
  feed_write : WriteOutcome
}.

(** ** Exceptions and the monad of the program *)

Inductive exn : Type :=
| ConnectionError   (* [requests.get] on the feed URL *)
| ParseError        (* [ET.fromstring] *)
| AttributeError    (* [channel] is [None] *)
| TypeError         (* [os.path.basename(None)] *)
| OSError.          (* [os.makedirs], [os.path.getsize], [tree.write] *)

Inductive result (A : Type) : Type :=
| Ok (a : A)
| Raise (e : exn).
Arguments Ok {A} a.
Arguments Raise {A} e.

(** A computation reads and updates the world; what it did to the world
    before raising stays done. *)
Definition Run (A : Type) : Type := World -> result A * World.

Definition ret {A : Type} (a : A) : Run A := fun w => (Ok a, w).

Definition raise {A : Type} (e : exn) : Run A := fun w => (Raise e, w).

Definition bind {A B : Type} (m : Run A) (k : A -> Run B) : Run B :=
  fun w =>
    match m w with
    | (Ok a, w') => k a w'
    | (Raise e, w') => (Raise e, w')
    end.

Notation "'let*' x ':=' m 'in' k" := (bind m (fun x => k))
  (at level 10, x name, m at level 200, k at level 200).

(** [os.path.getsize(path)] *)
Definition getsize (env : Env) (p : Path) : Run N :=
  fun w =>
    if is_dir_name (snd p) then (Ok (dir_size env w (relpath p)), w)
    else match files (fst p) w !! snd p with
         | Some n => (Ok n, w)
         | None => (Raise OSError, w)
         end.

(** ** [PodcastDownloader.download_file]

    The result is the destination, or [None]; no exception leaves the
    function. *)
Definition download_file (env : Env) (url : option string)
    (destination_folder : Folder) : Run (option Path) :=
  fun w =>
    match url with
    | None => (Ok None, w)
    | Some "" => (Ok None, w)
    | Some u =>
        if urlparse_raises env u then (Ok None, w)
        else
          let filename := derive_filename u in
          let destination := (destination_folder, filename) in
          if path_exists w destination then (Ok (Some destination), w)
          else
            let w1 := log_request u w in
            match transfer env (length (requests w)) u with
            | Refused => (Ok None, w1)
            | Interrupted n => (Ok None, write_file destination n w1)
            | Complete n => (Ok (Some destination), write_file destination n w1)
            end
    end.

(** ** [PodcastDownloader.process_feed] *)

Definition ITUNES_IMAGE : string := "{http://www.itunes.com/dtds/podcast-1.0.dtd}image".
Definition ATOM_LINK : string := "{http://www.w3.org/2005/Atom}link".

(** Lines 72-84: the podcast cover. *)
Definition download_cover (env : Env) (channel : Element) : Run Element :=
  match find_desc ITUNES_IMAGE channel with
  | None => ret channel
  | Some itunes_image =>
      let image_url := get "href" itunes_image in
      let* image_path := download_file env image_url ImagesFolder in
      match image_path with
      | None => ret channel
      | Some p =>
          let relative_path := relpath p in
          let channel := update_desc ITUNES_IMAGE (set "href" relative_path) channel in
          ret (update_path "image" "url" (set_text relative_path) channel)
      end
  end.

(** Lines 92-100: the audio of one episode. *)
Definition download_enclosure (env : Env) (item : Element) : Run Element :=
  match find "enclosure" item with
  | None => ret item
  | Some enclosure =>
      match get "url" enclosure with
      | None => raise TypeError
      | Some audio_url =>
          let* audio_path := download_file env (Some audio_url) MediaFolder in
          match audio_path with
          | None => ret item
          | Some p =>
              let relative_path := relpath p in
              let* size := getsize env p in
              ret (update_child "enclosure"
                     (fun e => set "length" (PyStr.of_N size) (set "url" relative_path e))
                     item)
          end
      end
  end.

(** Lines 103-110: the image of one episode. *)
Definition download_episode_image (env : Env) (item : Element) : Run Element :=
  match find_desc ITUNES_IMAGE item with
  | None => ret item
  | Some episode_image =>
      let image_url := get "href" episode_image in
      let* image_path := download_file env image_url ImagesFolder in
      match image_path with
      | None => ret item
      | Some p => ret (update_desc ITUNES_IMAGE (set "href" (relpath p)) item)
      end
  end.

(** The body of the loop over the episodes. *)
Definition process_item (env : Env) (item : Element) : Run Element :=
  let* item := download_enclosure env item in
  download_episode_image env item.

(** The loop over [channel.findall('item')]: the items are the children
    of the channel with that tag, visited in document order and mutated
    where they stand. *)
Fixpoint process_items (env : Env) (cs : list Element) : Run (list Element) :=
  match cs with
  | [] => ret []
  | c :: cs' =>
      if has_tag "item" c then
        let* c' := process_item env c in
        let* cs'' := process_items env cs' in
        ret (c' :: cs'')
      else
        let* cs'' := process_items env cs' in
        ret (c :: cs'')
  end.

(** [PodcastDownloader.update_feed_metadata] *)
Definition update_self_link (atom_link : Element) : Element :=
  if has_tag ATOM_LINK atom_link then
    match get "rel" atom_link with
    | Some rel => if String.eqb rel "self"
                  then set "href" "feed.xml" atom_link else atom_link
    | None => atom_link
    end
  else atom_link.

Definition update_feed_metadata (env : Env) (channel : Element) : Element :=
  let channel :=
    update_child "lastBuildDate"
      (set_text (DateTime.strftime_rfc (utcnow env))) channel in
  with_children (List.map update_self_link (children channel)) channel.

Definition requests_get (env : Env) (rss_url : string) : Run string :=
  match fetch env rss_url with
  | FetchRaises => raise ConnectionError
  | Response _ content => ret content
  end.

Definition parse_feed (env : Env) (content : string) : Run Element :=
  match fromstring env content with
  | Some root => ret root
  | None => raise ParseError
  end.

(** The pipeline from the parsed document on. *)
Definition rewrite_feed (env : Env) (root : Element) : Run Element :=
  match find "channel" root with
  | None => raise AttributeError
  | Some channel =>
      let* channel := download_cover env channel in
      let* items := process_items env (children channel) in
      let channel := update_feed_metadata env (with_children items channel) in
      ret (update_child "channel" (fun _ => channel) root)
  end.

(** Line 117: [tree.write]. *)
Definition tree_write (env : Env) (tree : Element) : Run Element :=
  fun w =>
    match feed_write env with
    | WriteCompletes => (Ok tree, write_feed tree w)
    | OpenRaises => (Raise OSError, w)
    | WriteBreaksOff => (Raise OSError, truncate_feed w)
    end.

Definition process_feed (env : Env) (rss_url : string) : Run Element :=
  let* content := requests_get env rss_url in
  let* root := parse_feed env content in
  let* tree := rewrite_feed env root in
  tree_write env tree.

(** [main], after the two prompts: the constructor makes the folders,
    then the feed is processed; any exception is caught and reported. *)
Inductive Outcome : Type :=
| Completed (tree : Element)
| ErrorReported (e : exn).

Definition main (env : Env) (rss_url : string) (w : World) : Outcome * World :=
  if makedirs_raises env then (ErrorReported OSError, w)
  else match process_feed env rss_url w with
       | (Ok tree, w') => (Completed tree, w')
       | (Raise e, w') => (ErrorReported e, w')
       end.

(** ** The filename rule as the specification words it *)

Module SpecWords.

(** The pieces of [s] between the occurrences of [c]. *)
Fixpoint split_on (c : ascii) (s : string) : list string :=
  match s with
  | EmptyString => [EmptyString]
  | String a t =>
      if Ascii.eqb a c then EmptyString :: split_on c t
      else match split_on c t with
           | h :: r => String a h :: r
           | [] => [String a EmptyString]
           end
  end.

(** The last segment of the URL path. *)
Definition last_segment (p : string) : string :=
  List.last (split_on "/" p) EmptyString.

(** The nine characters to strip: less-than, greater-than, colon,
    double quote, slash, backslash, bar, question mark, asterisk. *)
Definition strip_set : list ascii :=
  ["<"; ">"; ":"; PyStr.quote_char; "/"; PyStr.backslash; "|"; "?"; "*"]%char.

Definition in_strip_set (c : ascii) : bool := existsb (Ascii.eqb c) strip_set.

Definition remove_strip_set (s : string) : string :=
  string_of_list_ascii
    (List.filter (fun c => negb (in_strip_set c)) (list_ascii_of_string s)).

(** Trimming surrounding whitespace. *)
Fixpoint drop_while (p : ascii -> bool) (l : list ascii) : list ascii :=
  match l with
  | [] => []
  | a :: t => if p a then drop_while p t else l
  end.

Definition trim (s : string) : string :=
  string_of_list_ascii
    (List.rev (drop_while PyStr.isspace
       (List.rev (drop_while PyStr.isspace (list_ascii_of_string s))))).

(** Replacing internal spaces with underscores. *)
Definition spaces_to_underscores (s : string) : string :=
  string_of_list_ascii
    (List.map (fun c => if Ascii.eqb c " " then "_"%char else c)
              (list_ascii_of_string s)).

Definition clean (segment : string) : string :=
  spaces_to_underscores (trim (remove_strip_set segment)).

(** The order of the claim: last segment, then percent-decoding. *)
Definition filename_segment_then_decode (url : string) : string :=
  clean (Urllib.unquote (last_segment (Urllib.urlparse_path url))).

(** The order of the code: percent-decoding, then last segment. *)
Definition filename_decode_then_segment (url : string) : string :=
  clean (last_segment (Urllib.unquote (Urllib.urlparse_path url))).

End SpecWords.

(** ** Sample worlds and oracles *)

Definition empty_world : World :=
  {| media_files := ∅; image_files := ∅; requests := []; feed_xml := None |}.

Definition sample_now : DateTime.datetime :=
  {| DateTime.year := 2024; DateTime.month := 2; DateTime.day := 29;
     DateTime.hour := 7; DateTime.minute := 5; DateTime.second := 9 |}.

(** An environment serving [feed] for every feed URL, with the given
    asset transfers. *)
Definition sample_env (status : N) (feed : Element)
    (t : nat -> string -> Transfer) : Env :=
  {| makedirs_raises := false;
     fetch := fun _ => Response status "feed";
     fromstring := fun _ => Some feed;
     urlparse_raises := fun _ => false;
     transfer := t;
     dir_size := fun _ _ => 4096%N;
     utcnow := sample_now;
     feed_write := WriteCompletes |}.

Definition leaf (t : string) (a : list (string * string)) : Element :=
  Elem t a None [] None.

Definition node (t : string) (cs : list Element) : Element :=
  Elem t [] None cs None.

Definition text_leaf (t s : string) : Element :=
  Elem t [] (Some s) [] None.

(** ** The world only grows *)

(** Every file of [w] is in [w2] with the same size. *)
Definition extends (w w2 : World) : Prop :=
  forall f : Folder, files f w ⊆ files f w2.

(** The asset requests of [w'] beyond those of [w], each for a file that
    did not exist in [w]. *)
Definition fresh_requests (w w' : World) : Prop :=
  exists new : list string,
    requests w' = (requests w ++ new)%list
    /\ Forall (fun u => exists f, path_exists w (f, derive_filename u) = false) new.

(** What a computation may do to the world. *)
Record step (w w' : World) : Prop := {
  step_files : extends w w';
  step_requests : fresh_requests w w';
  step_feed : feed_xml w' = feed_xml w
}.

Definition grows {A : Type} (m : Run A) : Prop :=
  forall w r w', m w = (r, w') -> step w w'.

(** A second execution in a world that has the files the first one ended
    with answers the same and leaves that world alone. *)
Definition replays {A : Type} (m1 m2 : Run A) : Prop :=
  forall w r w', m1 w = (r, w') ->
  forall w2, extends w' w2 -> m2 w2 = (r, w2).

(** The environment of a later run: the same feed and file system, other
    transfers and another reading of the clock. *)
Definition second_run (t : nat -> string -> Transfer) (now : DateTime.datetime)
    (env : Env) : Env :=
  {| makedirs_raises := makedirs_raises env;
     fetch := fetch env;
     fromstring := fromstring env;
     urlparse_raises := urlparse_raises env;
     transfer := t;
     dir_size := dir_size env;
     utcnow := now;
     feed_write := feed_write env |}.

Definition always_completes (env : Env) : Prop :=
  forall k u, exists n, transfer env k u = Complete n.

(** ** Sample feeds *)

Definition episode (url : string) (extra : list Element) : Element :=
  node "item" (leaf "enclosure" [("url", url); ("length", "1")] :: extra).

(** One episode, no cover, no build date. *)
Definition feed_one_episode : Element :=
  node "rss" [node "channel"
    [text_leaf "title" "Show"; episode "http://h.example/a.mp3" []]].

(** The cover only in the plain form. *)
Definition feed_plain_cover : Element :=
  node "rss" [node "channel"
    [text_leaf "title" "Show";
     node "image" [text_leaf "url" "http://h.example/cover.jpg"]]].

(** No cover on the channel, an image on the second episode. *)
Definition feed_episode_image : Element :=
  node "rss" [node "channel"
    [text_leaf "title" "Show";
     node "image" [text_leaf "url" "http://h.example/cover.jpg"];
     episode "http://h.example/a.mp3" [];
     episode "http://h.example/b.mp3"
       [leaf ITUNES_IMAGE [("href", "http://h.example/b.jpg")]]]].

(** A feed with everything the pipeline looks at. *)
Definition feed_full : Element :=
  node "rss" [node "channel"
    [text_leaf "title" "Show";
     text_leaf "lastBuildDate" "Mon, 01 Jan 2001 00:00:00 +0000";
     leaf ATOM_LINK [("rel", "self"); ("href", "http://h.example/feed")];
     leaf ATOM_LINK [("rel", "alternate"); ("href", "http://h.example/")];
     leaf ITUNES_IMAGE [("href", "http://h.example/cover.jpg")];
     node "image" [text_leaf "url" "http://h.example/cover.jpg"];
     episode "http://h.example/a.mp3" [];
     episode "http://h.example/b.mp3"
       [leaf ITUNES_IMAGE [("href", "http://h.example/b.jpg")]]]].

Definition completes_with (n : N) : nat -> string -> Transfer :=
  fun _ _ => Complete n.

Definition interrupted_at (n : N) : nat -> string -> Transfer :=
  fun _ _ => Interrupted n.

Definition refusing_env : Env :=
  sample_env 200 feed_one_episode (fun _ _ => Refused).

Definition sample_episode : Element := episode "http://h.example/a.mp3" [].

Definition sample_enclosure : Element :=
  leaf "enclosure" [("url", "http://h.example/a.mp3"); ("length", "1")].

(** A channel that exercises the three lookups. *)
Definition lookup_channel : Element :=
  node "channel"
    [text_leaf "title" "t";
     node "image" [leaf "link" []; text_leaf "url" "u1"];
     node "image" [text_leaf "url" "u2"; text_leaf "url" "u3"];
     node "item"
       [leaf "enclosure" [("url", "a")];
        node "x" [leaf ITUNES_IMAGE [("href", "h1")]];
        leaf ITUNES_IMAGE [("href", "h2")]];
     Elem ITUNES_IMAGE [("href", "h0")] None
       [leaf ITUNES_IMAGE [("href", "inner")]] None].

(** A run on the full feed in which every transfer completes. *)
Definition full_env : Env := sample_env 200 feed_full (completes_with 10).

Definition full_run : result Element * World :=
  process_feed full_env "http://h.example/feed" empty_world.

Definition tree_of (r : result Element * World) : Element :=
  match fst r with
  | Ok tree => tree
  | Raise _ => leaf "" []
  end.

(** The full feed, every transfer completing, and a write of the
    document that breaks off. *)
Definition broken_write_env : Env :=
  {| makedirs_raises := false;
     fetch := fun _ => Response 200 "feed";
     fromstring := fun _ => Some feed_full;
     urlparse_raises := fun _ => false;
     transfer := completes_with 10;
     dir_size := fun _ _ => 4096%N;
     utcnow := sample_now;
     feed_write := WriteBreaksOff |}.

(** A feed URL that cannot be reached. *)
Definition unreachable_env : Env :=
  {| makedirs_raises := false;
     fetch := fun _ => FetchRaises;
     fromstring := fun _ => Some feed_full;
     urlparse_raises := fun _ => false;
     transfer := completes_with 10;
     dir_size := fun _ _ => 4096%N;
     utcnow := sample_now;
     feed_write := WriteCompletes |}.

(** The channels of the sample feeds. *)
Definition channel_of (root : Element) : Element :=
  match find "channel" root with
  | Some channel => channel
  | None => leaf "" []
  end.

(** Two runs over the one-episode feed with a transfer that breaks off
    after five bytes. *)
Definition interrupted_env : Env :=
  sample_env 200 feed_one_episode (interrupted_at 5).

Definition interrupted_run1 : result Element * World :=
  process_feed interrupted_env "http://h.example/feed" empty_world.

Definition interrupted_run2 : result Element * World :=
  process_feed interrupted_env "http://h.example/feed" (snd interrupted_run1).

(** A world in which [media/a.mp3] is there already. *)
Definition cached_world : World := write_file (MediaFolder, "a.mp3") 5 empty_world.

(** ** Sample runs with failing transfers and with episode images *)

Definition interrupted_image_env : Env :=
  sample_env 200 feed_episode_image (interrupted_at 5).
Definition interrupted_image_run : result Element * World :=
  process_feed interrupted_image_env "http://h.example/feed" empty_world.
Definition refused_image_env : Env :=
  sample_env 200 feed_episode_image (fun _ _ => Refused).
Definition refused_image_run : result Element * World :=
  process_feed refused_image_env "http://h.example/feed" empty_world.
Definition refused_full_env : Env :=
  sample_env 200 feed_full (fun _ _ => Refused).
Definition refused_full_run : result Element * World :=
  process_feed refused_full_env "http://h.example/feed" empty_world.

(** A run on the one-episode feed in which the transfer writes 1234
    bytes. *)
Definition sized_env : Env := sample_env 200 feed_one_episode (completes_with 1234).
Definition sized_run : result Element * World :=
  process_feed sized_env "http://h.example/feed" empty_world.

(** A run on the feed whose only podcast image is the image of an
    episode, every transfer completing. *)
Definition episode_image_env : Env :=
  sample_env 200 feed_episode_image (completes_with 10).
Definition episode_image_run : result Element * World :=
  process_feed episode_image_env "http://h.example/feed" empty_world.

Definition plain_cover_env : Env :=
  sample_env 200 feed_plain_cover (completes_with 10).
Definition plain_cover_run : result Element * World :=
  process_feed plain_cover_env "http://h.example/feed" empty_world.

(** No podcast image among the children of the channel, one nested in a
    child that is not an item, one in the episode. *)
Definition channel_nested_image : Element :=
  node "channel"
    [text_leaf "title" "Show";
     node "owner" [leaf ITUNES_IMAGE [("href", "http://h.example/n.jpg")]];
     episode "http://h.example/a.mp3"
       [leaf ITUNES_IMAGE [("href", "http://h.example/e.jpg")]]].

(** ** Relations between an element and its updated version *)

(** The selector of [find]. *)
Definition pick (t : string) (c : Element) : option Element :=
  if has_tag t c then Some c else None.

(** An update of descendants with tag [t] leaves the attributes of every
    child with another tag alone. *)
Definition same_unless (t : string) (a b : Element) : Prop :=
  tag b = tag a /\ (tag a <> t -> attrib b = attrib a).

(** What the pipeline may change in a child of the channel: never its
    tag or the nesting below it, and in an item nothing but attributes. *)
Definition item_equiv (c c' : Element) : Prop :=
  tag c' = tag c
  /\ shape c' = shape c
  /\ (has_tag "item" c = true -> strip_attrs c' = strip_attrs c).

(** The items of a feed document, in document order. *)
Definition feed_items (root : Element) : list Element :=
  match find "channel" root with
  | Some channel => findall "item" channel
  | None => []
  end.

(** ** The pattern [Day, DD Mon YYYY HH:MM:SS +0000] *)

Definition is_upper (c : ascii) : bool :=
  let n := nat_of_ascii c in (65 <=? n) && (n <=? 90).

Definition is_lower (c : ascii) : bool :=
  let n := nat_of_ascii c in (97 <=? n) && (n <=? 122).

Definition is_char (a : ascii) (c : ascii) : bool := Ascii.eqb c a.

(** A string matches a list of character classes, one per position. *)
Fixpoint matches (classes : list (ascii -> bool)) (s : string) : bool :=
  match classes, s with
  | [], EmptyString => true
  | p :: ps, String c t => p c && matches ps t
  | _, _ => false
  end.

Definition abbr_pattern : list (ascii -> bool) := [is_upper; is_lower; is_lower].

Definition literal (s : string) : list (ascii -> bool) :=
  List.map is_char (list_ascii_of_string s).

Definition digits_pattern (n : nat) : list (ascii -> bool) := repeat PyStr.isdigit n.

Definition rfc_pattern : list (ascii -> bool) :=
  (abbr_pattern ++ literal ", " ++ digits_pattern 2 ++ literal " "
   ++ abbr_pattern ++ literal " " ++ digits_pattern 4 ++ literal " "
   ++ digits_pattern 2 ++ literal ":" ++ digits_pattern 2 ++ literal ":"
   ++ digits_pattern 2 ++ literal " +0000")%list.

(** ** Vocabulary of the claims about whole runs *)

(** The enclosure of the item, when it has one with a [url], is saved as
    a file: the name derived from the URL is none of the directory
    names. *)
Definition enclosure_names_file (item : Element) : bool :=
  match find "enclosure" item with
  | Some enclosure =>
      match get "url" enclosure with
      | Some u => negb (is_dir_name (derive_filename u))
      | None => true
      end
  | None => true
  end.

Definition enclosures_name_files (cs : list Element) : bool :=
  forallb (fun c => negb (has_tag "item" c) || enclosure_names_file c) cs.

(** The document with the text of its build date taken from another
    reading of the clock. *)
Definition with_build_date (now : DateTime.datetime) (tree : Element) : Element :=
  update_child "channel"
    (update_child "lastBuildDate" (set_text (DateTime.strftime_rfc now))) tree.

(** The world in which the loop reaches the child at position [i] of the
    channel: after the cover step and the children before that one. *)
Definition world_at_item (env : Env) (channel : Element) (w : World) (i : nat) : World :=
  match download_cover env channel w with
  | (Ok ch1, w1) => snd (process_items env (take i (children ch1)) w1)
  | (Raise _, w1) => w1
  end.

(** What a step on namespaced images or on the plain image leaves of a
    child of the channel: its tag, and in an item the enclosure with its
    attributes. *)
Definition enclosure_kept (c c' : Element) : Prop :=
  tag c' = tag c
  /\ (has_tag "item" c = true ->
      match find "enclosure" c with
      | Some enclosure =>
          exists enclosure',
            find "enclosure" c' = Some enclosure'
            /\ attrib enclosure' = attrib enclosure
      | None => find "enclosure" c' = None
      end).

(** ** Vocabulary of the further properties *)

(** A character a sanitized name may contain. *)
Definition safe_char (c : ascii) : bool :=
  negb (forbidden_char c) && negb (Ascii.eqb c " ").

Definition head_char (s : string) : option ascii :=
  match s with
  | EmptyString => None
  | String a _ => Some a
  end.

Fixpoint last_char (s : string) : option ascii :=
  match s with
  | EmptyString => None
  | String a t => match last_char t with Some c => Some c | None => Some a end
  end.

(** Neither the first nor the last character is whitespace. *)
Definition no_outer_space (s : string) : Prop :=
  (forall c, head_char s = Some c -> PyStr.isspace c = false)
  /\ (forall c, last_char s = Some c -> PyStr.isspace c = false).

(** A computation issues at most [k] asset requests. *)
Definition at_most (k : nat) {A : Type} (m : Run A) : Prop :=
  forall w r w', m w = (r, w') -> length (requests w') <= length (requests w) + k.

(** An item whose enclosure has no [url] attribute. *)
Definition lacks_url (item : Element) : bool :=
  match find "enclosure" item with
  | Some enclosure =>
      match get "url" enclosure with
      | None => true
      | Some _ => false
      end
  | None => false
  end.

(** Some item among the children has an enclosure without [url]. *)
Definition aborts_loop (cs : list Element) : bool :=
  existsb (fun c => has_tag "item" c && lacks_url c) cs.

(** The attributes the program writes, and the tags of the elements whose
    text it writes. *)
Definition rewritten_key (k : string) : bool :=
  String.eqb k "url" || String.eqb k "length" || String.eqb k "href".

Definition rewritten_text (t : string) : bool :=
  String.eqb t "url" || String.eqb t "lastBuildDate".

(** An element without what the program may write: the attributes [url],
    [length] and [href] are dropped everywhere, and so is the text of the
    elements tagged [url] or [lastBuildDate]; everything else stays, in
    its order. *)
Fixpoint redact (e : Element) : Element :=
  match e with
  | Elem t a x cs tl =>
      Elem t (List.filter (fun kv => negb (rewritten_key (fst kv))) a)
           (if rewritten_text t then None else x)
           (List.map redact cs) tl
  end.

(** The enclosure of an item after the loop, against the item before it:
    either its attributes are untouched, or its [url] is the relative path
    of a destination that exists in [media/] in the world [w']; when that
    destination is a file, its [url] is [media/] followed by the name and
    its [length] is the decimal size the file has in [w'], and when it is
    a directory, its [length] is a decimal number. *)
Definition enclosure_settled (w' : World) (c c' : Element) : Prop :=
  forall enclosure,
    find "enclosure" c = Some enclosure ->
    exists enclosure',
      find "enclosure" c' = Some enclosure'
      /\ (attrib enclosure' = attrib enclosure
          \/ exists name,
               path_exists w' (MediaFolder, name) = true
               /\ get "url" enclosure' = Some (relpath (MediaFolder, name))
               /\ (is_dir_name name = false ->
                   exists size,
                     media_files w' !! name = Some size
                     /\ get "url" enclosure' = Some ("media/" ++ name)
                     /\ get "length" enclosure' = Some (PyStr.of_N size))
               /\ (is_dir_name name = true ->
                   exists size, get "length" enclosure' = Some (PyStr.of_N size))).

(** File names made of letters, digits, dot, underscore and dash, other
    than the directory names. *)
Definition plain_char (c : ascii) : bool :=
  PyStr.isalpha c || PyStr.isdigit c || PyStr.contains c "._-".

Definition plain_name (name : string) : bool :=
  PyStr.all plain_char name && negb (is_dir_name name).

(** A character of a relative path under [media/] or [images/]. *)
Definition pathy (c : ascii) : bool := plain_char c || Ascii.eqb c "/".

(** * Properties *)

(** ** Sanity checks of the embedding on concrete inputs *)

Example derive_plain :
  derive_filename "https://cdn.example.org/shows/ep%2001.mp3?x=1#t" = "ep_01.mp3".
Proof. reflexivity. Qed.

Example derive_params :
  derive_filename "http://h.example/a/b.mp3;type=a" = "b.mp3".
Proof. reflexivity. Qed.

Example strftime_sample :
  DateTime.strftime_rfc sample_now = "Thu, 29 Feb 2024 07:05:09 +0000".
Proof. reflexivity. Qed.

Example strftime_epoch :
  DateTime.strftime_rfc
    {| DateTime.year := 1970; DateTime.month := 1; DateTime.day := 1;
       DateTime.hour := 0; DateTime.minute := 0; DateTime.second := 0 |}
  = "Thu, 01 Jan 1970 00:00:00 +0000".
Proof. reflexivity. Qed.

Example derive_literal_hash :
  derive_filename "http://h.example/My Episode #5!.mp3" = "My_Episode".
Proof. reflexivity. Qed.

Example derive_directory : derive_filename "http://h.example/dir/" = "".
Proof. reflexivity. Qed.

Example derive_no_scheme : derive_filename "images/x.jpg" = "x.jpg".
Proof. reflexivity. Qed.

Example derive_bad_escape : derive_filename "http://h.example/%zz%4" = "%zz%4".
Proof. reflexivity. Qed.

Example sanitize_all_forbidden :
  sanitize_filename
    (String "a" (String "<" (String "b" (String ">" (String "c" (String ":"
      (String PyStr.quote_char (String "/" (String PyStr.backslash
        (String "|" (String "?" (String "*" (String "d" EmptyString)))))))))))))
  = "abcd".
Proof. reflexivity. Qed.

Example relpath_samples :
  relpath (MediaFolder, "a.mp3") = "media/a.mp3"
  /\ relpath (MediaFolder, "") = "media"
  /\ relpath (ImagesFolder, ".") = "images"
  /\ relpath (ImagesFolder, "..") = ".".
Proof. repeat split. Qed.

Example lookup_descendant_in_document_order :
  get "href" <$> find_desc ITUNES_IMAGE lookup_channel = Some (Some "h1").
Proof. reflexivity. Qed.

Example lookup_plain_image :
  text <$> find_path "image" "url" lookup_channel = Some (Some "u1").
Proof. reflexivity. Qed.

Example lookup_excludes_self :
  find_desc ITUNES_IMAGE (leaf ITUNES_IMAGE [("href", "self")]) = None.
Proof. reflexivity. Qed.

Example dict_set_keeps_order :
  dict_set "c" "3" (dict_set "a" "9" [("b", "1"); ("a", "2")])
  = [("b", "1"); ("a", "9"); ("c", "3")].
Proof. reflexivity. Qed.

(** ** Strings: the source functions against the words of the specification *)

Section StringFacts.
Import PyStr SpecWords.

Lemma rfind_none_split (c : ascii) (s : string) :
  rfind c s = None -> split_on c s = [s].
Proof.
  induction s as [|a t IH]; simpl; [reflexivity|].
  destruct (rfind c t) eqn:E; [discriminate|].
  destruct (Ascii.eqb a c); [discriminate|].
  intros _. rewrite IH; reflexivity.
Qed.

Lemma split_on_nonempty (c : ascii) (s : string) : split_on c s <> [].
Proof.
  destruct s as [|a t]; simpl; [discriminate|].
  destruct (Ascii.eqb a c); [discriminate|].
  destruct (split_on c t); discriminate.
Qed.

Lemma last_cons_nonempty {A : Type} (x d : A) (l : list A) :
  l <> [] -> List.last (x :: l) d = List.last l d.
Proof. destruct l; [congruence | reflexivity]. Qed.

Lemma rfind_some_split (c : ascii) (s : string) (i : nat) :
  rfind c s = Some i -> exists h h' r, split_on c s = h :: h' :: r.
Proof.
  revert i. induction s as [|a t IH]; simpl; intros i E; [discriminate|].
  destruct (rfind c t) as [j|] eqn:Et.
  - destruct (IH j eq_refl) as (h & h' & r & S). rewrite S.
    destruct (Ascii.eqb a c); eauto.
  - destruct (Ascii.eqb a c); [|discriminate].
    rewrite (rfind_none_split _ _ Et). eauto.
Qed.

(** [os.path.basename] returns the last piece of the split at slashes. *)
Lemma basename_last_segment (p : string) :
  OsPath.basename p = last_segment p.
Proof.
  unfold OsPath.basename, last_segment.
  induction p as [|a t IH]; [reflexivity|].
  cbn [rfind split_on].
  destruct (rfind "/" t) as [i|] eqn:E.
  - change (drop (Datatypes.S (Datatypes.S i)) (String a t))
      with (drop (Datatypes.S i) t).
    rewrite IH.
    destruct (rfind_some_split _ _ _ E) as (h & h' & r & S). rewrite S.
    destruct (Ascii.eqb a "/"); reflexivity.
  - rewrite (rfind_none_split _ _ E) in *.
    destruct (Ascii.eqb a "/"); reflexivity.
Qed.

Lemma forbidden_char_strip_set (c : ascii) : forbidden_char c = in_strip_set c.
Proof. destruct c as [[] [] [] [] [] [] [] []]; reflexivity. Qed.

Lemma remove_if_filter (p : ascii -> bool) (s : string) :
  remove_if p s
  = string_of_list_ascii (List.filter (fun c => negb (p c)) (list_ascii_of_string s)).
Proof.
  induction s as [|a t IH]; simpl; [reflexivity|].
  destruct (p a); simpl; rewrite IH; reflexivity.
Qed.

Lemma remove_forbidden (s : string) :
  remove_if forbidden_char s = remove_strip_set s.
Proof.
  rewrite remove_if_filter. unfold remove_strip_set. f_equal.
  induction (list_ascii_of_string s) as [|a l IH]; simpl; [reflexivity|].
  rewrite forbidden_char_strip_set, IH. reflexivity.
Qed.

Lemma lstrip_drop_while (p : ascii -> bool) (s : string) :
  list_ascii_of_string (lstrip_if p s) = drop_while p (list_ascii_of_string s).
Proof.
  induction s as [|a t IH]; simpl; [reflexivity|].
  destruct (p a); [exact IH | reflexivity].
Qed.

Lemma drop_while_snoc (p : ascii -> bool) (l : list ascii) (a : ascii) :
  drop_while p (l ++ [a])%list
  = match drop_while p l with
    | [] => if p a then [] else [a]
    | r => (r ++ [a])%list
    end.
Proof.
  induction l as [|b l IH]; simpl; [reflexivity|].
  destruct (p b); [exact IH | reflexivity].
Qed.

Lemma rstrip_rev (p : ascii -> bool) (s : string) :
  list_ascii_of_string (rstrip_if p s)
  = List.rev (drop_while p (List.rev (list_ascii_of_string s))).
Proof.
  induction s as [|a t IH]; simpl; [reflexivity|].
  rewrite drop_while_snoc.
  destruct (drop_while p (List.rev (list_ascii_of_string t))) as [|b r] eqn:E.
  - simpl in IH. destruct (rstrip_if p t); [|discriminate].
    destruct (p a); reflexivity.
  - rewrite rev_app_distr. cbn [rev app].
    change (rev r ++ [b])%list with (rev (b :: r)). rewrite <- IH.
    destruct (rstrip_if p t) as [|c u] eqn:R; [|reflexivity].
    exfalso. apply (f_equal (@List.length ascii)) in IH.
    rewrite length_rev in IH. simpl in IH. lia.
Qed.

Lemma strip_trim (s : string) : strip s = trim s.
Proof.
  unfold strip, trim.
  rewrite <- (string_of_list_ascii_of_string (rstrip_if _ _)).
  rewrite rstrip_rev, lstrip_drop_while. reflexivity.
Qed.

Lemma replace_map (s : string) :
  replace " " "_" s = spaces_to_underscores s.
Proof.
  unfold spaces_to_underscores.
  induction s as [|a t IH]; simpl; [reflexivity|]. rewrite IH. reflexivity.
Qed.

(** [sanitize_filename] does what the three cleaning steps say. *)
Lemma sanitize_clean (s : string) : sanitize_filename s = clean s.
Proof.
  unfold sanitize_filename, clean.
  rewrite remove_forbidden, strip_trim, replace_map. reflexivity.
Qed.

Lemma append_cons (c : ascii) (t u : string) :
  (String c t ++ u)%string = String c (t ++ u)%string.
Proof. reflexivity. Qed.

Lemma append_nil (u : string) : (EmptyString ++ u)%string = u.
Proof. reflexivity. Qed.

Lemma unquote_keep (c : ascii) (t : string) :
  match t with
  | String h (String l _) => Urllib.hex_digit h = None \/ Urllib.hex_digit l = None
  | _ => True
  end ->
  Urllib.unquote (String c t) = String c (Urllib.unquote t).
Proof.
  intros H. cbn [Urllib.unquote].
  destruct (Ascii.eqb c "%"); [|reflexivity].
  destruct t as [|h [|l rest]]; try reflexivity.
  destruct H as [H|H]; rewrite H; [reflexivity|].
  destruct (Urllib.hex_digit h); reflexivity.
Qed.

(** Percent-decoding over a slash. *)
Lemma unquote_slash (a b : string) :
  Urllib.unquote (a ++ String "/" b)
  = (Urllib.unquote a ++ String "/" (Urllib.unquote b))%string.
Proof.
  remember (String.length a) as n eqn:Hn.
  assert (Hle : String.length a <= n) by lia. clear Hn.
  revert a Hle. induction n as [|n IH]; intros a Hle.
  - destruct a; [reflexivity | simpl in Hle; lia].
  - destruct a as [|c t]; [reflexivity|].
    simpl in Hle.
    assert (Ht : Urllib.unquote (t ++ String "/" b)
                 = (Urllib.unquote t ++ String "/" (Urllib.unquote b))%string)
      by (apply IH; lia).
    destruct t as [|h [|l rest]].
    + rewrite ?append_cons, ?append_nil. rewrite ?append_cons, ?append_nil in Ht.
      rewrite unquote_keep by (destruct b; [exact I | left; reflexivity]).
      rewrite Ht. rewrite (unquote_keep c EmptyString) by exact I. reflexivity.
    + rewrite ?append_cons, ?append_nil. rewrite ?append_cons, ?append_nil in Ht.
      rewrite unquote_keep by (right; reflexivity). rewrite Ht.
      rewrite (unquote_keep c (String h EmptyString)) by exact I. reflexivity.
    + rewrite ?append_cons. rewrite ?append_cons in Ht.
      cbn [Urllib.unquote] in Ht |- *.
      destruct (Ascii.eqb c "%"); [|rewrite Ht, ?append_cons; reflexivity].
      destruct (Urllib.hex_digit h) as [x|];
        [|rewrite Ht, ?append_cons; reflexivity].
      destruct (Urllib.hex_digit l) as [y|];
        [|rewrite Ht, ?append_cons; reflexivity].
      rewrite append_cons. f_equal. apply IH. simpl in Hle. lia.
Qed.

Lemma rfind_none_contains (c : ascii) (s : string) :
  contains c s = false -> rfind c s = None.
Proof.
  induction s as [|a t IH]; simpl; [reflexivity|].
  destruct (Ascii.eqb a c); [discriminate|].
  intros H. rewrite (IH H). reflexivity.
Qed.

Lemma rfind_split (c : ascii) (s : string) (i : nat) :
  rfind c s = Some i ->
  s = (take i s ++ String c (drop (Datatypes.S i) s))%string.
Proof.
  revert i. induction s as [|a t IH]; simpl; intros i E; [discriminate|].
  destruct (rfind c t) as [j|] eqn:Et.
  - inversion E; subst.
    change (take (Datatypes.S j) (String a t)) with (String a (take j t)).
    change (drop (Datatypes.S (Datatypes.S j)) (String a t))
      with (drop (Datatypes.S j) t).
    rewrite append_cons. f_equal. apply (IH j eq_refl).
  - destruct (Ascii.eqb a c) eqn:Ea; [|discriminate].
    inversion E; subst. apply Ascii.eqb_eq in Ea. subst. reflexivity.
Qed.

Lemma basename_after_slash (x y : string) :
  contains "/" y = false -> OsPath.basename (x ++ String "/" y) = y.
Proof.
  intros Hy. unfold OsPath.basename.
  induction x as [|a t IH].
  - rewrite append_nil. cbn [rfind].
    rewrite (rfind_none_contains _ _ Hy). reflexivity.
  - rewrite append_cons. cbn [rfind].
    destruct (rfind "/" (t ++ String "/" y)) as [i|] eqn:E.
    + exact IH.
    + exfalso. clear IH. induction t as [|b u IHu].
      * rewrite append_nil in E. cbn [rfind] in E.
        destruct (rfind "/" y); discriminate.
      * rewrite append_cons in E. cbn [rfind] in E.
        destruct (rfind "/" (u ++ String "/" y)); [discriminate|].
        apply IHu. reflexivity.
Qed.

(** Where decoding the last segment brings in no slash, the two orders
    of decoding and taking the last segment agree. *)
Lemma unquote_last_segment (p : string) :
  contains "/" (Urllib.unquote (last_segment p)) = false ->
  last_segment (Urllib.unquote p) = Urllib.unquote (last_segment p).
Proof.
  rewrite <- !basename_last_segment. intros H.
  unfold OsPath.basename in H |- * at 2.
  destruct (rfind "/" p) as [i|] eqn:E.
  - rewrite (rfind_split _ _ _ E) at 1.
    rewrite unquote_slash. apply basename_after_slash. exact H.
  - unfold OsPath.basename. rewrite (rfind_none_contains _ _ H). reflexivity.
Qed.

End StringFacts.

(** ** Element trees: lookups against updates *)

Section TreeFacts.

(** Induction over an element with the hypothesis for all its children. *)
Lemma Element_ind_children (P : Element -> Prop) :
  (forall t a x cs tl, Forall P cs -> P (Elem t a x cs tl)) ->
  forall e, P e.
Proof.
  intros step. fix IH 1. intros [t a x cs tl]. apply step.
  induction cs as [|c cs IHcs]; constructor; [apply IH | exact IHcs].
Qed.

Lemma dict_get_set_eq (k v : string) (d : list (string * string)) :
  dict_get k (dict_set k v d) = Some v.
Proof.
  induction d as [|[k' v'] d IH]; simpl.
  - rewrite String.eqb_refl. reflexivity.
  - destruct (String.eqb k' k) eqn:E; simpl; rewrite E; [reflexivity | exact IH].
Qed.

Lemma dict_get_set_ne (k k' v : string) (d : list (string * string)) :
  k <> k' -> dict_get k' (dict_set k v d) = dict_get k' d.
Proof.
  intros Hne. induction d as [|[k0 v0] d IH]; simpl.
  - destruct (String.eqb k k') eqn:E; [|reflexivity].
    apply String.eqb_eq in E. contradiction.
  - destruct (String.eqb k0 k) eqn:E; simpl.
    + apply String.eqb_eq in E. subst k0.
      destruct (String.eqb k k') eqn:E'; [|reflexivity].
      apply String.eqb_eq in E'. contradiction.
    + rewrite IH. reflexivity.
Qed.

Lemma get_set_eq (k v : string) (e : Element) : get k (set k v e) = Some v.
Proof. destruct e. apply dict_get_set_eq. Qed.

Lemma get_set_ne (k k' v : string) (e : Element) :
  k <> k' -> get k' (set k v e) = get k' e.
Proof. destruct e. apply dict_get_set_ne. Qed.

Lemma tag_set (k v : string) (e : Element) : tag (set k v e) = tag e.
Proof. destruct e; reflexivity. Qed.

Lemma tag_set_text (s : string) (e : Element) : tag (set_text s e) = tag e.
Proof. destruct e; reflexivity. Qed.

Lemma tag_with_children (cs : list Element) (e : Element) :
  tag (with_children cs e) = tag e.
Proof. destruct e; reflexivity. Qed.

Lemma children_with_children (cs : list Element) (e : Element) :
  children (with_children cs e) = cs.
Proof. destruct e; reflexivity. Qed.

Lemma attrib_with_children (cs : list Element) (e : Element) :
  attrib (with_children cs e) = attrib e.
Proof. destruct e; reflexivity. Qed.

Lemma with_children_id (e : Element) : with_children (children e) e = e.
Proof. destruct e; reflexivity. Qed.

Lemma has_tag_true (t : string) (e : Element) : has_tag t e = true <-> tag e = t.
Proof. unfold has_tag. apply String.eqb_eq. Qed.

(** *** [first_some] and [update_first] *)

Section Lists.
Context {A : Type}.

Lemma first_some_cons {B : Type} (f : A -> option B) (x : A) (l : list A) :
first_some f (x :: l)
= match f x with Some r => Some r | None => first_some f l end.
Proof. reflexivity. Qed.

Lemma update_first_cons (f : A -> option A) (x : A) (l : list A) :
update_first f (x :: l)
= match f x with
  | Some x' => Some (x' :: l)
  | None => match update_first f l with
            | Some r => Some (x :: r)
            | None => None
            end
  end.
Proof. reflexivity. Qed.

Lemma first_some_app {B : Type} (f : A -> option B) (l1 l2 : list A) :
Forall (fun x => f x = None) l1 ->
first_some f (l1 ++ l2) = first_some f l2.
Proof.
induction 1 as [|x l Hx _ IH]; [reflexivity|].
rewrite <- app_comm_cons, first_some_cons, Hx. exact IH.
Qed.

Lemma first_some_none {B : Type} (f : A -> option B) (l : list A) :
first_some f l = None <-> Forall (fun x => f x = None) l.
Proof.
induction l as [|x l IH].
- split; [constructor | reflexivity].
- rewrite first_some_cons. destruct (f x) eqn:E.
  + split; [discriminate|]. intros H. inversion H; congruence.
  + rewrite IH. split; [constructor; assumption|].
    intros H. inversion H; assumption.
Qed.

(** A lookup that answers splits the list at the element that answered. *)
Lemma first_some_split {B : Type} (f : A -> option B) (l : list A) (r : B) :
first_some f l = Some r ->
exists l1 x l2, l = (l1 ++ x :: l2)%list
                /\ Forall (fun y => f y = None) l1 /\ f x = Some r.
Proof.
induction l as [|y l IH]; [discriminate|].
rewrite first_some_cons. destruct (f y) eqn:E.
- intros [= <-]. exists [], y, l. repeat split; [constructor | exact E].
- intros H. destruct (IH H) as (l1 & x & l2 & -> & Hn & Hx).
  exists (y :: l1), x, l2. repeat split; [constructor; assumption | exact Hx].
Qed.

Lemma update_first_app (f : A -> option A) (l1 l2 : list A) (x x' : A) :
Forall (fun y => f y = None) l1 -> f x = Some x' ->
update_first f (l1 ++ x :: l2) = Some (l1 ++ x' :: l2)%list.
Proof.
intros Hn Hx. induction Hn as [|y l Hy _ IH].
- simpl app. rewrite update_first_cons, Hx. reflexivity.
- rewrite <- !app_comm_cons, update_first_cons, Hy, IH. reflexivity.
Qed.

Lemma update_first_none (f : A -> option A) (l : list A) :
Forall (fun y => f y = None) l -> update_first f l = None.
Proof.
induction 1 as [|y l Hy _ IH]; [reflexivity|].
rewrite update_first_cons, Hy, IH. reflexivity.
Qed.

(** What an update does, element by element. *)
Lemma update_first_Forall2 (R : A -> A -> Prop) (f : A -> option A)
  (l l' : list A) :
(forall x, R x x) -> (forall x x', f x = Some x' -> R x x') ->
update_first f l = Some l' -> Forall2 R l l'.
Proof.
intros Hrefl Hf. revert l'.
induction l as [|x l IH]; intros l' H; [discriminate|].
rewrite update_first_cons in H.
destruct (f x) as [x'|] eqn:E.
- injection H as <-. constructor; [auto|].
  clear -Hrefl. induction l; constructor; auto.
- destruct (update_first f l) as [r|]; [|discriminate].
  injection H as <-. constructor; auto.
Qed.

End Lists.

(** *** The element a descendant lookup finds is the one the update rewrites *)

Section Descendants.
Variable t : string.
Variable g : Element -> Element.
Hypothesis g_tag : forall x, tag (g x) = tag x.

Lemma update_iter_none (e : Element) :
  iter_first t e = None -> update_iter t g e = None.
Proof.
  induction e as [t' a x cs tl IH] using Element_ind_children.
  cbn [iter_first update_iter].
  destruct (String.eqb t' t); [discriminate|].
  intros H. apply first_some_none in H.
  rewrite update_first_none; [reflexivity|].
  rewrite Forall_forall in IH, H |- *. intros c Hc. apply IH; auto.
Qed.

Lemma update_iter_some (e r : Element) :
  iter_first t e = Some r ->
  exists e', update_iter t g e = Some e'
             /\ iter_first t e' = Some (g r) /\ tag e' = tag e.
Proof.
  revert r. induction e as [t' a x cs tl IH] using Element_ind_children.
  intros r. cbn [iter_first update_iter].
  destruct (String.eqb t' t) eqn:Et.
  - intros [= <-]. eexists. split; [reflexivity|]. split; [|apply g_tag].
    specialize (g_tag (Elem t' a x cs tl)).
    destruct (g (Elem t' a x cs tl)) as [t2 a2 x2 cs2 tl2].
    simpl in g_tag. subst t2. cbn [iter_first]. rewrite Et. reflexivity.
  - intros H. apply first_some_split in H.
    destruct H as (l1 & c & l2 & -> & Hn & Hc).
    apply Forall_app in IH. destruct IH as [_ IH]. inversion IH as [|? ? IHc _]; subst.
    destruct (IHc r Hc) as (c' & Hu & Hf & Ht).
    rewrite (update_first_app _ l1 l2 c c'); [| |exact Hu].
    + eexists. split; [reflexivity|]. split; [|reflexivity].
      cbn [iter_first]. rewrite Et.
      rewrite first_some_app by exact Hn.
      rewrite first_some_cons, Hf. reflexivity.
    + rewrite Forall_forall in Hn |- *. intros y Hy.
      apply update_iter_none. auto.
Qed.

Lemma find_desc_update_desc (e r : Element) :
  find_desc t e = Some r -> find_desc t (update_desc t g e) = Some (g r).
Proof.
  unfold find_desc, update_desc. intros H.
  apply first_some_split in H. destruct H as (l1 & c & l2 & E & Hn & Hc).
  destruct (update_iter_some c r Hc) as (c' & Hu & Hf & _).
  rewrite E, (update_first_app _ l1 l2 c c'); [| |exact Hu].
  - rewrite children_with_children, first_some_app by exact Hn.
    rewrite first_some_cons, Hf. reflexivity.
  - rewrite Forall_forall in Hn |- *. intros y Hy.
    apply update_iter_none. auto.
Qed.

Lemma update_desc_none (e : Element) :
  find_desc t e = None -> update_desc t g e = e.
Proof.
  unfold find_desc, update_desc. intros H. apply first_some_none in H.
  rewrite update_first_none; [reflexivity|].
  rewrite Forall_forall in H |- *. intros y Hy. apply update_iter_none. auto.
Qed.

End Descendants.

(** *** Updates of attribute values and text keep what [erase] keeps *)

Section Erasure.
Variable keep : bool.

Lemma erase_tag (e : Element) : tag (erase keep e) = tag e.
Proof. destruct e; reflexivity. Qed.

Lemma erase_set (k v : string) (e : Element) :
  erase keep (set k v e) = erase keep e.
Proof. destruct e; reflexivity. Qed.

Lemma erase_with_children (cs cs' : list Element) (e : Element) :
  List.map (erase keep) cs' = List.map (erase keep) cs ->
  erase keep (with_children cs' e) = erase keep (with_children cs e).
Proof. destruct e; simpl; intros ->; reflexivity. Qed.

Lemma erase_update_first (f : Element -> option Element) (cs cs' : list Element) :
  Forall (fun c => forall c', f c = Some c' -> erase keep c' = erase keep c) cs ->
  update_first f cs = Some cs' ->
  List.map (erase keep) cs' = List.map (erase keep) cs.
Proof.
  intros Hf. revert cs'. induction Hf as [|c cs Hc _ IH]; intros cs' H.
  - discriminate.
  - rewrite update_first_cons in H. destruct (f c) as [c'|] eqn:E.
    + injection H as <-. simpl. rewrite (Hc c' eq_refl). reflexivity.
    + destruct (update_first f cs) as [r|]; [|discriminate].
      injection H as <-. simpl. rewrite (IH r eq_refl). reflexivity.
Qed.

Variable t : string.
Variable g : Element -> Element.
Hypothesis g_erase : forall x, erase keep (g x) = erase keep x.

Lemma erase_update_iter (e e' : Element) :
  update_iter t g e = Some e' -> erase keep e' = erase keep e.
Proof.
  revert e'. induction e as [t' a x cs tl IH] using Element_ind_children.
  intros e'. cbn [update_iter].
  destruct (String.eqb t' t).
  - intros [= <-]. apply g_erase.
  - destruct (update_first (update_iter t g) cs) as [cs'|] eqn:E; [|discriminate].
    intros [= <-]. simpl. f_equal.
    eapply erase_update_first; [|exact E]. exact IH.
Qed.

Lemma erase_update_desc (e : Element) :
  erase keep (update_desc t g e) = erase keep e.
Proof.
  unfold update_desc.
  destruct (update_first (update_iter t g) (children e)) as [cs'|] eqn:E;
    [|reflexivity].
  rewrite <- (with_children_id e) at 2. apply erase_with_children.
  eapply erase_update_first; [|exact E].
  rewrite Forall_forall. intros c _ c'. apply erase_update_iter.
Qed.

Lemma erase_update_child (e : Element) :
  erase keep (update_child t g e) = erase keep e.
Proof.
  unfold update_child.
  destruct (update_first _ (children e)) as [cs'|] eqn:E; [|reflexivity].
  rewrite <- (with_children_id e) at 2. apply erase_with_children.
  eapply erase_update_first; [|exact E].
  rewrite Forall_forall. intros c _ c'.
  destruct (has_tag t c); [|discriminate]. intros [= <-]. apply g_erase.
Qed.

End Erasure.

Lemma shape_set_text (s : string) (e : Element) : shape (set_text s e) = shape e.
Proof. destruct e; reflexivity. Qed.

Lemma shape_of_strip_attrs (e e' : Element) :
  strip_attrs e = strip_attrs e' -> shape e = shape e'.
Proof.
  revert e'. induction e as [t a x cs tl IH] using Element_ind_children.
  intros [t' a' x' cs' tl']. unfold strip_attrs, shape. simpl.
  intros [= -> _ Hcs _]. f_equal.
  revert cs' Hcs. induction IH as [|c cs Hc _ IHcs]; intros [|c' cs'] Hcs;
    try discriminate; [reflexivity|].
  simpl in Hcs |- *. injection Hcs as H1 H2.
  f_equal; [apply Hc; exact H1 | apply IHcs; exact H2].
Qed.

End TreeFacts.

(** ** The world only grows: facts *)

Section WorldFacts.

Lemma extends_refl (w : World) : extends w w.
Proof. intros f. reflexivity. Qed.

Lemma extends_trans (w1 w2 w3 : World) :
  extends w1 w2 -> extends w2 w3 -> extends w1 w3.
Proof. intros H1 H2 f. etransitivity; [apply H1 | apply H2]. Qed.

Lemma path_exists_extends (w w2 : World) (p : Path) :
  extends w w2 -> path_exists w p = true -> path_exists w2 p = true.
Proof.
  unfold path_exists. intros He H.
  destruct (is_dir_name (snd p)); [reflexivity|]. simpl in H |- *.
  apply bool_decide_eq_true in H. apply bool_decide_eq_true.
  destruct H as [n Hn]. exists n. eapply lookup_weaken; [exact Hn | apply He].
Qed.

Lemma path_missing_extends (w w2 : World) (p : Path) :
  extends w w2 -> path_exists w2 p = false -> path_exists w p = false.
Proof.
  intros He H. destruct (path_exists w p) eqn:E; [|reflexivity].
  rewrite (path_exists_extends _ _ _ He E) in H. discriminate.
Qed.

Lemma step_refl (w : World) : step w w.
Proof.
  split; [apply extends_refl | | reflexivity].
  exists []. split; [symmetry; apply app_nil_r | constructor].
Qed.

Lemma step_trans (w1 w2 w3 : World) : step w1 w2 -> step w2 w3 -> step w1 w3.
Proof.
  intros [E1 (n1 & R1 & F1) X1] [E2 (n2 & R2 & F2) X2].
  split; [eapply extends_trans; eauto | | congruence].
  exists (n1 ++ n2)%list. split.
  - rewrite R2, R1, app_assoc. reflexivity.
  - apply Forall_app. split; [exact F1|].
    eapply Forall_impl; [exact F2|]. intros u [f Hf]. exists f.
    eapply path_missing_extends; eauto.
Qed.

Lemma extends_write_file (w : World) (p : Path) (n : N) :
  path_exists w p = false -> extends w (write_file p n w).
Proof.
  unfold path_exists. intros H f.
  apply orb_false_elim in H. destruct H as [_ H].
  apply bool_decide_eq_false in H.
  assert (Hnone : files (fst p) w !! snd p = None).
  { destruct (files (fst p) w !! snd p) eqn:E; [|reflexivity].
    exfalso. apply H. eauto. }
  destruct p as [[] name]; destruct f; simpl in *;
    try reflexivity; apply insert_subseteq; exact Hnone.
Qed.

Lemma lookup_write_file (w : World) (p : Path) (n : N) :
  files (fst p) (write_file p n w) !! snd p = Some n.
Proof. destruct p as [[] name]; simpl; apply lookup_insert_eq. Qed.

(** *** The monad *)

Lemma grows_ret {A : Type} (a : A) : grows (ret a).
Proof. intros w r w' [= <- <-]. apply step_refl. Qed.

Lemma grows_raise {A : Type} (e : exn) : grows (@raise A e).
Proof. intros w r w' [= <- <-]. apply step_refl. Qed.

Lemma grows_bind {A B : Type} (m : Run A) (k : A -> Run B) :
  grows m -> (forall a, grows (k a)) -> grows (bind m k).
Proof.
  intros Hm Hk w r w'. unfold bind.
  destruct (m w) as [[a|e] w1] eqn:E.
  - intros H. eapply step_trans; [eapply Hm; eauto | eapply Hk; eauto].
  - intros [= <- <-]. eapply Hm; eauto.
Qed.

Lemma replays_ret {A : Type} (a : A) : replays (ret a) (ret a).
Proof. intros w r w' [= <- <-] w2 _. reflexivity. Qed.

Lemma replays_raise {A : Type} (e : exn) : replays (@raise A e) (raise e).
Proof. intros w r w' [= <- <-] w2 _. reflexivity. Qed.

Lemma replays_bind {A B : Type} (m1 m2 : Run A) (k1 k2 : A -> Run B) :
  replays m1 m2 -> (forall a, replays (k1 a) (k2 a)) ->
  (forall a, grows (k1 a)) -> replays (bind m1 k1) (bind m2 k2).
Proof.
  intros Hm Hk Hg w r w'. unfold bind.
  destruct (m1 w) as [[a|e] w1] eqn:E.
  - intros H w2 He.
    rewrite (Hm _ _ _ E w2).
    + eapply Hk; eauto.
    + eapply extends_trans; [|exact He]. eapply step_files, Hg; eauto.
  - intros [= <- <-] w2 He. rewrite (Hm _ _ _ E w2 He). reflexivity.
Qed.

End WorldFacts.

(** ** [download_file] *)

Section DownloadFacts.
Implicit Types (env : Env) (w : World) (f : Folder) (p : Path).

(** No exception leaves [download_file]. *)
Lemma download_file_total env (url : option string) f w :
  exists o w', download_file env url f w = (Ok o, w').
Proof.
  unfold download_file. destruct url as [[|c u]|]; eauto.
  destruct (urlparse_raises env _); eauto.
  destruct (path_exists w _); eauto.
  destruct (transfer env _ _); eauto.
Qed.

(** A file that is there is returned as it is. *)
Lemma download_file_cached env (url : string) f w :
  url <> "" -> urlparse_raises env url = false ->
  path_exists w (f, derive_filename url) = true ->
  download_file env (Some url) f w = (Ok (Some (f, derive_filename url)), w).
Proof.
  intros Hne Hp He. unfold download_file.
  destruct url as [|c u]; [contradiction|]. rewrite Hp, He. reflexivity.
Qed.

Lemma path_exists_written w p (n : N) : path_exists (write_file p n w) p = true.
Proof.
  unfold path_exists. apply orb_true_iff. right.
  apply bool_decide_eq_true. exists n. apply lookup_write_file.
Qed.

(** A returned destination exists. *)
Lemma download_file_some env (url : option string) f w w' p :
  download_file env url f w = (Ok (Some p), w') ->
  path_exists w' p = true
  /\ exists u, url = Some u /\ u <> "" /\ urlparse_raises env u = false
               /\ p = (f, derive_filename u).
Proof.
  unfold download_file. destruct url as [[|c u]|]; try discriminate.
  destruct (urlparse_raises env _) eqn:Hp; [discriminate|].
  assert (Hu : exists u0, Some (String c u) = Some u0 /\ u0 <> ""
               /\ urlparse_raises env u0 = false
               /\ (f, derive_filename (String c u)) = (f, derive_filename u0)).
  { exists (String c u). split; [reflexivity|]. split; [discriminate|]. auto. }
  destruct (path_exists w _) eqn:He.
  - intros [= <- <-]. auto.
  - destruct (transfer env _ _); try discriminate.
    intros [= <- <-]. split; [apply path_exists_written | exact Hu].
Qed.

Lemma extends_log_request (u : string) w : extends w (log_request u w).
Proof. intros []; reflexivity. Qed.

Lemma download_file_grows env (url : option string) f :
  grows (download_file env url f).
Proof.
  intros w r w'. unfold download_file.
  destruct url as [[|c u]|]; try (intros [= <- <-]; apply step_refl).
  destruct (urlparse_raises env _); [intros [= <- <-]; apply step_refl|].
  destruct (path_exists w _) eqn:He; [intros [= <- <-]; apply step_refl|].
  assert (Hreq : forall w1, requests w1 = (requests w ++ [String c u])%list ->
                 fresh_requests w w1).
  { intros w1 H1. exists [String c u]. split; [exact H1|].
    constructor; [|constructor]. exists f. exact He. }
  assert (Hw : forall n,
             step w (write_file (f, derive_filename (String c u)) n
                       (log_request (String c u) w))).
  { intros n. split.
    - eapply extends_trans; [apply extends_log_request|].
      apply extends_write_file.
      eapply path_missing_extends; [|exact He].
      intros g; reflexivity.
    - apply Hreq. destruct f; reflexivity.
    - destruct f; reflexivity. }
  destruct (transfer env _ _); intros [= <- <-]; [|apply Hw..].
  split; [apply extends_log_request | apply Hreq; reflexivity | reflexivity].
Qed.

Lemma getsize_grows env p : grows (getsize env p).
Proof.
  intros w r w'. unfold getsize.
  destruct (is_dir_name _); [intros [= <- <-]; apply step_refl|].
  destruct (_ !! _); intros [= <- <-]; apply step_refl.
Qed.

(** A destination that exists and is not a directory is a file. *)
Lemma path_exists_file w p :
  path_exists w p = true -> is_dir_name (snd p) = false ->
  exists n, files (fst p) w !! snd p = Some n.
Proof.
  unfold path_exists. intros H Hd. rewrite Hd in H. simpl in H.
  apply bool_decide_eq_true in H. exact H.
Qed.

(** The size of a file, now and later, whatever the oracles. *)
Lemma getsize_file env p w (n : N) :
  is_dir_name (snd p) = false -> files (fst p) w !! snd p = Some n ->
  forall w2, extends w w2 -> getsize env p w2 = (Ok n, w2).
Proof.
  intros Hd Hn w2 He. unfold getsize. rewrite Hd.
  rewrite (lookup_weaken _ _ _ _ Hn (He (fst p))). reflexivity.
Qed.

(** [os.path.getsize] answers on a destination that exists. *)
Lemma getsize_succeeds env p w :
  path_exists w p = true -> exists n, getsize env p w = (Ok n, w).
Proof.
  unfold path_exists, getsize. destruct (is_dir_name (snd p)); [eauto|].
  simpl. intros H. apply bool_decide_eq_true in H. destruct H as [n Hn].
  rewrite Hn. eauto.
Qed.

(** Once every transfer completes, a later call finds what an earlier
    call left. *)
Lemma download_file_replays env (t2 : nat -> string -> Transfer)
    (now2 : DateTime.datetime) (url : option string) f :
  always_completes env ->
  replays (download_file env url f) (download_file (second_run t2 now2 env) url f).
Proof.
  intros Hall w r w' H w2 He.
  destruct url as [[|c u]|]; try (injection H as <- <-; reflexivity).
  destruct (urlparse_raises env (String c u)) eqn:Hp.
  { unfold download_file in H |- *. simpl. rewrite Hp in H |- *.
    injection H as <- <-. reflexivity. }
  assert (Hex : path_exists w' (f, derive_filename (String c u)) = true
                /\ r = Ok (Some (f, derive_filename (String c u)))).
  { unfold download_file in H. rewrite Hp in H.
    destruct (path_exists w _) eqn:Hx.
    - injection H as <- <-. auto.
    - destruct (Hall (length (requests w)) (String c u)) as [n Hn].
      rewrite Hn in H. injection H as <- <-. split; [|reflexivity].
      apply path_exists_written. }
  destruct Hex as [Hex ->].
  apply download_file_cached; [discriminate | exact Hp |].
  eapply path_exists_extends; eauto.
Qed.

End DownloadFacts.

(** ** The pipeline only adds files, and a second pass repeats the first *)

Section PipelineFacts.
Implicit Types (env : Env) (w : World) (item channel root : Element).

Local Ltac grows_step :=
  first [ apply grows_ret | apply grows_raise
        | apply download_file_grows | apply getsize_grows
        | apply grows_bind; [|intro] ].

Lemma download_cover_grows env channel : grows (download_cover env channel).
Proof.
  unfold download_cover. destruct (find_desc _ _); repeat grows_step.
  destruct a; grows_step.
Qed.

Lemma download_enclosure_grows env item : grows (download_enclosure env item).
Proof.
  unfold download_enclosure.
  destruct (find _ _); [|grows_step].
  destruct (get _ _); repeat grows_step.
  destruct a; repeat grows_step.
Qed.

Lemma download_episode_image_grows env item :
  grows (download_episode_image env item).
Proof.
  unfold download_episode_image. destruct (find_desc _ _); repeat grows_step.
  destruct a; grows_step.
Qed.

Lemma process_item_grows env item : grows (process_item env item).
Proof.
  unfold process_item. apply grows_bind;
    [apply download_enclosure_grows | intro; apply download_episode_image_grows].
Qed.

Lemma process_items_grows env (cs : list Element) : grows (process_items env cs).
Proof.
  induction cs as [|c cs IH]; cbn [process_items]; [apply grows_ret|].
  destruct (has_tag "item" c).
  - apply grows_bind; [apply process_item_grows | intro].
    apply grows_bind; [exact IH | intro; apply grows_ret].
  - apply grows_bind; [exact IH | intro; apply grows_ret].
Qed.

Lemma rewrite_feed_grows env root : grows (rewrite_feed env root).
Proof.
  unfold rewrite_feed. destruct (find _ _); [|apply grows_raise].
  apply grows_bind; [apply download_cover_grows | intro].
  apply grows_bind; [apply process_items_grows | intro; apply grows_ret].
Qed.

Variable env : Env.
Variable t2 : nat -> string -> Transfer.
Variable now2 : DateTime.datetime.
Hypothesis completes : always_completes env.

Lemma download_cover_replays channel :
  replays (download_cover env channel)
          (download_cover (second_run t2 now2 env) channel).
Proof.
  unfold download_cover. destruct (find_desc _ _); [|apply replays_ret].
  apply replays_bind; [apply download_file_replays; exact completes | |].
  - intros [p|]; apply replays_ret.
  - intros [p|]; apply grows_ret.
Qed.

Lemma download_episode_image_replays item :
  replays (download_episode_image env item)
          (download_episode_image (second_run t2 now2 env) item).
Proof.
  unfold download_episode_image. destruct (find_desc _ _); [|apply replays_ret].
  apply replays_bind; [apply download_file_replays; exact completes | |].
  - intros [p|]; apply replays_ret.
  - intros [p|]; apply grows_ret.
Qed.

(** The size of a directory may differ in the later world, so the
    enclosure has to name a file. *)
Lemma download_enclosure_replays item :
  enclosure_names_file item = true ->
  replays (download_enclosure env item)
          (download_enclosure (second_run t2 now2 env) item).
Proof.
  unfold enclosure_names_file, download_enclosure.
  destruct (find _ _) as [enc|]; [|intros _; apply replays_ret].
  destruct (get _ _) as [u|]; [|intros _; apply replays_raise].
  intros Hfile w r w' H w2 He. unfold bind in H |- *.
  apply negb_true_iff in Hfile.
  destruct (download_file env (Some u) MediaFolder w) as [[[p|]|ex] wa] eqn:Ed.
  - destruct (download_file_some _ _ _ _ _ _ Ed) as [Hex (u0 & [= <-] & _ & _ & ->)].
    destruct (path_exists_file wa (MediaFolder, derive_filename u) Hex Hfile)
      as [n Hn].
    rewrite (getsize_file env (MediaFolder, derive_filename u) wa n Hfile Hn wa
               (extends_refl wa)) in H.
    injection H as <- <-.
    rewrite (download_file_replays env t2 now2 _ _ completes _ _ _ Ed w2 He).
    rewrite (getsize_file (second_run t2 now2 env) (MediaFolder, derive_filename u)
               wa n Hfile Hn w2 He).
    reflexivity.
  - injection H as <- <-.
    rewrite (download_file_replays env t2 now2 _ _ completes _ _ _ Ed w2 He).
    reflexivity.
  - injection H as <- <-.
    rewrite (download_file_replays env t2 now2 _ _ completes _ _ _ Ed w2 He).
    reflexivity.
Qed.

Lemma process_item_replays item :
  enclosure_names_file item = true ->
  replays (process_item env item) (process_item (second_run t2 now2 env) item).
Proof.
  intros Hfile. unfold process_item. apply replays_bind.
  - apply download_enclosure_replays. exact Hfile.
  - intro. apply download_episode_image_replays.
  - intro. apply download_episode_image_grows.
Qed.

Lemma process_items_replays (cs : list Element) :
  enclosures_name_files cs = true ->
  replays (process_items env cs) (process_items (second_run t2 now2 env) cs).
Proof.
  induction cs as [|c cs IH]; cbn [process_items]; [intros _; apply replays_ret|].
  cbn [enclosures_name_files forallb]. fold (enclosures_name_files cs).
  intros H. apply andb_true_iff in H. destruct H as [Hc Hcs].
  destruct (has_tag "item" c).
  - apply replays_bind; [apply process_item_replays; exact Hc | |].
    + intro. apply replays_bind; [exact (IH Hcs) | intro; apply replays_ret
                                  | intro; apply grows_ret].
    + intro. apply grows_bind; [apply process_items_grows | intro; apply grows_ret].
  - apply replays_bind; [exact (IH Hcs) | intro; apply replays_ret
                         | intro; apply grows_ret].
Qed.

End PipelineFacts.

(** ** Direct children: lookups against updates *)

Section ChildFacts.
Implicit Types (e c : Element) (t : string).

Lemma find_split t e c :
  find t e = Some c ->
  exists l1 l2, children e = (l1 ++ c :: l2)%list
                /\ Forall (fun y => has_tag t y = false) l1
                /\ has_tag t c = true.
Proof.
  unfold find. intros H. apply first_some_split in H.
  destruct H as (l1 & x & l2 & E & Hn & Hx). cbv beta in Hx.
  destruct (has_tag t x) eqn:Ex; [|discriminate]. injection Hx as ->.
  exists l1, l2. repeat split; [exact E | | exact Ex].
  eapply Forall_impl; [exact Hn|]. intros y Hy. cbv beta in Hy.
  destruct (has_tag t y); [discriminate | reflexivity].
Qed.

Lemma find_of_split t e c (l1 l2 : list Element) :
  children e = (l1 ++ c :: l2)%list ->
  Forall (fun y => has_tag t y = false) l1 -> has_tag t c = true ->
  find t e = Some c.
Proof.
  intros E Hn Hc. unfold find. rewrite E, first_some_app.
  - rewrite first_some_cons, Hc. reflexivity.
  - eapply Forall_impl; [exact Hn|]. intros y Hy. simpl. rewrite Hy. reflexivity.
Qed.

Lemma update_child_split t (g : Element -> Element) e c (l1 l2 : list Element) :
  children e = (l1 ++ c :: l2)%list ->
  Forall (fun y => has_tag t y = false) l1 -> has_tag t c = true ->
  update_child t g e = with_children (l1 ++ g c :: l2) e.
Proof.
  intros E Hn Hc. unfold update_child.
  rewrite E, (update_first_app _ l1 l2 c (g c)); [reflexivity | |].
  - eapply Forall_impl; [exact Hn|]. intros y Hy. simpl. rewrite Hy. reflexivity.
  - rewrite Hc. reflexivity.
Qed.

Lemma find_update_child t (g : Element -> Element) e c :
  find t e = Some c -> tag (g c) = tag c ->
  find t (update_child t g e) = Some (g c).
Proof.
  intros H Hg. destruct (find_split _ _ _ H) as (l1 & l2 & E & Hn & Hc).
  rewrite (update_child_split t g e c l1 l2 E Hn Hc).
  apply (find_of_split t _ (g c) l1 l2);
    [apply children_with_children | exact Hn |].
  unfold has_tag in *. rewrite Hg. exact Hc.
Qed.

Lemma update_child_none t (g : Element -> Element) e :
  find t e = None -> update_child t g e = e.
Proof.
  unfold find, update_child. intros H. apply first_some_none in H.
  rewrite update_first_none; [reflexivity|].
  eapply Forall_impl; [exact H|]. intros y Hy. cbv beta in Hy |- *.
  destruct (has_tag t y); [discriminate | reflexivity].
Qed.

(** Lookups by tag see the same thing in lists that agree on tags. *)
Lemma first_pick_Forall2 (R : Element -> Element -> Prop) t
    (cs cs' : list Element) :
  (forall a b, R a b -> tag b = tag a) ->
  Forall2 R cs cs' ->
  match first_some (pick t) cs with
  | Some c => exists c', first_some (pick t) cs' = Some c' /\ R c c'
  | None => first_some (pick t) cs' = None
  end.
Proof.
  intros HR H. induction H as [|a b cs cs' Hab _ IH]; [reflexivity|].
  rewrite !first_some_cons.
  assert (Ht : has_tag t b = has_tag t a)
    by (unfold has_tag; rewrite (HR _ _ Hab); reflexivity).
  unfold pick in *. rewrite Ht. destruct (has_tag t a); [eauto | exact IH].
Qed.

Lemma filter_tag_Forall2 (R : Element -> Element -> Prop) t
    (cs cs' : list Element) :
  (forall a b, R a b -> tag b = tag a) ->
  Forall2 R cs cs' ->
  Forall2 R (List.filter (has_tag t) cs) (List.filter (has_tag t) cs').
Proof.
  intros HR H. induction H as [|a b cs cs' Hab _ IH]; [constructor|].
  assert (Ht : has_tag t b = has_tag t a)
    by (unfold has_tag; rewrite (HR _ _ Hab); reflexivity).
  simpl. rewrite Ht.
  destruct (has_tag t a); [constructor; assumption | exact IH].
Qed.

Lemma update_iter_same_unless t (g : Element -> Element) (a b : Element) :
  (forall x, tag (g x) = tag x) ->
  update_iter t g a = Some b -> same_unless t a b.
Proof.
  intros Hg. destruct a as [t' at' x cs tl]. cbn [update_iter].
  destruct (String.eqb t' t) eqn:E.
  - intros [= <-]. split; [apply Hg|]. apply String.eqb_eq in E. simpl. congruence.
  - destruct (update_first _ cs); [|discriminate]. intros [= <-]. split; reflexivity.
Qed.

Lemma find_update_desc_other t t' (g : Element -> Element) e c :
  (forall x, tag (g x) = tag x) -> t' <> t ->
  find t' e = Some c ->
  exists c', find t' (update_desc t g e) = Some c' /\ attrib c' = attrib c.
Proof.
  intros Hg Hne H. unfold update_desc.
  destruct (update_first (update_iter t g) (children e)) as [cs'|] eqn:E; [|eauto].
  assert (HF : Forall2 (same_unless t) (children e) cs').
  { eapply update_first_Forall2; [| |exact E].
    - intros x. split; reflexivity.
    - intros x x'. apply update_iter_same_unless. exact Hg. }
  pose proof (first_pick_Forall2 (same_unless t) t' _ _
                (fun a b (Hab : same_unless t a b) => proj1 Hab) HF) as HP.
  unfold find in H |- *. fold (pick t') in H |- *. rewrite H in HP.
  destruct HP as (c' & Hc' & Htag & Hattr).
  exists c'. rewrite children_with_children. split; [exact Hc'|].
  apply Hattr.
  apply first_some_split in H. destruct H as (? & y & ? & _ & _ & Hy).
  unfold pick in Hy. destruct (has_tag t' y) eqn:Ey; [|discriminate].
  injection Hy as ->. apply has_tag_true in Ey. congruence.
Qed.

End ChildFacts.

(** ** What the pipeline changes in the tree *)

Section ShapeFacts.
Implicit Types (env : Env) (w : World) (c e item channel root : Element).

Lemma children_erase (keep : bool) e :
  children (erase keep e) = List.map (erase keep) (children e).
Proof. destruct e; reflexivity. Qed.

Lemma map_eq_Forall2 {A B : Type} (f : A -> B) (l l' : list A) :
  List.map f l' = List.map f l -> Forall2 (fun a b => f b = f a) l l'.
Proof.
  revert l'. induction l as [|a l IH]; intros [|b l'] H; try discriminate;
    [constructor|].
  simpl in H. injection H as H1 H2. constructor; auto.
Qed.

Lemma Forall2_map_eq {A B : Type} (f : A -> B) (l l' : list A) :
  Forall2 (fun a b => f b = f a) l l' -> List.map f l' = List.map f l.
Proof. induction 1; simpl; congruence. Qed.

Lemma item_equiv_refl c : item_equiv c c.
Proof. repeat split. Qed.

Lemma item_equiv_trans c1 c2 c3 :
  item_equiv c1 c2 -> item_equiv c2 c3 -> item_equiv c1 c3.
Proof.
  intros (T1 & S1 & I1) (T2 & S2 & I2). repeat split; try congruence.
  intros H. rewrite I2, I1; auto. unfold has_tag in *. congruence.
Qed.

Lemma strip_item_equiv c c' : strip_attrs c' = strip_attrs c -> item_equiv c c'.
Proof.
  intros H. repeat split; auto.
  - rewrite <- (erase_tag true c'), <- (erase_tag true c).
    unfold strip_attrs in H. rewrite H. reflexivity.
  - apply shape_of_strip_attrs. exact H.
Qed.

Lemma Forall2_item_equiv_refl (cs : list Element) : Forall2 item_equiv cs cs.
Proof. induction cs; constructor; auto using item_equiv_refl. Qed.

Lemma Forall2_item_equiv_trans (l1 l2 l3 : list Element) :
  Forall2 item_equiv l1 l2 -> Forall2 item_equiv l2 l3 -> Forall2 item_equiv l1 l3.
Proof.
  intros H. revert l3. induction H as [|a b l1 l2 Hab _ IH]; intros l3 H3.
  - inversion H3. constructor.
  - inversion H3; subst. constructor; eauto using item_equiv_trans.
Qed.

Lemma strip_children_equiv e e' :
  strip_attrs e' = strip_attrs e -> Forall2 item_equiv (children e) (children e').
Proof.
  intros H. apply (f_equal children) in H. unfold strip_attrs in H.
  rewrite !children_erase in H. apply map_eq_Forall2 in H.
  eapply Forall2_impl; [exact H|]. intros a b Hab. apply strip_item_equiv. exact Hab.
Qed.

(** The rewrite of the plain image touches a child with tag [image]. *)
Lemma update_path_image_equiv (s : string) e :
  Forall2 item_equiv (children e)
          (children (update_path "image" "url" (set_text s) e)).
Proof.
  unfold update_path.
  destruct (update_first _ (children e)) as [cs'|] eqn:E;
    [|apply Forall2_item_equiv_refl].
  rewrite children_with_children.
  eapply update_first_Forall2; [apply item_equiv_refl | | exact E].
  intros x x'. cbv beta. destruct (has_tag "image" x) eqn:Hx; [|discriminate].
  destruct (find "url" x); [|discriminate]. intros [= <-].
  assert (Hs : shape (update_child "url" (set_text s) x) = shape x)
    by (apply erase_update_child; intros y; apply shape_set_text).
  repeat split.
  - rewrite <- (erase_tag false), <- (erase_tag false x).
    unfold shape in Hs. rewrite Hs. reflexivity.
  - exact Hs.
  - intros Hi. apply has_tag_true in Hx, Hi. congruence.
Qed.

Lemma download_cover_equiv env channel w channel' w' :
  download_cover env channel w = (Ok channel', w') ->
  tag channel' = tag channel
  /\ Forall2 item_equiv (children channel) (children channel').
Proof.
  unfold download_cover, bind.
  destruct (find_desc ITUNES_IMAGE channel) as [image|].
  2:{ intros [= <- <-]. split; [reflexivity | apply Forall2_item_equiv_refl]. }
  destruct (download_file env _ _ w) as [[[p|]|ex] w1]; try discriminate.
  2:{ intros [= <- <-]. split; [reflexivity | apply Forall2_item_equiv_refl]. }
  intros [= <- <-].
  set (ch1 := update_desc ITUNES_IMAGE (set "href" (relpath p)) channel).
  assert (H1 : strip_attrs ch1 = strip_attrs channel)
    by (apply erase_update_desc; intros x; apply erase_set).
  split.
  - unfold update_path. destruct (update_first _ _);
      rewrite ?tag_with_children;
      rewrite <- (erase_tag true ch1), <- (erase_tag true channel);
      unfold strip_attrs in H1; rewrite H1; reflexivity.
  - eapply Forall2_item_equiv_trans;
      [apply strip_children_equiv; exact H1 | apply update_path_image_equiv].
Qed.

Lemma download_enclosure_strip env item w item' w' :
  download_enclosure env item w = (Ok item', w') ->
  strip_attrs item' = strip_attrs item.
Proof.
  unfold download_enclosure, bind.
  destruct (find "enclosure" item); [|intros [= <- <-]; reflexivity].
  destruct (get "url" _); [|discriminate].
  destruct (download_file env _ _ w) as [[[p|]|ex] w1]; try discriminate;
    [|intros [= <- <-]; reflexivity].
  destruct (getsize env p w1) as [[n|ex] w2]; [|discriminate].
  intros [= <- <-]. apply erase_update_child.
  intros x. rewrite !erase_set. reflexivity.
Qed.

Lemma download_episode_image_strip env item w item' w' :
  download_episode_image env item w = (Ok item', w') ->
  strip_attrs item' = strip_attrs item.
Proof.
  unfold download_episode_image, bind.
  destruct (find_desc ITUNES_IMAGE item); [|intros [= <- <-]; reflexivity].
  destruct (download_file env _ _ w) as [[[p|]|ex] w1]; try discriminate;
    [|intros [= <- <-]; reflexivity].
  intros [= <- <-]. apply erase_update_desc. intros x. apply erase_set.
Qed.

Lemma process_item_strip env item w item' w' :
  process_item env item w = (Ok item', w') ->
  strip_attrs item' = strip_attrs item.
Proof.
  unfold process_item, bind.
  destruct (download_enclosure env item w) as [[i1|ex] w1] eqn:E1; [|discriminate].
  intros E2. rewrite (download_episode_image_strip _ _ _ _ _ E2).
  eapply download_enclosure_strip; eauto.
Qed.

Lemma process_items_equiv env (cs cs' : list Element) w w' :
  process_items env cs w = (Ok cs', w') -> Forall2 item_equiv cs cs'.
Proof.
  revert cs' w. induction cs as [|c cs IH]; intros cs' w; cbn [process_items].
  - intros [= <- <-]. constructor.
  - unfold bind. destruct (has_tag "item" c).
    + destruct (process_item env c w) as [[c1|ex] w1] eqn:E1; [|discriminate].
      destruct (process_items env cs w1) as [[cs1|ex] w2] eqn:E2; [|discriminate].
      intros [= <- <-]. constructor; [|eauto].
      apply strip_item_equiv. eapply process_item_strip; eauto.
    + destruct (process_items env cs w) as [[cs1|ex] w2] eqn:E2; [|discriminate].
      intros [= <- <-]. constructor; [apply item_equiv_refl | eauto].
Qed.

Lemma update_self_link_strip c : strip_attrs (update_self_link c) = strip_attrs c.
Proof.
  unfold update_self_link. destruct (has_tag ATOM_LINK c); [|reflexivity].
  destruct (get "rel" c) as [r|]; [|reflexivity].
  destruct (String.eqb r "self"); [apply erase_set | reflexivity].
Qed.

Lemma update_feed_metadata_equiv env channel :
  tag (update_feed_metadata env channel) = tag channel
  /\ Forall2 item_equiv (children channel)
              (children (update_feed_metadata env channel)).
Proof.
  unfold update_feed_metadata. set (ts := DateTime.strftime_rfc _).
  rewrite tag_with_children, children_with_children.
  assert (Hs : shape (update_child "lastBuildDate" (set_text ts) channel)
               = shape channel)
    by (apply erase_update_child; intros y; apply shape_set_text).
  split.
  { rewrite <- (erase_tag false), <- (erase_tag false channel).
    unfold shape in Hs. rewrite Hs. reflexivity. }
  eapply Forall2_item_equiv_trans with
    (l2 := children (update_child "lastBuildDate" (set_text ts) channel)).
  - unfold update_child.
    destruct (update_first _ (children channel)) as [cs'|] eqn:E;
      [|apply Forall2_item_equiv_refl].
    rewrite children_with_children.
    eapply update_first_Forall2; [apply item_equiv_refl | | exact E].
    intros x x'. cbv beta. destruct (has_tag "lastBuildDate" x) eqn:Hx;
      [|discriminate].
    intros [= <-]. repeat split.
    + apply tag_set_text.
    + apply shape_set_text.
    + intros Hi. apply has_tag_true in Hx, Hi. congruence.
  - induction (children (update_child _ _ channel)) as [|c cs IH];
      constructor; [|exact IH].
    apply strip_item_equiv, update_self_link_strip.
Qed.

(** What a completed pass was made of. *)
Lemma rewrite_feed_inv env root w tree w' :
  rewrite_feed env root w = (Ok tree, w') ->
  exists channel ch1 w1 items,
    find "channel" root = Some channel
    /\ download_cover env channel w = (Ok ch1, w1)
    /\ process_items env (children ch1) w1 = (Ok items, w')
    /\ tree = update_child "channel"
                (fun _ => update_feed_metadata env (with_children items ch1)) root.
Proof.
  unfold rewrite_feed, bind.
  destruct (find "channel" root) as [channel|]; [|discriminate].
  destruct (download_cover env channel w) as [[ch1|ex] w1] eqn:E1; [|discriminate].
  destruct (process_items env (children ch1) w1) as [[items|ex] w2] eqn:E2;
    [|discriminate].
  intros [= <- <-]. exists channel, ch1, w1, items. auto.
Qed.

(** The channel of the rewritten document. *)
Lemma rewrite_feed_channel env root w tree w' :
  rewrite_feed env root w = (Ok tree, w') ->
  exists channel ch2,
    find "channel" root = Some channel
    /\ find "channel" tree = Some (update_feed_metadata env ch2)
    /\ tag ch2 = tag channel
    /\ Forall2 item_equiv (children channel) (children ch2)
    /\ shape tree = shape root.
Proof.
  intros H. destruct (rewrite_feed_inv _ _ _ _ _ H)
    as (channel & ch1 & w1 & items & Hc & Hcov & Hit & ->).
  destruct (download_cover_equiv _ _ _ _ _ Hcov) as [T1 F1].
  pose proof (process_items_equiv _ _ _ _ _ Hit) as F2.
  set (ch2 := with_children items ch1).
  destruct (update_feed_metadata_equiv env ch2) as [T3 F3].
  assert (T2 : tag ch2 = tag channel)
    by (unfold ch2; rewrite tag_with_children; exact T1).
  assert (F12 : Forall2 item_equiv (children channel) (children ch2)).
  { unfold ch2. rewrite children_with_children.
    eapply Forall2_item_equiv_trans; eauto. }
  exists channel, ch2. split; [exact Hc|].
  destruct (find_split _ _ _ Hc) as (l1 & l2 & E & Hn & Ht).
  rewrite (update_child_split "channel" _ root channel l1 l2 E Hn Ht).
  split; [|split; [exact T2 | split; [exact F12|]]].
  - apply (find_of_split "channel" _ _ l1 l2);
      [apply children_with_children | exact Hn |].
    unfold has_tag in *. rewrite T3, T2. exact Ht.
  - rewrite <- (with_children_id root) at 2. unfold shape.
    apply erase_with_children. rewrite E, !map_app. f_equal. simpl. f_equal.
    destruct channel as [tc ac xc csc tlc].
    destruct (update_feed_metadata env ch2) as [t3 a3 x3 cs3 tl3] eqn:E3.
    simpl in T3, F3, T2, F12 |- *. f_equal; [congruence|].
    apply Forall2_map_eq.
    eapply Forall2_impl;
      [eapply Forall2_item_equiv_trans; [exact F12 | exact F3]|].
    intros a b (_ & Hs & _). exact Hs.
Qed.

End ShapeFacts.

(** ** The metadata update *)

Section MetadataFacts.
Implicit Types (env : Env) (w : World) (c channel : Element).

Lemma process_feed_inv env (rss_url : string) w tree w' :
  process_feed env rss_url w = (Ok tree, w') ->
  exists status content root w1,
    fetch env rss_url = Response status content
    /\ fromstring env content = Some root
    /\ rewrite_feed env root w = (Ok tree, w1)
    /\ w' = write_feed tree w1.
Proof.
  unfold process_feed, requests_get, parse_feed, bind.
  destruct (fetch env rss_url) as [|status content]; [discriminate|].
  cbn [ret]. destruct (fromstring env content) as [root|] eqn:Ef; [|discriminate].
  cbn [ret]. destruct (rewrite_feed env root w) as [[t1|ex] w1] eqn:E; [|discriminate].
  unfold tree_write. destruct (feed_write env); try discriminate.
  intros [= <- <-]. exists status, content, root, w1. auto.
Qed.

(** A run that returns has written the document. *)
Lemma process_feed_written env (rss_url : string) w tree w' :
  process_feed env rss_url w = (Ok tree, w') -> feed_write env = WriteCompletes.
Proof.
  unfold process_feed, requests_get, parse_feed, bind.
  destruct (fetch env rss_url) as [|status content]; [discriminate|].
  cbn [ret]. destruct (fromstring env content) as [root|]; [|discriminate].
  cbn [ret]. destruct (rewrite_feed env root w) as [[t1|ex] w1]; [|discriminate].
  unfold tree_write. destruct (feed_write env); [reflexivity | discriminate..].
Qed.

Lemma items_of_equiv (cs cs' : list Element) :
  Forall2 item_equiv cs cs' ->
  List.map strip_attrs (List.filter (has_tag "item") cs')
  = List.map strip_attrs (List.filter (has_tag "item") cs).
Proof.
  induction 1 as [|a b cs cs' (Ht & _ & Hi) _ IH]; [reflexivity|].
  simpl. assert (Hb : has_tag "item" b = has_tag "item" a)
    by (unfold has_tag; rewrite Ht; reflexivity).
  rewrite Hb. destruct (has_tag "item" a); [|exact IH].
  simpl. rewrite IH, Hi; reflexivity.
Qed.

Lemma update_self_link_tag c : tag (update_self_link c) = tag c.
Proof.
  unfold update_self_link. destruct (has_tag ATOM_LINK c); [|reflexivity].
  destruct (get "rel" c) as [r|]; [|reflexivity].
  destruct (String.eqb r "self"); [apply tag_set | reflexivity].
Qed.

Lemma update_self_link_other c :
  has_tag ATOM_LINK c = false -> update_self_link c = c.
Proof. unfold update_self_link. intros ->. reflexivity. Qed.

Lemma update_self_link_href c :
  has_tag ATOM_LINK (update_self_link c) = true ->
  get "rel" (update_self_link c) = Some "self" ->
  get "href" (update_self_link c) = Some "feed.xml".
Proof.
  unfold has_tag at 1. rewrite update_self_link_tag. fold (has_tag ATOM_LINK c).
  unfold update_self_link. intros Ht. rewrite Ht.
  destruct (get "rel" c) as [r|] eqn:Er.
  - destruct (String.eqb r "self") eqn:E.
    + intros _. apply get_set_eq.
    + rewrite Er. intros [= ->]. discriminate.
  - rewrite Er. discriminate.
Qed.

Lemma find_map_self_link (t : string) (cs : list Element) :
  String.eqb t ATOM_LINK = false ->
  first_some (pick t) (List.map update_self_link cs) = first_some (pick t) cs.
Proof.
  intros Hne. induction cs as [|c cs IH]; [reflexivity|].
  simpl List.map. rewrite !first_some_cons, IH. unfold pick.
  assert (Hb : has_tag t (update_self_link c) = has_tag t c)
    by (unfold has_tag; rewrite update_self_link_tag; reflexivity).
  rewrite Hb. destruct (has_tag t c) eqn:Hc; [|reflexivity].
  rewrite update_self_link_other; [reflexivity|].
  apply has_tag_true in Hc. unfold has_tag. rewrite Hc. exact Hne.
Qed.

(** What [update_feed_metadata] leaves behind. *)
Lemma update_feed_metadata_spec env channel :
  let ts := DateTime.strftime_rfc (utcnow env) in
  let channel' := update_feed_metadata env channel in
  (forall lb, find "lastBuildDate" channel = Some lb ->
              find "lastBuildDate" channel' = Some (set_text ts lb))
  /\ (find "lastBuildDate" channel = None -> find "lastBuildDate" channel' = None)
  /\ (forall l, In l (findall ATOM_LINK channel') ->
                get "rel" l = Some "self" -> get "href" l = Some "feed.xml").
Proof.
  intros ts channel'. unfold channel', update_feed_metadata. fold ts.
  assert (Hfind : forall ch1,
             find "lastBuildDate"
               (with_children (List.map update_self_link (children ch1)) ch1)
             = find "lastBuildDate" ch1).
  { intros ch1. unfold find. rewrite children_with_children.
    apply (find_map_self_link "lastBuildDate"). reflexivity. }
  split; [|split].
  - intros lb H. rewrite Hfind. apply find_update_child; [exact H|].
    apply tag_set_text.
  - intros H. rewrite Hfind, update_child_none by exact H. exact H.
  - intros l. unfold findall. rewrite children_with_children.
    rewrite filter_In, in_map_iff. intros [(c & <- & _) Ht].
    apply update_self_link_href. exact Ht.
Qed.

(** *** The timestamp has the announced pattern *)

Lemma matches_app (p1 p2 : list (ascii -> bool)) (s1 s2 : string) :
  matches p1 s1 = true -> matches p2 s2 = true ->
  matches (p1 ++ p2) (s1 ++ s2) = true.
Proof.
  revert s1. induction p1 as [|c p1 IH]; intros [|a s1]; simpl; try discriminate.
  - auto.
  - intros H H2. apply andb_true_iff in H. destruct H as [Ha H1].
    rewrite Ha. simpl. fold (String.append s1 s2). apply IH; assumption.
Qed.

Lemma digit_isdigit (n : N) : PyStr.isdigit (DateTime.digit n) = true.
Proof.
  unfold DateTime.digit.
  assert (H : (n mod 10 < 10)%N) by (apply N.mod_lt; discriminate).
  assert (HK : exists k : nat, (k < 10)%nat /\ (n mod 10)%N = N.of_nat k).
  { exists (N.to_nat (n mod 10)%N). split; lia. }
  destruct HK as (k & Hk & ->).
  do 10 (destruct k as [|k]; [reflexivity|]). lia.
Qed.

Lemma two_digits_matches (n : N) :
  matches (digits_pattern 2) (DateTime.two_digits n) = true.
Proof. unfold DateTime.two_digits. simpl. rewrite !digit_isdigit. reflexivity. Qed.

Lemma four_digits_matches (n : N) :
  matches (digits_pattern 4) (DateTime.four_digits n) = true.
Proof. unfold DateTime.four_digits. simpl. rewrite !digit_isdigit. reflexivity. Qed.

Lemma day_abbr_matches (k : N) : matches abbr_pattern (DateTime.day_abbr k) = true.
Proof.
  unfold DateTime.day_abbr. generalize (N.to_nat k). intros j.
  do 7 (destruct j as [|j]; [reflexivity|]). destruct j; reflexivity.
Qed.

Lemma month_abbr_matches (k : N) :
  matches abbr_pattern (DateTime.month_abbr k) = true.
Proof.
  unfold DateTime.month_abbr. generalize (N.to_nat (k - 1)). intros j.
  do 12 (destruct j as [|j]; [reflexivity|]). destruct j; reflexivity.
Qed.

Lemma strftime_rfc_pattern (d : DateTime.datetime) :
  matches rfc_pattern (DateTime.strftime_rfc d) = true.
Proof.
  unfold rfc_pattern, DateTime.strftime_rfc.
  repeat (apply matches_app;
          [first [ apply day_abbr_matches | apply month_abbr_matches
                 | apply two_digits_matches | apply four_digits_matches
                 | reflexivity ] |]).
  reflexivity.
Qed.

End MetadataFacts.

(** ** The plain image of the channel *)

Section PlainImageFacts.
Implicit Types (e c : Element) (t a b : string) (g : Element -> Element).

Lemma tag_update_child t g c : tag (update_child t g c) = tag c.
Proof.
  unfold update_child. destruct (update_first _ (children c));
    [apply tag_with_children | reflexivity].
Qed.

Lemma iter_first_unfold t e :
  iter_first t e
  = if String.eqb (tag e) t then Some e
    else first_some (iter_first t) (children e).
Proof. destruct e; reflexivity. Qed.

Lemma first_some_Forall2_eq {A B : Type} (F : A -> option B) (l l' : list A) :
  Forall2 (fun x x' => F x' = F x) l l' -> first_some F l' = first_some F l.
Proof.
  induction 1 as [|x x' l l' Hx _ IH]; [reflexivity|].
  rewrite !first_some_cons, Hx, IH. reflexivity.
Qed.

Lemma first_some_is_Some_Forall2 {A B : Type} (R : A -> A -> Prop)
    (F : A -> option B) (l l' : list A) :
  (forall x x', R x x' -> is_Some (F x) -> is_Some (F x')) ->
  Forall2 R l l' -> is_Some (first_some F l) -> is_Some (first_some F l').
Proof.
  intros HR H. induction H as [|x x' l l' Hx _ IH]; [auto|].
  rewrite !first_some_cons. destruct (F x) eqn:Ex.
  - intros _. destruct (HR _ _ Hx) as [y Hy]; [rewrite Ex; eauto|].
    rewrite Hy. eauto.
  - intros H. destruct (F x'); [eauto | auto].
Qed.

(** The element [e.find(a/b)] finds is the one [update_path] rewrites. *)
Lemma find_path_update_path a b g e u :
  find_path a b e = Some u -> tag (g u) = tag u ->
  find_path a b (update_path a b g e) = Some (g u).
Proof.
  unfold find_path, update_path. intros H Hg.
  apply first_some_split in H. destruct H as (l1 & c & l2 & E & Hn & Hc).
  cbv beta in Hc. destruct (has_tag a c) eqn:Ha; [|discriminate].
  rewrite E, (update_first_app _ l1 l2 c (update_child b g c)).
  - rewrite children_with_children, first_some_app by exact Hn.
    rewrite first_some_cons.
    assert (Ha' : has_tag a (update_child b g c) = true).
    { unfold has_tag in *. rewrite tag_update_child. exact Ha. }
    rewrite Ha', (find_update_child b g c u Hc Hg). reflexivity.
  - eapply Forall_impl; [exact Hn|]. intros y Hy. cbv beta in Hy |- *.
    destruct (has_tag a y); [|reflexivity]. rewrite Hy. reflexivity.
  - rewrite Ha, Hc. reflexivity.
Qed.

Lemma map_shape_Forall2 (cs cs' : list Element) :
  List.map shape cs' = List.map shape cs ->
  Forall2 (fun x x' => shape x' = shape x) cs cs'.
Proof. apply map_eq_Forall2. Qed.

Lemma shape_tag e e' : shape e' = shape e -> tag e' = tag e.
Proof.
  intros H. rewrite <- (erase_tag false e'), <- (erase_tag false e).
  unfold shape in H. rewrite H. reflexivity.
Qed.

Lemma shape_children e e' :
  shape e' = shape e -> Forall2 (fun x x' => shape x' = shape x) (children e) (children e').
Proof.
  intros H. apply map_shape_Forall2. apply (f_equal children) in H.
  unfold shape in H. rewrite !children_erase in H. exact H.
Qed.

(** Whether [e.find(a/b)] answers depends on tags and nesting only. *)
Lemma find_path_shape a b e e' :
  shape e' = shape e ->
  is_Some (find_path a b e) -> is_Some (find_path a b e').
Proof.
  intros H. unfold find_path.
  apply (first_some_is_Some_Forall2 (fun x x' => shape x' = shape x));
    [|apply shape_children; exact H].
  intros x x' Hx. unfold has_tag. rewrite (shape_tag _ _ Hx).
  destruct (String.eqb (tag x) a); [|auto].
  unfold find.
  apply (first_some_is_Some_Forall2 (fun y y' => shape y' = shape y));
    [|apply shape_children; exact Hx].
  intros y y' Hy. unfold has_tag. rewrite (shape_tag _ _ Hy). 
  destruct (String.eqb (tag y) b); eauto.
Qed.

(** The rewrite of [a/b] leaves every child with another tag as it is
    and moves no element with tag [t]. *)
Lemma update_path_children t a b g e :
  String.eqb a t = false -> String.eqb b t = false ->
  (forall x, tag (g x) = tag x /\ children (g x) = children x) ->
  Forall2 (fun x x' => (has_tag a x = false -> x' = x)
                       /\ iter_first t x' = iter_first t x)
          (children e) (children (update_path a b g e)).
Proof.
  intros Ha Hb Hg. unfold update_path.
  destruct (update_first _ (children e)) as [cs'|] eqn:E.
  2:{ clear E. induction (children e); constructor; auto. }
  rewrite children_with_children.
  eapply update_first_Forall2; [auto | | exact E].
  intros x x'. cbv beta. destruct (has_tag a x) eqn:Hx; [|discriminate].
  destruct (find b x); [|discriminate]. intros [= <-].
  split; [discriminate|].
  apply has_tag_true in Hx.
  assert (Hx' : tag (update_child b g x) = a)
    by (rewrite tag_update_child; exact Hx).
  rewrite !iter_first_unfold, Hx, Hx', Ha.
  unfold update_child.
  destruct (update_first _ (children x)) as [ys|] eqn:Ey; [|reflexivity].
  rewrite children_with_children. apply first_some_Forall2_eq.
  eapply update_first_Forall2; [auto | | exact Ey].
  intros y y'. cbv beta. destruct (has_tag b y) eqn:Hy; [|discriminate].
  intros [= <-]. apply has_tag_true in Hy.
  destruct (Hg y) as [Hg1 Hg2].
  rewrite !iter_first_unfold, Hg1, Hg2, Hy, Hb. reflexivity.
Qed.

Lemma find_desc_update_path t a b g e :
  String.eqb a t = false -> String.eqb b t = false ->
  (forall x, tag (g x) = tag x /\ children (g x) = children x) ->
  find_desc t (update_path a b g e) = find_desc t e.
Proof.
  intros Ha Hb Hg. unfold find_desc. apply first_some_Forall2_eq.
  eapply Forall2_impl; [apply (update_path_children t a b g e Ha Hb Hg)|].
  intros x x' [_ H]. exact H.
Qed.

Lemma set_text_keeps (s : string) (x : Element) :
  tag (set_text s x) = tag x /\ children (set_text s x) = children x.
Proof. destruct x; split; reflexivity. Qed.

(** The cover step, when the download succeeds. *)
Lemma download_cover_some (env : Env) (channel image : Element)
    (w w' : World) (p : Path) :
  find_desc ITUNES_IMAGE channel = Some image ->
  download_file env (get "href" image) ImagesFolder w = (Ok (Some p), w') ->
  download_cover env channel w
  = (Ok (update_path "image" "url" (set_text (relpath p))
           (update_desc ITUNES_IMAGE (set "href" (relpath p)) channel)), w')
  /\ find_desc ITUNES_IMAGE
       (update_path "image" "url" (set_text (relpath p))
          (update_desc ITUNES_IMAGE (set "href" (relpath p)) channel))
     = Some (set "href" (relpath p) image).
Proof.
  intros Hf Hd. split.
  - unfold download_cover, bind. rewrite Hf, Hd. reflexivity.
  - rewrite find_desc_update_path;
      [|reflexivity | reflexivity | intros x; apply set_text_keeps].
    apply find_desc_update_desc; [intros x; apply tag_set | exact Hf].
Qed.

End PlainImageFacts.

(** ** [str] of a size reads back as that size *)

Lemma of_N_decimal (n : N) :
  option_map N.of_uint (NilZero.uint_of_string (PyStr.of_N n)) = Some n.
Proof.
  unfold PyStr.of_N. rewrite NilZero.usu.
  - simpl. rewrite DecimalN.Unsigned.of_to. reflexivity.
  - destruct n as [|q]; [discriminate|].
    simpl. apply DecimalPos.Unsigned.to_uint_nonnil.
Qed.

Example of_N_sample : PyStr.of_N 1048576 = "1048576".
Proof. reflexivity. Qed.

(** ** A whole run *)

Lemma process_feed_requests (env : Env) (rss_url : string) (w : World)
    (r : result Element) (w' : World) :
  process_feed env rss_url w = (r, w') -> extends w w' /\ fresh_requests w w'.
Proof.
  unfold process_feed, requests_get, parse_feed, bind.
  assert (Hid : extends w w /\ fresh_requests w w).
  { split; [apply extends_refl | apply (step_requests _ _ (step_refl w))]. }
  destruct (fetch env rss_url) as [|status content]; [intros [= <- <-]; exact Hid|].
  cbn [ret]. destruct (fromstring env content) as [root|];
    [|intros [= <- <-]; exact Hid].
  cbn [ret]. destruct (rewrite_feed env root w) as [[tree|ex] w1] eqn:E.
  - destruct (rewrite_feed_grows _ _ _ _ _ E) as [He Hr _].
    unfold tree_write. destruct (feed_write env); intros [= <- <-]; auto.
  - intros [= <- <-]. destruct (rewrite_feed_grows _ _ _ _ _ E) as [He Hr _]. auto.
Qed.

(** ** Positions: what a run does to the child at a given place *)

Section Positions.
Implicit Types (env : Env) (w : World) (c e item channel root : Element).

Lemma Forall2_compose {A : Type} (R S T : A -> A -> Prop) (l1 l2 l3 : list A) :
  (forall x y z, R x y -> S y z -> T x z) ->
  Forall2 R l1 l2 -> Forall2 S l2 l3 -> Forall2 T l1 l3.
Proof.
  intros H H12. revert l3. induction H12 as [|a b l1 l2 Hab _ IH]; intros l3 H23.
  - inversion H23. constructor.
  - inversion H23; subst. constructor; eauto.
Qed.

Lemma Forall2_diag {A : Type} (R : A -> A -> Prop) (l : list A) :
  (forall a, R a a) -> Forall2 R l l.
Proof. intros H. induction l; constructor; auto. Qed.

Lemma children_set (k v : string) e : children (set k v e) = children e.
Proof. destruct e; reflexivity. Qed.

Lemma set_text_twice (s s' : string) e : set_text s' (set_text s e) = set_text s' e.
Proof. destruct e; reflexivity. Qed.

Lemma with_children_twice (cs cs' : list Element) e :
  with_children cs' (with_children cs e) = with_children cs' e.
Proof. destruct e; reflexivity. Qed.

(** *** The enclosure of an item through the steps on images *)

Lemma enclosure_kept_refl c : enclosure_kept c c.
Proof. split; [reflexivity|]. intros _. destruct (find "enclosure" c); eauto. Qed.

Lemma enclosure_kept_trans c1 c2 c3 :
  enclosure_kept c1 c2 -> enclosure_kept c2 c3 -> enclosure_kept c1 c3.
Proof.
  intros [T1 H1] [T2 H2]. split; [congruence|]. intros Hi.
  specialize (H1 Hi).
  assert (Hi2 : has_tag "item" c2 = true)
    by (unfold has_tag in *; rewrite T1; exact Hi).
  specialize (H2 Hi2).
  destruct (find "enclosure" c1) as [e1|].
  - destruct H1 as (e2 & F2 & A2). rewrite F2 in H2.
    destruct H2 as (e3 & F3 & A3). exists e3. split; congruence.
  - rewrite H1 in H2. exact H2.
Qed.

Lemma update_desc_enclosure_kept (g : Element -> Element) e :
  (forall x, tag (g x) = tag x) ->
  enclosure_kept e (update_desc ITUNES_IMAGE g e).
Proof.
  intros Hg. split.
  { unfold update_desc. destruct (update_first _ _);
      [apply tag_with_children | reflexivity]. }
  intros _. destruct (find "enclosure" e) as [enc|] eqn:Hf.
  - apply (find_update_desc_other ITUNES_IMAGE "enclosure" g e enc Hg);
      [discriminate | exact Hf].
  - unfold update_desc.
    destruct (update_first (update_iter ITUNES_IMAGE g) (children e)) as [cs'|] eqn:E;
      [|exact Hf].
    assert (HF : Forall2 (same_unless ITUNES_IMAGE) (children e) cs').
    { eapply update_first_Forall2; [| |exact E].
      - intros x. split; reflexivity.
      - intros x x'. apply update_iter_same_unless. exact Hg. }
    pose proof (first_pick_Forall2 (same_unless ITUNES_IMAGE) "enclosure" _ _
                  (fun a b (Hab : same_unless ITUNES_IMAGE a b) => proj1 Hab) HF) as HP.
    unfold find in Hf |- *. fold (pick "enclosure") in Hf |- *.
    rewrite Hf in HP. rewrite children_with_children. exact HP.
Qed.

Lemma update_iter_enclosure_kept (g : Element -> Element) c c' :
  (forall x, tag (g x) = tag x) ->
  update_iter ITUNES_IMAGE g c = Some c' -> enclosure_kept c c'.
Proof.
  intros Hg H.
  destruct (has_tag "item" c) eqn:Hi.
  - assert (Hc' : c' = update_desc ITUNES_IMAGE g c).
    { destruct c as [t a x cs tl]. cbn [update_iter] in H.
      apply has_tag_true in Hi. simpl in Hi. subst t.
      change (String.eqb "item" ITUNES_IMAGE) with false in H.
      unfold update_desc. cbn [children].
      destruct (update_first (update_iter ITUNES_IMAGE g) cs) as [cs'|];
        [|discriminate].
      injection H as <-. reflexivity. }
    subst c'. apply update_desc_enclosure_kept. exact Hg.
  - split; [exact (proj1 (update_iter_same_unless _ _ _ _ Hg H))|].
    intros Hi'. rewrite Hi in Hi'. discriminate.
Qed.

(** The cover step leaves the enclosures of the items as they are. *)
Lemma download_cover_enclosures env channel w ch1 w1 :
  download_cover env channel w = (Ok ch1, w1) ->
  Forall2 enclosure_kept (children channel) (children ch1).
Proof.
  unfold download_cover, bind.
  destruct (find_desc ITUNES_IMAGE channel) as [image|];
    [|intros [= <- <-]; apply Forall2_diag, enclosure_kept_refl].
  destruct (download_file env _ _ w) as [[[p|]|ex] w2]; try discriminate;
    [|intros [= <- <-]; apply Forall2_diag, enclosure_kept_refl].
  intros [= <- <-].
  set (g := set "href" (relpath p)).
  apply (Forall2_compose enclosure_kept enclosure_kept enclosure_kept
           _ (children (update_desc ITUNES_IMAGE g channel)) _ enclosure_kept_trans).
  - unfold update_desc.
    destruct (update_first _ (children channel)) as [cs'|] eqn:E;
      [|apply Forall2_diag, enclosure_kept_refl].
    rewrite children_with_children.
    eapply update_first_Forall2; [apply enclosure_kept_refl | | exact E].
    intros x x'. apply update_iter_enclosure_kept. intros y. apply tag_set.
  - unfold update_path.
    destruct (update_first _ (children (update_desc ITUNES_IMAGE g channel)))
      as [cs'|] eqn:E; [|apply Forall2_diag, enclosure_kept_refl].
    rewrite children_with_children.
    eapply update_first_Forall2; [apply enclosure_kept_refl | | exact E].
    intros x x'. cbv beta. destruct (has_tag "image" x) eqn:Hx; [|discriminate].
    destruct (find "url" x); [|discriminate]. intros [= <-].
    split; [apply tag_update_child|].
    intros Hi. apply has_tag_true in Hx, Hi. congruence.
Qed.

Lemma enclosure_kept_names_file c c' :
  enclosure_kept c c' -> has_tag "item" c = true ->
  enclosure_names_file c' = enclosure_names_file c.
Proof.
  intros [_ H] Hi. specialize (H Hi). unfold enclosure_names_file.
  destruct (find "enclosure" c) as [enc|].
  - destruct H as (enc' & -> & Ha). unfold get. rewrite Ha. reflexivity.
  - rewrite H. reflexivity.
Qed.

Lemma enclosures_name_files_Forall2 (cs cs' : list Element) :
  Forall2 enclosure_kept cs cs' ->
  enclosures_name_files cs' = enclosures_name_files cs.
Proof.
  induction 1 as [|c c' cs cs' Hc _ IH]; [reflexivity|].
  cbn [enclosures_name_files forallb].
  fold (enclosures_name_files cs) (enclosures_name_files cs'). rewrite IH.
  assert (Hb : has_tag "item" c' = has_tag "item" c)
    by (unfold has_tag; rewrite (proj1 Hc); reflexivity).
  rewrite Hb. destruct (has_tag "item" c) eqn:Hi; [|reflexivity].
  rewrite (enclosure_kept_names_file _ _ Hc Hi). reflexivity.
Qed.

(** The episode-image step leaves the enclosure as it is. *)
Lemma download_episode_image_enclosure env item w item' w' :
  download_episode_image env item w = (Ok item', w') -> enclosure_kept item item'.
Proof.
  unfold download_episode_image, bind.
  destruct (find_desc ITUNES_IMAGE item);
    [|intros [= <- <-]; apply enclosure_kept_refl].
  destruct (download_file env _ _ w) as [[[p|]|ex] w1]; try discriminate;
    [|intros [= <- <-]; apply enclosure_kept_refl].
  intros [= <- <-]. apply update_desc_enclosure_kept. intros x. apply tag_set.
Qed.

(** *** Namespaced images through the steps on other elements *)

Lemma iter_first_erase (keep : bool) (t : string) e :
  iter_first t (erase keep e) = option_map (erase keep) (iter_first t e).
Proof.
  induction e as [t' a x cs tl IH] using Element_ind_children.
  cbn [erase iter_first]. destruct (String.eqb t' t); [reflexivity|].
  induction IH as [|c cs Hc _ IHcs]; [reflexivity|].
  cbn [List.map]. rewrite !first_some_cons, Hc.
  destruct (iter_first t c); [reflexivity | exact IHcs].
Qed.

Lemma iter_first_shape_none (t : string) c c' :
  shape c' = shape c -> iter_first t c = None -> iter_first t c' = None.
Proof.
  intros Hs Hn. apply (f_equal (iter_first t)) in Hs. unfold shape in Hs.
  rewrite !iter_first_erase, Hn in Hs.
  destruct (iter_first t c'); [discriminate | reflexivity].
Qed.

(** An update of an element with another tag that keeps its children
    does not move the first image. *)
Lemma iter_first_keeps (g : Element -> Element) c :
  tag (g c) = tag c -> children (g c) = children c ->
  has_tag ITUNES_IMAGE c = false ->
  iter_first ITUNES_IMAGE (g c) = iter_first ITUNES_IMAGE c.
Proof.
  intros Ht Hc Hn. rewrite !iter_first_unfold, Ht, Hc.
  unfold has_tag in Hn. rewrite Hn. reflexivity.
Qed.

Lemma update_child_image (t : string) (g : Element -> Element) e :
  String.eqb t ITUNES_IMAGE = false ->
  (forall x, tag (g x) = tag x /\ children (g x) = children x) ->
  find_desc ITUNES_IMAGE (update_child t g e) = find_desc ITUNES_IMAGE e.
Proof.
  intros Ht Hg. unfold find_desc, update_child.
  destruct (update_first _ (children e)) as [cs'|] eqn:E; [|reflexivity].
  rewrite children_with_children. apply first_some_Forall2_eq.
  eapply update_first_Forall2; [auto | | exact E].
  intros x x'. cbv beta. destruct (has_tag t x) eqn:Hx; [|discriminate].
  intros [= <-]. destruct (Hg x) as [H1 H2].
  apply iter_first_keeps; [exact H1 | exact H2 |].
  apply has_tag_true in Hx. unfold has_tag. rewrite Hx. exact Ht.
Qed.

(** The enclosure step leaves the image of the episode as it is. *)
Lemma download_enclosure_image env item w item' w' :
  download_enclosure env item w = (Ok item', w') ->
  find_desc ITUNES_IMAGE item' = find_desc ITUNES_IMAGE item.
Proof.
  unfold download_enclosure, bind.
  destruct (find "enclosure" item); [|intros [= <- <-]; reflexivity].
  destruct (get "url" _); [|discriminate].
  destruct (download_file env _ _ w) as [[[p|]|ex] w1]; try discriminate;
    [|intros [= <- <-]; reflexivity].
  destruct (getsize env p w1) as [[n|ex] w2]; [|discriminate].
  intros [= <- <-]. apply update_child_image; [reflexivity|].
  intros x. rewrite !tag_set, !children_set. split; reflexivity.
Qed.

(** *** The loop, child by child *)

Lemma process_items_at env (cs : list Element) w out w' (i : nat) c :
  process_items env cs w = (Ok out, w') ->
  cs !! i = Some c ->
  exists pre_out w_i,
    process_items env (take i cs) w = (Ok pre_out, w_i)
    /\ if has_tag "item" c
       then exists c' w_i',
              process_item env c w_i = (Ok c', w_i')
              /\ out !! i = Some c' /\ extends w_i' w'
       else out !! i = Some c.
Proof.
  revert w out i. induction cs as [|c0 cs IH]; intros w out i H Hi;
    [discriminate|].
  destruct i as [|j].
  - injection Hi as ->. exists [], w. split; [reflexivity|].
    cbn [process_items] in H. unfold bind in H.
    destruct (has_tag "item" c) eqn:Ht.
    + destruct (process_item env c w) as [[c1|ex] w1] eqn:E1; [|discriminate].
      destruct (process_items env cs w1) as [[cs1|ex] w2] eqn:E2; [|discriminate].
      injection H as <- <-. exists c1, w1.
      split; [reflexivity|]. split; [reflexivity|].
      eapply step_files, process_items_grows; exact E2.
    + destruct (process_items env cs w) as [[cs1|ex] w2]; [|discriminate].
      injection H as <- <-. reflexivity.
  - change ((c0 :: cs) !! S j) with (cs !! j) in Hi.
    change (take (S j) (c0 :: cs)) with (c0 :: take j cs).
    cbn [process_items] in H |- *. unfold bind in H |- *.
    destruct (has_tag "item" c0).
    + destruct (process_item env c0 w) as [[c1|ex] w1]; [|discriminate].
      destruct (process_items env cs w1) as [[cs1|ex] w2] eqn:E2; [|discriminate].
      injection H as <- <-.
      destruct (IH w1 cs1 j E2 Hi) as (po & wi & Hp & Hrest).
      rewrite Hp. exists (c1 :: po), wi. split; [reflexivity | exact Hrest].
    + destruct (process_items env cs w) as [[cs1|ex] w2] eqn:E2; [|discriminate].
      injection H as <- <-.
      destruct (IH w cs1 j E2 Hi) as (po & wi & Hp & Hrest).
      rewrite Hp. exists (c0 :: po), wi. split; [reflexivity | exact Hrest].
Qed.

(** The loop changes items only, and no tag or nesting. *)
Lemma process_items_kept env (cs out : list Element) w w' :
  process_items env cs w = (Ok out, w') ->
  Forall2 (fun c c' => shape c' = shape c /\ (has_tag "item" c = false -> c' = c))
          cs out.
Proof.
  revert out w. induction cs as [|c cs IH]; intros out w; cbn [process_items].
  - intros [= <- <-]. constructor.
  - unfold bind. destruct (has_tag "item" c) eqn:Ht.
    + destruct (process_item env c w) as [[c1|ex] w1] eqn:E1; [|discriminate].
      destruct (process_items env cs w1) as [[cs1|ex] w2] eqn:E2; [|discriminate].
      intros [= <- <-]. constructor; [|eauto].
      split; [|intros Hf; rewrite Ht in Hf; discriminate].
      apply shape_of_strip_attrs. eapply process_item_strip; eauto.
    + destruct (process_items env cs w) as [[cs1|ex] w2] eqn:E2; [|discriminate].
      intros [= <- <-]. constructor; [auto | eauto].
Qed.

(** *** The metadata update, child by child *)

Lemma update_feed_metadata_kept env channel :
  Forall2 (fun c c' =>
             shape c' = shape c
             /\ iter_first ITUNES_IMAGE c' = iter_first ITUNES_IMAGE c
             /\ (has_tag "lastBuildDate" c = false ->
                 has_tag ATOM_LINK c = false -> c' = c))
          (children channel) (children (update_feed_metadata env channel)).
Proof.
  unfold update_feed_metadata. set (ts := DateTime.strftime_rfc _).
  rewrite children_with_children.
  apply (Forall2_compose
           (fun c c' => shape c' = shape c
                        /\ iter_first ITUNES_IMAGE c' = iter_first ITUNES_IMAGE c
                        /\ (has_tag "lastBuildDate" c = false -> c' = c))
           (fun c c' => shape c' = shape c
                        /\ iter_first ITUNES_IMAGE c' = iter_first ITUNES_IMAGE c
                        /\ (has_tag ATOM_LINK c = false -> c' = c))
           _ _ (children (update_child "lastBuildDate" (set_text ts) channel)) _).
  - intros a b c (S1 & I1 & E1) (S2 & I2 & E2).
    split; [congruence|]. split; [congruence|].
    intros H1 H2. specialize (E1 H1). subst b. exact (E2 H2).
  - unfold update_child.
    destruct (update_first _ (children channel)) as [cs'|] eqn:E;
      [|apply Forall2_diag; auto].
    rewrite children_with_children.
    eapply update_first_Forall2; [auto | | exact E].
    intros x x'. cbv beta. destruct (has_tag "lastBuildDate" x) eqn:Hx;
      [|discriminate].
    intros [= <-]. split; [apply shape_set_text|]. split; [|discriminate].
    destruct (set_text_keeps ts x) as [H1 H2].
    apply iter_first_keeps; [exact H1 | exact H2 |].
    apply has_tag_true in Hx. unfold has_tag. rewrite Hx. reflexivity.
  - induction (children (update_child _ _ channel)) as [|c cs IH];
      constructor; [|exact IH].
    split; [apply shape_of_strip_attrs, update_self_link_strip|].
    split; [|apply update_self_link_other].
    unfold update_self_link. destruct (has_tag ATOM_LINK c) eqn:Hc; [|reflexivity].
    destruct (get "rel" c) as [r|]; [|reflexivity].
    destruct (String.eqb r "self"); [|reflexivity].
    apply iter_first_keeps; [apply tag_set | apply children_set |].
    apply has_tag_true in Hc. unfold has_tag. rewrite Hc. reflexivity.
Qed.

(** *** The written document *)

Lemma find_replaced_child (t : string) e c c' :
  find t e = Some c -> tag c' = t ->
  find t (update_child t (fun _ => c') e) = Some c'.
Proof.
  intros H Ht. destruct (find_split _ _ _ H) as (l1 & l2 & E & Hn & Hc).
  rewrite (update_child_split t _ e c l1 l2 E Hn Hc).
  apply (find_of_split t _ c' l1 l2);
    [apply children_with_children | exact Hn | apply has_tag_true; exact Ht].
Qed.

Lemma update_replaced_child (t : string) (g : Element -> Element) e c c' :
  find t e = Some c -> tag c' = t ->
  update_child t g (update_child t (fun _ => c') e)
  = update_child t (fun _ => g c') e.
Proof.
  intros H Ht. destruct (find_split _ _ _ H) as (l1 & l2 & E & Hn & Hc).
  rewrite !(update_child_split t _ e c l1 l2 E Hn Hc).
  rewrite (update_child_split t g _ c' l1 l2);
    [apply with_children_twice | apply children_with_children | exact Hn
    | apply has_tag_true; exact Ht].
Qed.

Lemma tag_update_feed_metadata env channel :
  tag (update_feed_metadata env channel) = tag channel.
Proof. exact (proj1 (update_feed_metadata_equiv env channel)). Qed.

Lemma rewrite_feed_written env root w tree w' :
  rewrite_feed env root w = (Ok tree, w') ->
  exists channel ch1 w1 items,
    find "channel" root = Some channel
    /\ download_cover env channel w = (Ok ch1, w1)
    /\ process_items env (children ch1) w1 = (Ok items, w')
    /\ tree = update_child "channel"
                (fun _ => update_feed_metadata env (with_children items ch1)) root
    /\ find "channel" tree
       = Some (update_feed_metadata env (with_children items ch1)).
Proof.
  intros H. destruct (rewrite_feed_inv _ _ _ _ _ H)
    as (channel & ch1 & w1 & items & Hc & Hcov & Hit & ->).
  exists channel, ch1, w1, items. repeat (split; [assumption || reflexivity|]).
  apply (find_replaced_child "channel" root channel); [exact Hc|].
  rewrite tag_update_feed_metadata, tag_with_children.
  rewrite (proj1 (download_cover_equiv _ _ _ _ _ Hcov)).
  destruct (find_split _ _ _ Hc) as (_ & _ & _ & _ & Ht).
  apply has_tag_true. exact Ht.
Qed.

(** The item the loop finds at position [i] ends, as the loop left it, at
    position [i] of the channel of the written document. *)
Lemma rewrite_feed_item_at env root w tree w' channel ch1 w1 (i : nat) item1 :
  rewrite_feed env root w = (Ok tree, w') ->
  find "channel" root = Some channel ->
  download_cover env channel w = (Ok ch1, w1) ->
  children ch1 !! i = Some item1 ->
  has_tag "item" item1 = true ->
  exists item' w_i' channel',
    process_item env item1 (world_at_item env channel w i) = (Ok item', w_i')
    /\ extends w_i' w'
    /\ find "channel" tree = Some channel'
    /\ children channel' !! i = Some item'.
Proof.
  intros H Hc Hcov Hi Ht.
  destruct (rewrite_feed_written _ _ _ _ _ H)
    as (channel0 & ch0 & w0 & items & Hc0 & Hcov0 & Hit & _ & Hw).
  rewrite Hc in Hc0. injection Hc0 as <-.
  rewrite Hcov in Hcov0. injection Hcov0 as <- <-.
  destruct (process_items_at _ _ _ _ _ _ _ Hit Hi) as (po & wi & Hp & Hrest).
  rewrite Ht in Hrest. destruct Hrest as (c' & wi' & Hpi & Ho & He).
  assert (Hwi : world_at_item env channel w i = wi)
    by (unfold world_at_item; rewrite Hcov, Hp; reflexivity).
  rewrite Hwi.
  pose proof (update_feed_metadata_kept env (with_children items ch1)) as HF.
  rewrite children_with_children in HF.
  destruct (Forall2_lookup_l _ _ _ _ _ HF Ho) as (y & Hy & _ & _ & Hsame).
  assert (Htag : tag c' = "item").
  { apply has_tag_true in Ht. rewrite <- Ht.
    rewrite <- (erase_tag true c'), <- (erase_tag true item1).
    pose proof (process_item_strip _ _ _ _ _ Hpi) as Hs.
    unfold strip_attrs in Hs. rewrite Hs. reflexivity. }
  rewrite Hsame in Hy by (unfold has_tag; rewrite Htag; reflexivity).
  exists c', wi', (update_feed_metadata env (with_children items ch1)). auto.
Qed.

(** *** Helpers of the claims about whole runs *)

Lemma Forall2_none_right {A B : Type} (R : A -> A -> Prop) (F : A -> option B)
    (l k : list A) :
  (forall x y, R x y -> F x = None -> F y = None) ->
  Forall2 R l k -> Forall (fun x => F x = None) l -> Forall (fun y => F y = None) k.
Proof.
  intros HR H. induction H as [|x y l k Hxy _ IH]; intros Hl; [constructor|].
  inversion Hl; subst. constructor; eauto.
Qed.

Lemma relpath_file (f : Folder) (name : string) :
  is_dir_name name = false -> relpath (f, name) = folder_name f ++ "/" ++ name.
Proof.
  unfold is_dir_name, relpath. intros H.
  apply orb_false_elim in H. destruct H as [H H3].
  rewrite H, H3. reflexivity.
Qed.

(** The enclosure step when the download returns a destination. *)
Lemma download_enclosure_size (env : Env) (w w1 : World)
    (item enclosure : Element) (url : string) (p : Path) :
  find "enclosure" item = Some enclosure ->
  get "url" enclosure = Some url ->
  download_file env (Some url) MediaFolder w = (Ok (Some p), w1) ->
  exists (size : N) (item' enclosure' : Element),
    download_enclosure env item w = (Ok item', w1)
    /\ find "enclosure" item' = Some enclosure'
    /\ get "length" enclosure' = Some (PyStr.of_N size)
    /\ get "url" enclosure' = Some (relpath p)
    /\ p = (MediaFolder, derive_filename url)
    /\ getsize env p w1 = (Ok size, w1)
    /\ (is_dir_name (derive_filename url) = false ->
        media_files w1 !! derive_filename url = Some size).
Proof.
  intros Hf Hu Hd.
  destruct (download_file_some _ _ _ _ _ _ Hd) as [Hex (u0 & [= <-] & _ & _ & Hp)].
  destruct (getsize_succeeds env p w1 Hex) as [size Hsize].
  set (g := fun e => set "length" (PyStr.of_N size) (set "url" (relpath p) e)).
  assert (Hg : tag (g enclosure) = tag enclosure)
    by (unfold g; rewrite !tag_set; reflexivity).
  exists size, (update_child "enclosure" g item), (g enclosure).
  split.
  { unfold download_enclosure, bind. rewrite Hf, Hu, Hd, Hsize. reflexivity. }
  split; [apply find_update_child; assumption|].
  split; [unfold g; apply get_set_eq|].
  split; [unfold g; rewrite get_set_ne by discriminate; apply get_set_eq|].
  split; [exact Hp|]. split; [exact Hsize|].
  intros Hfile. subst p. unfold getsize in Hsize. cbn [fst snd] in Hsize.
  rewrite Hfile in Hsize. cbn [files] in Hsize.
  destruct (media_files w1 !! derive_filename url); [|discriminate].
  injection Hsize as ->. reflexivity.
Qed.

(** After the cover step nothing touches the plain image. *)
Lemma plain_image_after_cover (env : Env) (ch1 : Element) (w1 : World)
    (items : list Element) (w' : World) :
  process_items env (children ch1) w1 = (Ok items, w') ->
  find_path "image" "url" (update_feed_metadata env (with_children items ch1))
  = find_path "image" "url" ch1.
Proof.
  intros Hit. unfold find_path. apply first_some_Forall2_eq.
  pose proof (process_items_kept _ _ _ _ _ Hit) as HL.
  pose proof (update_feed_metadata_kept env (with_children items ch1)) as HM.
  rewrite children_with_children in HM.
  eapply Forall2_compose; [|exact HL | exact HM].
  intros a x b [Hs Hn] (Hsb & _ & Hsame). cbv beta.
  assert (Htag : tag b = tag a)
    by (rewrite (shape_tag _ _ Hsb); apply shape_tag; exact Hs).
  unfold has_tag at 1. rewrite Htag. fold (has_tag "image" a).
  destruct (has_tag "image" a) eqn:Ha; [|reflexivity].
  apply has_tag_true in Ha.
  assert (Hx : x = a) by (apply Hn; unfold has_tag; rewrite Ha; reflexivity).
  subst x.
  rewrite Hsame by (unfold has_tag; rewrite Ha; reflexivity). reflexivity.
Qed.

End Positions.

(** ** A second run over the files of the first *)

Section SecondRun.
Implicit Types (env : Env) (w : World) (channel root : Element).

(** Reading the clock again changes the build date and nothing else. *)
Lemma update_feed_metadata_again env env2 channel :
  update_child "lastBuildDate" (set_text (DateTime.strftime_rfc (utcnow env2)))
    (update_feed_metadata env channel)
  = update_feed_metadata env2 channel.
Proof.
  unfold update_feed_metadata.
  set (ts := DateTime.strftime_rfc (utcnow env)).
  set (ts2 := DateTime.strftime_rfc (utcnow env2)).
  destruct (find "lastBuildDate" channel) as [lb|] eqn:Hf.
  - destruct (find_split _ _ _ Hf) as (l1 & l2 & E & Hn & Hc).
    rewrite !(update_child_split "lastBuildDate" _ channel lb l1 l2 E Hn Hc).
    rewrite !children_with_children, !with_children_twice, !map_app.
    cbn [List.map].
    assert (Hlb : forall s, update_self_link (set_text s lb) = set_text s lb).
    { intros s. apply update_self_link_other. apply has_tag_true in Hc.
      unfold has_tag. rewrite tag_set_text, Hc. reflexivity. }
    rewrite !Hlb.
    rewrite (update_child_split "lastBuildDate" (set_text ts2) _ (set_text ts lb)
               (List.map update_self_link l1) (List.map update_self_link l2)).
    + rewrite with_children_twice, set_text_twice. reflexivity.
    + apply children_with_children.
    + clear -Hn. induction Hn as [|y l Hy _ IH]; constructor; [|exact IH].
      unfold has_tag in *. rewrite update_self_link_tag. exact Hy.
    + unfold has_tag in *. rewrite tag_set_text. exact Hc.
  - rewrite !(update_child_none "lastBuildDate" _ channel Hf).
    apply update_child_none. unfold find. rewrite children_with_children.
    change (first_some (fun c => if has_tag "lastBuildDate" c then Some c else None))
      with (first_some (pick "lastBuildDate")).
    rewrite find_map_self_link by reflexivity. exact Hf.
Qed.

Lemma rewrite_feed_second_run env (t2 : nat -> string -> Transfer)
    (now2 : DateTime.datetime) root channel w tree w' :
  always_completes env ->
  find "channel" root = Some channel ->
  enclosures_name_files (children channel) = true ->
  rewrite_feed env root w = (Ok tree, w') ->
  forall w2, extends w' w2 ->
  rewrite_feed (second_run t2 now2 env) root w2
  = (Ok (with_build_date now2 tree), w2).
Proof.
  intros Hall Hc Hnames H w2 He.
  destruct (rewrite_feed_written _ _ _ _ _ H)
    as (channel0 & ch1 & w1 & items & Hc0 & Hcov & Hit & -> & _).
  rewrite Hc in Hc0. injection Hc0 as <-.
  assert (He1 : extends w1 w2).
  { eapply extends_trans; [|exact He].
    eapply step_files, process_items_grows; exact Hit. }
  assert (Hnames1 : enclosures_name_files (children ch1) = true).
  { rewrite (enclosures_name_files_Forall2 _ _
               (download_cover_enclosures _ _ _ _ _ Hcov)). exact Hnames. }
  unfold rewrite_feed, bind. rewrite Hc.
  rewrite (download_cover_replays env t2 now2 Hall channel _ _ _ Hcov w2 He1).
  rewrite (process_items_replays env t2 now2 Hall (children ch1) Hnames1
             _ _ _ Hit w2 He).
  cbn [ret]. f_equal. f_equal. unfold with_build_date.
  rewrite (update_replaced_child "channel" _ root channel _ Hc).
  - rewrite <- (update_feed_metadata_again env (second_run t2 now2 env)).
    reflexivity.
  - rewrite tag_update_feed_metadata, tag_with_children.
    rewrite (proj1 (download_cover_equiv _ _ _ _ _ Hcov)).
    destruct (find_split _ _ _ Hc) as (_ & _ & _ & _ & Ht).
    apply has_tag_true. exact Ht.
Qed.

End SecondRun.

(** * The claims *)

(** ** C9: the name of the file for the path [My Episode #5!.mp3] *)

(** C9, as stated, does not hold: a URL whose path component is
    [My Episode #5!.mp3] is not stored as [My_Episode_5.mp3]; the hash
    and the exclamation mark are not in the strip set and stay. *)
Lemma C9_name_is_not_stripped_of_punctuation :
  ~ (forall url : string,
       OsPath.basename (Urllib.unquote (Urllib.urlparse_path url))
       = "My Episode #5!.mp3" ->
       derive_filename url = "My_Episode_5.mp3").
Proof.
  intros H.
  specialize (H "http://h.example/My%20Episode%20%235!.mp3" eq_refl).
  vm_compute in H. discriminate.
Qed.

(** C9, amended: for a URL whose path component is [My Episode #5!.mp3]
    the derived name is [My_Episode_#5!.mp3] (spaces become underscores,
    the hash and the exclamation mark are kept), and a completed transfer
    writes the file under that name. *)
Theorem C9_episode_name_keeps_hash_and_bang
    (env : Env) (w : World) (folder : Folder) (url : string) (size : N) :
  OsPath.basename (Urllib.unquote (Urllib.urlparse_path url))
  = "My Episode #5!.mp3" ->
  urlparse_raises env url = false ->
  path_exists w (folder, "My_Episode_#5!.mp3") = false ->
  transfer env (length (requests w)) url = Complete size ->
  derive_filename url = "My_Episode_#5!.mp3"
  /\ exists w',
       download_file env (Some url) folder w
       = (Ok (Some (folder, "My_Episode_#5!.mp3")), w')
       /\ files folder w' !! "My_Episode_#5!.mp3" = Some size.
Proof.
  intros Hb Hp Hx Ht.
  assert (Hd : derive_filename url = "My_Episode_#5!.mp3")
    by (unfold derive_filename; rewrite Hb; reflexivity).
  split; [exact Hd|].
  destruct url as [|c u]; [discriminate Hb|].
  unfold download_file. rewrite Hp, Hd, Hx, Ht.
  eexists. split; [reflexivity|].
  apply (lookup_write_file _ (folder, "My_Episode_#5!.mp3")).
Qed.

Lemma C9_episode_name_witness :
  derive_filename "http://h.example/My%20Episode%20%235!.mp3" = "My_Episode_#5!.mp3"
  /\ exists w',
       download_file (sample_env 200 feed_one_episode (completes_with 7))
         (Some "http://h.example/My%20Episode%20%235!.mp3") MediaFolder empty_world
       = (Ok (Some (MediaFolder, "My_Episode_#5!.mp3")), w')
       /\ files MediaFolder w' !! "My_Episode_#5!.mp3" = Some 7%N.
Proof.
  apply (C9_episode_name_keeps_hash_and_bang
           (sample_env 200 feed_one_episode (completes_with 7)) empty_world
           MediaFolder "http://h.example/My%20Episode%20%235!.mp3" 7%N);
    reflexivity.
Defined.

(** ** C5: how the destination filename is derived *)

(** C5, as stated, does not hold: the code percent-decodes the whole path
    before it takes the last segment, so an encoded slash starts a new
    segment; taking the segment first gives another name. *)
Lemma C5_segment_before_decoding_differs :
  ~ (forall url : string,
       url <> "" ->
       derive_filename url = SpecWords.filename_segment_then_decode url).
Proof.
  intros H.
  assert (Hne : "http://h.example/a%2Fb.mp3" <> "") by discriminate.
  specialize (H "http://h.example/a%2Fb.mp3" Hne).
  vm_compute in H. discriminate.
Qed.

(** C5, amended: the destination filename is the URL path, percent-decoded,
    then its last segment, then without exactly the nine characters of the
    strip set, then trimmed of surrounding whitespace, then with each
    remaining space replaced by an underscore; where decoding the last
    segment brings in no slash this is also the result of taking the
    segment first. *)
Theorem C5_filename_is_cleaned_last_segment_of_decoded_path (url : string) :
  derive_filename url = SpecWords.filename_decode_then_segment url
  /\ (PyStr.contains "/"
        (Urllib.unquote (SpecWords.last_segment (Urllib.urlparse_path url))) = false ->
      derive_filename url = SpecWords.filename_segment_then_decode url).
Proof.
  unfold derive_filename, SpecWords.filename_decode_then_segment,
    SpecWords.filename_segment_then_decode.
  rewrite sanitize_clean, basename_last_segment. split; [reflexivity|].
  intros H. rewrite (unquote_last_segment _ H). reflexivity.
Qed.

Lemma C5_filename_witness :
  derive_filename "https://cdn.example.org/shows/ep%2001.mp3?x=1#t"
  = SpecWords.filename_segment_then_decode
      "https://cdn.example.org/shows/ep%2001.mp3?x=1#t".
Proof.
  apply (proj2 (C5_filename_is_cleaned_last_segment_of_decoded_path
                  "https://cdn.example.org/shows/ep%2001.mp3?x=1#t")).
  reflexivity.
Defined.

(** ** C1: a failed download leaves the reference alone and the run goes on *)

(** C1, as stated, does not hold for the written feed: the element taken
    as the cover can be the image of an episode; when its transfer breaks
    off, the cover step leaves the reference alone, but the loop comes to
    the same element again, finds the partial file and rewrites the
    reference, although the only transfer made for it failed. *)
Lemma C1_failed_cover_ends_rewritten :
  ~ (forall env rss_url w tree w' status content root channel image w1,
       process_feed env rss_url w = (Ok tree, w') ->
       fetch env rss_url = Response status content ->
       fromstring env content = Some root ->
       find "channel" root = Some channel ->
       find_desc ITUNES_IMAGE channel = Some image ->
       download_file env (get "href" image) ImagesFolder w = (Ok None, w1) ->
       exists channel',
         find "channel" tree = Some channel'
         /\ find_desc ITUNES_IMAGE channel' = Some image).
Proof.
  intros H.
  destruct (H interrupted_image_env "http://h.example/feed" empty_world
              (tree_of interrupted_image_run) (snd interrupted_image_run)
              200%N "feed" feed_episode_image (channel_of feed_episode_image)
              (leaf ITUNES_IMAGE [("href", "http://h.example/b.jpg")])
              (write_file (ImagesFolder, "b.jpg") 5
                 (log_request "http://h.example/b.jpg" empty_world)))
    as (channel' & Hc & Hi); try (vm_compute; reflexivity).
  vm_compute in Hc. injection Hc as <-.
  vm_compute in Hi. discriminate.
Qed.

(** C1, amended: when [download_file] returns [None] for an asset, the
    step that asked for it leaves the tree as it is and the run goes on
    with the next asset.  In the written feed, an enclosure whose download
    failed has its original attributes, at its place; the image of an
    episode whose download in the loop failed is the original element,
    provided the cover step left its item as it was; a cover image that
    lies outside the items and whose download failed is the original
    element. *)
Theorem C1_failed_download_keeps_reference (env : Env) (w : World) :
  (forall w' channel image,
     find_desc ITUNES_IMAGE channel = Some image ->
     download_file env (get "href" image) ImagesFolder w = (Ok None, w') ->
     download_cover env channel w = (Ok channel, w'))
  /\ (forall w' item enclosure url,
        find "enclosure" item = Some enclosure ->
        get "url" enclosure = Some url ->
        download_file env (Some url) MediaFolder w = (Ok None, w') ->
        download_enclosure env item w = (Ok item, w')
        /\ process_item env item w = download_episode_image env item w')
  /\ (forall w' item image,
        find_desc ITUNES_IMAGE item = Some image ->
        download_file env (get "href" image) ImagesFolder w = (Ok None, w') ->
        download_episode_image env item w = (Ok item, w'))
  /\ (forall w' item rest,
        has_tag "item" item = true ->
        process_item env item w = (Ok item, w') ->
        process_items env (item :: rest) w
        = bind (process_items env rest) (fun rest' => ret (item :: rest')) w')
  /\ (forall rss_url status content root channel tree w',
        fetch env rss_url = Response status content ->
        fromstring env content = Some root ->
        find "channel" root = Some channel ->
        process_feed env rss_url w = (Ok tree, w') ->
        feed_xml w' = Some tree
        /\ (forall i item enclosure url w_a,
              children channel !! i = Some item ->
              has_tag "item" item = true ->
              find "enclosure" item = Some enclosure ->
              get "url" enclosure = Some url ->
              download_file env (Some url) MediaFolder
                (world_at_item env channel w i) = (Ok None, w_a) ->
              exists channel' item' enclosure',
                find "channel" tree = Some channel'
                /\ children channel' !! i = Some item'
                /\ find "enclosure" item' = Some enclosure'
                /\ attrib enclosure' = attrib enclosure)
        /\ (forall ch1 w1 i item image w_a,
              download_cover env channel w = (Ok ch1, w1) ->
              children channel !! i = Some item ->
              children ch1 !! i = Some item ->
              has_tag "item" item = true ->
              find_desc ITUNES_IMAGE item = Some image ->
              download_file env (get "href" image) ImagesFolder
                (snd (download_enclosure env item (world_at_item env channel w i)))
              = (Ok None, w_a) ->
              exists channel' item',
                find "channel" tree = Some channel'
                /\ children channel' !! i = Some item'
                /\ find_desc ITUNES_IMAGE item' = Some image)
        /\ (forall pre c post image w1,
              children channel = (pre ++ c :: post)%list ->
              Forall (fun y => iter_first ITUNES_IMAGE y = None) pre ->
              has_tag "item" c = false ->
              iter_first ITUNES_IMAGE c = Some image ->
              download_file env (get "href" image) ImagesFolder w = (Ok None, w1) ->
              exists channel',
                find "channel" tree = Some channel'
                /\ find_desc ITUNES_IMAGE channel' = Some image)).
Proof.
  split; [|split; [|split; [|split]]].
  - intros w' channel image Hf Hd. unfold download_cover, bind.
    rewrite Hf, Hd. reflexivity.
  - intros w' item enclosure url Hf Hu Hd.
    assert (He : download_enclosure env item w = (Ok item, w')).
    { unfold download_enclosure, bind. rewrite Hf, Hu, Hd. reflexivity. }
    split; [exact He|]. unfold process_item, bind. rewrite He. reflexivity.
  - intros w' item image Hf Hd. unfold download_episode_image, bind.
    rewrite Hf, Hd. reflexivity.
  - intros w' item rest Ht Hp. cbn [process_items]. rewrite Ht.
    unfold bind. rewrite Hp.
    destruct (process_items env rest w') as [[rest'|e] w'']; reflexivity.
  - intros rss_url status content root channel tree w' Hfetch Hparse Hc H.
    destruct (process_feed_inv _ _ _ _ _ H)
      as (status0 & content0 & root0 & w2 & Hf0 & Hp0 & Hr & ->).
    rewrite Hfetch in Hf0. injection Hf0 as <- <-.
    rewrite Hparse in Hp0. injection Hp0 as <-.
    split; [reflexivity|].
    destruct (rewrite_feed_written _ _ _ _ _ Hr)
      as (channel0 & ch1 & w1 & items & Hc0 & Hcov & Hit & _ & Hw).
    rewrite Hc in Hc0. injection Hc0 as <-.
    split; [|split].
    + intros i item enclosure url w_a Hi Ht Hf Hu Hd.
      pose proof (download_cover_enclosures _ _ _ _ _ Hcov) as HF.
      destruct (Forall2_lookup_l _ _ _ _ _ HF Hi) as (item1 & Hi1 & Ht1 & Hk).
      specialize (Hk Ht). rewrite Hf in Hk. destruct Hk as (enc1 & Hf1 & Ha1).
      assert (Ht1' : has_tag "item" item1 = true)
        by (unfold has_tag in *; rewrite Ht1; exact Ht).
      destruct (rewrite_feed_item_at _ _ _ _ _ _ _ _ _ _ Hr Hc Hcov Hi1 Ht1')
        as (item' & w_i' & channel' & Hpi & _ & Hch & Hl).
      unfold process_item, bind in Hpi.
      assert (He : download_enclosure env item1 (world_at_item env channel w i)
                   = (Ok item1, w_a)).
      { unfold download_enclosure, bind. rewrite Hf1. unfold get. rewrite Ha1.
        fold (get "url" enclosure). rewrite Hu, Hd. reflexivity. }
      rewrite He in Hpi.
      destruct (download_episode_image_enclosure _ _ _ _ _ Hpi) as [_ Hk].
      specialize (Hk Ht1'). rewrite Hf1 in Hk. destruct Hk as (enc2 & Hf2 & Ha2).
      exists channel', item', enc2. repeat split; try assumption. congruence.
    + intros ch0 w0 i item image w_a Hcov0 Hi Hi1 Ht Hf Hd.
      rewrite Hcov in Hcov0. injection Hcov0 as <- <-.
      destruct (rewrite_feed_item_at _ _ _ _ _ _ _ _ _ _ Hr Hc Hcov Hi1 Ht)
        as (item' & w_i' & channel' & Hpi & _ & Hch & Hl).
      unfold process_item, bind in Hpi.
      destruct (download_enclosure env item (world_at_item env channel w i))
        as [[i1|ex] wb] eqn:Ee; [|discriminate].
      cbn [snd] in Hd.
      pose proof (download_enclosure_image _ _ _ _ _ Ee) as Hsame.
      unfold download_episode_image, bind in Hpi.
      rewrite Hsame, Hf, Hd in Hpi. injection Hpi as <- <-.
      exists channel', i1. repeat split; try assumption. congruence.
    + intros pre c post image w0 E Hpre Htc Hic Hd.
      assert (Hfd : find_desc ITUNES_IMAGE channel = Some image).
      { unfold find_desc. rewrite E, first_some_app by exact Hpre.
        rewrite first_some_cons, Hic. reflexivity. }
      assert (Hcov' : download_cover env channel w = (Ok channel, w0))
        by (unfold download_cover, bind; rewrite Hfd, Hd; reflexivity).
      rewrite Hcov in Hcov'. injection Hcov' as -> ->.
      eexists. split; [exact Hw|].
      pose proof (process_items_kept _ _ _ _ _ Hit) as HL.
      pose proof (update_feed_metadata_kept env (with_children items channel)) as HM.
      rewrite children_with_children in HM.
      assert (HT : Forall2
                     (fun a b => (iter_first ITUNES_IMAGE a = None ->
                                  iter_first ITUNES_IMAGE b = None)
                                 /\ (has_tag "item" a = false ->
                                     iter_first ITUNES_IMAGE b
                                     = iter_first ITUNES_IMAGE a))
                     (children channel)
                     (children (update_feed_metadata env
                                  (with_children items channel)))).
      { eapply Forall2_compose; [|exact HL | exact HM].
        intros a x b [Hs Hn] (_ & Hi & _). split.
        - intros Ha. rewrite Hi. exact (iter_first_shape_none _ _ _ Hs Ha).
        - intros Ha. rewrite Hi, (Hn Ha). reflexivity. }
      rewrite E in HT. apply Forall2_app_inv_l in HT.
      destruct HT as (k1 & k2 & H1 & H2 & Ek).
      apply Forall2_cons_inv_l in H2. destruct H2 as (y & k3 & [_ Hy] & _ & ->).
      unfold find_desc. rewrite Ek, first_some_app.
      * rewrite first_some_cons, (Hy Htc), Hic. reflexivity.
      * eapply Forall2_none_right; [|exact H1 | exact Hpre].
        intros a b [Hn _]. exact Hn.
Qed.

Lemma C1_failed_download_witness :
  (exists channel' item' enclosure',
     find "channel" (tree_of interrupted_image_run) = Some channel'
     /\ children channel' !! 2 = Some item'
     /\ find "enclosure" item' = Some enclosure'
     /\ attrib enclosure' = [("url", "http://h.example/a.mp3"); ("length", "1")])
  /\ (exists channel' item',
        find "channel" (tree_of refused_image_run) = Some channel'
        /\ children channel' !! 3 = Some item'
        /\ find_desc ITUNES_IMAGE item'
           = Some (leaf ITUNES_IMAGE [("href", "http://h.example/b.jpg")]))
  /\ (exists channel',
        find "channel" (tree_of refused_full_run) = Some channel'
        /\ find_desc ITUNES_IMAGE channel'
           = Some (leaf ITUNES_IMAGE [("href", "http://h.example/cover.jpg")])).
Proof.
  split; [|split].
  - apply (proj1 (proj2
             (proj2 (proj2 (proj2 (proj2
                (C1_failed_download_keeps_reference interrupted_image_env
                   empty_world))))
                "http://h.example/feed" 200%N "feed" feed_episode_image
                (channel_of feed_episode_image) (tree_of interrupted_image_run)
                (snd interrupted_image_run) eq_refl eq_refl eq_refl eq_refl))
             2 (episode "http://h.example/a.mp3" [])
             (leaf "enclosure" [("url", "http://h.example/a.mp3"); ("length", "1")])
             "http://h.example/a.mp3"
             (write_file (MediaFolder, "a.mp3") 5
                (log_request "http://h.example/a.mp3"
                   (write_file (ImagesFolder, "b.jpg") 5
                      (log_request "http://h.example/b.jpg" empty_world)))));
      vm_compute; reflexivity.
  - apply (proj1 (proj2 (proj2
             (proj2 (proj2 (proj2 (proj2
                (C1_failed_download_keeps_reference refused_image_env
                   empty_world))))
                "http://h.example/feed" 200%N "feed" feed_episode_image
                (channel_of feed_episode_image) (tree_of refused_image_run)
                (snd refused_image_run) eq_refl eq_refl eq_refl eq_refl)))
             (channel_of feed_episode_image)
             (log_request "http://h.example/b.jpg" empty_world)
             3
             (episode "http://h.example/b.mp3"
                [leaf ITUNES_IMAGE [("href", "http://h.example/b.jpg")]])
             (leaf ITUNES_IMAGE [("href", "http://h.example/b.jpg")])
             (snd (rewrite_feed refused_image_env feed_episode_image empty_world)));
      vm_compute; reflexivity.
  - apply (proj2 (proj2 (proj2
             (proj2 (proj2 (proj2 (proj2
                (C1_failed_download_keeps_reference refused_full_env
                   empty_world))))
                "http://h.example/feed" 200%N "feed" feed_full
                (channel_of feed_full) (tree_of refused_full_run)
                (snd refused_full_run) eq_refl eq_refl eq_refl eq_refl)))
             [text_leaf "title" "Show";
              text_leaf "lastBuildDate" "Mon, 01 Jan 2001 00:00:00 +0000";
              leaf ATOM_LINK [("rel", "self"); ("href", "http://h.example/feed")];
              leaf ATOM_LINK [("rel", "alternate"); ("href", "http://h.example/")]]
             (leaf ITUNES_IMAGE [("href", "http://h.example/cover.jpg")])
             [node "image" [text_leaf "url" "http://h.example/cover.jpg"];
              episode "http://h.example/a.mp3" [];
              episode "http://h.example/b.mp3"
                [leaf ITUNES_IMAGE [("href", "http://h.example/b.jpg")]]]
             (leaf ITUNES_IMAGE [("href", "http://h.example/cover.jpg")])
             (log_request "http://h.example/cover.jpg" empty_world)).
    + reflexivity.
    + repeat constructor.
    + reflexivity.
    + reflexivity.
    + reflexivity.
Defined.

(** ** C2: the rewritten length is the size of the file on disk *)



(** ** C3: the items keep their order and their number *)

(** C3: when a run completes, the document written to [feed.xml] has the
    items of the parsed input document, in the same order and number; an
    output item differs from the input item at its position in attribute
    values only, and the whole document keeps its tags and nesting. *)
Theorem C3_items_keep_order_and_count
    (env : Env) (rss_url : string) (w : World) (tree : Element) (w' : World) :
  process_feed env rss_url w = (Ok tree, w') ->
  exists status content root,
    fetch env rss_url = Response status content
    /\ fromstring env content = Some root
    /\ feed_xml w' = Some tree
    /\ List.map strip_attrs (feed_items tree) = List.map strip_attrs (feed_items root)
    /\ length (feed_items tree) = length (feed_items root)
    /\ shape tree = shape root.
Proof.
  intros H. destruct (process_feed_inv _ _ _ _ _ H)
    as (status & content & root & w1 & Hf & Hp & Hr & ->).
  exists status, content, root.
  destruct (rewrite_feed_channel _ _ _ _ _ Hr)
    as (channel & ch2 & Hc & Hc' & _ & HF & Hs).
  assert (Hitems : List.map strip_attrs (feed_items tree)
                   = List.map strip_attrs (feed_items root)).
  { unfold feed_items. rewrite Hc, Hc'. unfold findall. apply items_of_equiv.
    eapply Forall2_item_equiv_trans; [exact HF|].
    apply update_feed_metadata_equiv. }
  repeat split; auto.
  apply (f_equal (@List.length Element)) in Hitems.
  rewrite !length_map in Hitems. exact Hitems.
Qed.

Lemma C3_items_witness :
  exists status content root,
    fetch full_env "http://h.example/feed" = Response status content
    /\ fromstring full_env content = Some root
    /\ feed_xml (snd full_run) = Some (tree_of full_run)
    /\ List.map strip_attrs (feed_items (tree_of full_run))
       = List.map strip_attrs (feed_items root)
    /\ length (feed_items (tree_of full_run)) = length (feed_items root)
    /\ shape (tree_of full_run) = shape root.
Proof.
  apply (C3_items_keep_order_and_count full_env "http://h.example/feed"
           empty_world (tree_of full_run) (snd full_run)).
  vm_compute. reflexivity.
Defined.

(** ** C6: the metadata update *)

(** C6, as stated, does not hold for every input feed: a channel without a
    [lastBuildDate] element gets no build timestamp, the update is guarded
    by the presence of the element and creates none. *)
Lemma C6_no_timestamp_without_element :
  ~ (forall env rss_url w tree w',
       process_feed env rss_url w = (Ok tree, w') ->
       exists channel last_build,
         find "channel" tree = Some channel
         /\ find "lastBuildDate" channel = Some last_build
         /\ text last_build = Some (DateTime.strftime_rfc (utcnow env))).
Proof.
  intros H.
  destruct (H (sample_env 200 feed_one_episode (completes_with 10))
              "http://h.example/feed" empty_world
              (tree_of (process_feed (sample_env 200 feed_one_episode (completes_with 10))
                          "http://h.example/feed" empty_world))
              (snd (process_feed (sample_env 200 feed_one_episode (completes_with 10))
                      "http://h.example/feed" empty_world)))
    as (channel & lb & Hc & Hl & _).
  { vm_compute. reflexivity. }
  vm_compute in Hc. injection Hc as <-. vm_compute in Hl. discriminate.
Qed.

(** C6, amended: in every run that reaches the metadata update, whatever
    the downloads did, the first [lastBuildDate] child of the channel, when
    the channel has one, gets as text the current UTC time in the pattern
    [Day, DD Mon YYYY HH:MM:SS +0000] (a channel without the element gets
    none), and every Atom link child of the channel whose [rel] is [self]
    has its [href] set to [feed.xml]. *)
Theorem C6_metadata_is_updated
    (env : Env) (rss_url : string) (w : World) (tree : Element) (w' : World) :
  process_feed env rss_url w = (Ok tree, w') ->
  exists status content root channel0 channel,
    fetch env rss_url = Response status content
    /\ fromstring env content = Some root
    /\ find "channel" root = Some channel0
    /\ find "channel" tree = Some channel
    /\ (is_Some (find "lastBuildDate" channel0) ->
        exists last_build,
          find "lastBuildDate" channel = Some last_build
          /\ text last_build = Some (DateTime.strftime_rfc (utcnow env)))
    /\ (find "lastBuildDate" channel0 = None -> find "lastBuildDate" channel = None)
    /\ (forall link, In link (findall ATOM_LINK channel) ->
                     get "rel" link = Some "self" ->
                     get "href" link = Some "feed.xml")
    /\ matches rfc_pattern (DateTime.strftime_rfc (utcnow env)) = true.
Proof.
  intros H. destruct (process_feed_inv _ _ _ _ _ H)
    as (status & content & root & w1 & Hf & Hp & Hr & ->).
  destruct (rewrite_feed_channel _ _ _ _ _ Hr)
    as (channel0 & ch2 & Hc & Hc' & _ & HF & _).
  exists status, content, root, channel0, (update_feed_metadata env ch2).
  destruct (update_feed_metadata_spec env ch2) as (Hlb & Hnone & Hlinks).
  pose proof (first_pick_Forall2 item_equiv "lastBuildDate" _ _
                (fun a b (Hab : item_equiv a b) => proj1 Hab) HF) as HP.
  change (first_some (pick "lastBuildDate") (children channel0))
    with (find "lastBuildDate" channel0) in HP.
  change (first_some (pick "lastBuildDate") (children ch2))
    with (find "lastBuildDate" ch2) in HP.
  repeat split; auto.
  - intros [lb0 Hlb0]. rewrite Hlb0 in HP. destruct HP as (lb2 & Hlb2 & _).
    exists (set_text (DateTime.strftime_rfc (utcnow env)) lb2).
    split; [apply Hlb; exact Hlb2 | destruct lb2; reflexivity].
  - intros Hn. rewrite Hn in HP. apply Hnone. exact HP.
  - apply strftime_rfc_pattern.
Qed.

Lemma C6_metadata_witness :
  exists status content root channel0 channel,
    fetch full_env "http://h.example/feed" = Response status content
    /\ fromstring full_env content = Some root
    /\ find "channel" root = Some channel0
    /\ find "channel" (tree_of full_run) = Some channel
    /\ (is_Some (find "lastBuildDate" channel0) ->
        exists last_build,
          find "lastBuildDate" channel = Some last_build
          /\ text last_build = Some (DateTime.strftime_rfc (utcnow full_env)))
    /\ (find "lastBuildDate" channel0 = None -> find "lastBuildDate" channel = None)
    /\ (forall link, In link (findall ATOM_LINK channel) ->
                     get "rel" link = Some "self" ->
                     get "href" link = Some "feed.xml")
    /\ matches rfc_pattern (DateTime.strftime_rfc (utcnow full_env)) = true.
Proof.
  apply (C6_metadata_is_updated full_env "http://h.example/feed"
           empty_world (tree_of full_run) (snd full_run)).
  vm_compute. reflexivity.
Defined.

(** ** C7: failures of the feed fetch *)

(** C7, as stated, does not hold for a non-success status: the status code
    of the response is never looked at, so a 404 whose body parses as a
    feed is processed like any other, assets are requested and the feed is
    written. *)
Lemma C7_error_status_is_not_fatal :
  ~ (forall env rss_url w status content,
       fetch env rss_url = Response status content ->
       (status < 200 \/ 300 <= status)%N ->
       exists e, main env rss_url w = (ErrorReported e, w)).
Proof.
  intros H.
  destruct (H (sample_env 404 feed_one_episode (completes_with 10))
              "http://h.example/feed" empty_world 404%N "feed" eq_refl)
    as [e He].
  { right. discriminate. }
  vm_compute in He. discriminate.
Qed.

(** C7, amended: when [requests.get] on the feed URL raises, the run
    aborts with that error before anything is parsed, requested or written
    (the world is as it was); a response is parsed and processed whatever
    its status code. *)
Theorem C7_fetch_exception_aborts_status_is_ignored
    (env : Env) (rss_url : string) (w : World) :
  (fetch env rss_url = FetchRaises ->
   process_feed env rss_url w = (Raise ConnectionError, w)
   /\ (makedirs_raises env = false ->
       main env rss_url w = (ErrorReported ConnectionError, w)))
  /\ (forall status content,
        fetch env rss_url = Response status content ->
        process_feed env rss_url w
        = bind (parse_feed env content)
            (fun root => bind (rewrite_feed env root)
               (fun tree => tree_write env tree)) w).
Proof.
  split.
  - intros Hf.
    assert (Hp : process_feed env rss_url w = (Raise ConnectionError, w))
      by (unfold process_feed, requests_get, bind; rewrite Hf; reflexivity).
    split; [exact Hp|]. intros Hm. unfold main. rewrite Hm, Hp. reflexivity.
  - intros status content Hf.
    unfold process_feed, requests_get, bind at 1. rewrite Hf. reflexivity.
Qed.

Lemma C7_fetch_exception_witness :
  process_feed unreachable_env "http://h.example/feed" empty_world
  = (Raise ConnectionError, empty_world)
  /\ (makedirs_raises unreachable_env = false ->
      main unreachable_env "http://h.example/feed" empty_world
      = (ErrorReported ConnectionError, empty_world)).
Proof.
  apply (proj1 (C7_fetch_exception_aborts_status_is_ignored
                  unreachable_env "http://h.example/feed" empty_world)).
  reflexivity.
Defined.

(** ** C8: the plain image of the channel *)

(** C8, as stated, does not hold: a feed with the cover only in the plain
    [image/url] form keeps that URL; the plain form is not looked up on its
    own and nothing is downloaded for it. *)
Lemma C8_plain_cover_alone_is_not_rewritten :
  ~ (forall env root w tree w' channel url_element,
       rewrite_feed env root w = (Ok tree, w') ->
       find "channel" root = Some channel ->
       find_desc ITUNES_IMAGE channel = None ->
       find_path "image" "url" channel = Some url_element ->
       exists channel' url_element',
         find "channel" tree = Some channel'
         /\ find_path "image" "url" channel' = Some url_element'
         /\ text url_element' <> text url_element).
Proof.
  intros H.
  destruct (H (sample_env 200 feed_plain_cover (completes_with 10))
              feed_plain_cover empty_world
              (tree_of (rewrite_feed (sample_env 200 feed_plain_cover (completes_with 10))
                          feed_plain_cover empty_world))
              (snd (rewrite_feed (sample_env 200 feed_plain_cover (completes_with 10))
                      feed_plain_cover empty_world))
              (channel_of feed_plain_cover)
              (text_leaf "url" "http://h.example/cover.jpg"))
    as (channel' & u' & Hc & Hu & Ht); try (vm_compute; reflexivity).
  vm_compute in Hc. injection Hc as <-.
  vm_compute in Hu. injection Hu as <-.
  apply Ht. reflexivity.
Qed.

(** C8, amended: the plain [image/url] element is rewritten only together
    with the podcast-namespace image the cover lookup finds among all the
    descendants of the channel, the items included.  When there is none,
    the cover step changes nothing and requests nothing, and the written
    feed has the plain [image/url] element as it was.  When there is one
    and its download succeeds, the cover step sets its [href] and the text
    of the plain [image/url] element, if there is one, to the relative
    path of the downloaded file, and the written feed has that path as the
    text of the plain element; when its download fails, the written feed
    has the plain element as it was. *)
Theorem C8_plain_image_follows_namespaced_cover (env : Env) (w : World) :
  (forall channel,
     find_desc ITUNES_IMAGE channel = None ->
     download_cover env channel w = (Ok channel, w))
  /\ (forall channel image p w',
        find_desc ITUNES_IMAGE channel = Some image ->
        download_file env (get "href" image) ImagesFolder w = (Ok (Some p), w') ->
        exists href channel',
          get "href" image = Some href
          /\ p = (ImagesFolder, derive_filename href)
          /\ (is_dir_name (derive_filename href) = false ->
              relpath p = "images/" ++ derive_filename href)
          /\ download_cover env channel w = (Ok channel', w')
          /\ find_desc ITUNES_IMAGE channel' = Some (set "href" (relpath p) image)
          /\ get "href" (set "href" (relpath p) image) = Some (relpath p)
          /\ (is_Some (find_path "image" "url" channel) ->
              exists url_element',
                find_path "image" "url" channel' = Some url_element'
                /\ text url_element' = Some (relpath p)))
  /\ (forall rss_url status content root channel tree w',
        fetch env rss_url = Response status content ->
        fromstring env content = Some root ->
        find "channel" root = Some channel ->
        process_feed env rss_url w = (Ok tree, w') ->
        exists channel',
          feed_xml w' = Some tree
          /\ find "channel" tree = Some channel'
          /\ (find_desc ITUNES_IMAGE channel = None ->
              find_path "image" "url" channel' = find_path "image" "url" channel)
          /\ (forall image w1,
                find_desc ITUNES_IMAGE channel = Some image ->
                download_file env (get "href" image) ImagesFolder w = (Ok None, w1) ->
                find_path "image" "url" channel' = find_path "image" "url" channel)
          /\ (forall image p w1,
                find_desc ITUNES_IMAGE channel = Some image ->
                download_file env (get "href" image) ImagesFolder w
                = (Ok (Some p), w1) ->
                is_Some (find_path "image" "url" channel) ->
                exists url_element',
                  find_path "image" "url" channel' = Some url_element'
                  /\ text url_element' = Some (relpath p))).
Proof.
  assert (Hstep : forall channel image p w',
            find_desc ITUNES_IMAGE channel = Some image ->
            download_file env (get "href" image) ImagesFolder w = (Ok (Some p), w') ->
            exists channel',
              download_cover env channel w = (Ok channel', w')
              /\ find_desc ITUNES_IMAGE channel' = Some (set "href" (relpath p) image)
              /\ (is_Some (find_path "image" "url" channel) ->
                  exists url_element',
                    find_path "image" "url" channel' = Some url_element'
                    /\ text url_element' = Some (relpath p))).
  { intros channel image p w' Hf Hd.
    destruct (download_cover_some env channel image w w' p Hf Hd) as [Hc Hi].
    eexists. split; [exact Hc|]. split; [exact Hi|].
    intros Hu.
    assert (Hs : shape (update_desc ITUNES_IMAGE (set "href" (relpath p)) channel)
                 = shape channel)
      by (apply erase_update_desc; intros x; apply erase_set).
    destruct (find_path_shape "image" "url" _ _ Hs Hu) as [u1 Hu1].
    exists (set_text (relpath p) u1). split.
    + apply find_path_update_path; [exact Hu1 | apply tag_set_text].
    + destruct u1; reflexivity. }
  split; [|split].
  - intros channel Hn. unfold download_cover. rewrite Hn. reflexivity.
  - intros channel image p w' Hf Hd.
    destruct (download_file_some _ _ _ _ _ _ Hd) as [_ (href & Hh & _ & _ & Hp)].
    destruct (Hstep channel image p w' Hf Hd) as (channel' & Hc & Hi & Hu).
    exists href, channel'. split; [exact Hh|]. split; [exact Hp|].
    split; [intros Hfile; subst p; apply (relpath_file ImagesFolder); exact Hfile|].
    split; [exact Hc|]. split; [exact Hi|]. split; [apply get_set_eq | exact Hu].
  - intros rss_url status content root channel tree w' Hfetch Hparse Hc H.
    destruct (process_feed_inv _ _ _ _ _ H)
      as (status0 & content0 & root0 & w2 & Hf0 & Hp0 & Hr & ->).
    rewrite Hfetch in Hf0. injection Hf0 as <- <-.
    rewrite Hparse in Hp0. injection Hp0 as <-.
    destruct (rewrite_feed_written _ _ _ _ _ Hr)
      as (channel0 & ch1 & w1 & items & Hc0 & Hcov & Hit & _ & Hw).
    rewrite Hc in Hc0. injection Hc0 as <-.
    pose proof (plain_image_after_cover _ _ _ _ _ Hit) as Hplain.
    eexists. split; [reflexivity|]. split; [exact Hw|]. rewrite Hplain.
    split; [|split].
    + intros Hn. unfold download_cover in Hcov. rewrite Hn in Hcov.
      injection Hcov as <- <-. reflexivity.
    + intros image w0 Hf Hd. unfold download_cover, bind in Hcov.
      rewrite Hf, Hd in Hcov. injection Hcov as <- <-. reflexivity.
    + intros image p w0 Hf Hd Hu.
      destruct (Hstep channel image p w0 Hf Hd) as (channel' & Hc' & _ & Hu').
      rewrite Hcov in Hc'. injection Hc' as <- <-. exact (Hu' Hu).
Qed.

Lemma C8_plain_image_witness :
  (exists channel',
     find "channel" (tree_of plain_cover_run) = Some channel'
     /\ find_path "image" "url" channel'
        = Some (text_leaf "url" "http://h.example/cover.jpg"))
  /\ (exists channel' url_element',
        find "channel" (tree_of episode_image_run) = Some channel'
        /\ find_path "image" "url" channel' = Some url_element'
        /\ text url_element' = Some "images/b.jpg").
Proof.
  split.
  - destruct (proj2 (proj2 (C8_plain_image_follows_namespaced_cover
                              plain_cover_env empty_world))
                "http://h.example/feed" 200%N "feed" feed_plain_cover
                (channel_of feed_plain_cover) (tree_of plain_cover_run)
                (snd plain_cover_run) eq_refl eq_refl eq_refl eq_refl)
      as (channel' & _ & Hc & Hnone & _).
    exists channel'. split; [exact Hc|]. rewrite (Hnone eq_refl). reflexivity.
  - destruct (proj2 (proj2 (C8_plain_image_follows_namespaced_cover
                              episode_image_env empty_world))
                "http://h.example/feed" 200%N "feed" feed_episode_image
                (channel_of feed_episode_image) (tree_of episode_image_run)
                (snd episode_image_run) eq_refl eq_refl eq_refl eq_refl)
      as (channel' & _ & Hc & _ & _ & Hsome).
    destruct (Hsome (leaf ITUNES_IMAGE [("href", "http://h.example/b.jpg")])
                (ImagesFolder, "b.jpg")
                (write_file (ImagesFolder, "b.jpg") 10
                   (log_request "http://h.example/b.jpg" empty_world))
                eq_refl eq_refl ltac:(eexists; reflexivity))
      as (u' & Hu & Ht).
    exists channel', u'. auto.
Defined.

(** ** C10: the cover lookup reaches into the items *)

(** C10, as stated, does not hold: a channel without a podcast-namespace
    image among its children can have one nested in a child that is not
    an item; the lookup goes through all descendants in document order and
    takes that one, not the image of the episode. *)
Lemma C10_nested_image_comes_first :
  ~ (forall channel,
       (forall c, In c (children channel) -> has_tag ITUNES_IMAGE c = false) ->
       (exists item, In item (children channel) /\ has_tag "item" item = true
                     /\ is_Some (find_desc ITUNES_IMAGE item)) ->
       exists item image,
         In item (children channel) /\ has_tag "item" item = true
         /\ find_desc ITUNES_IMAGE item = Some image
         /\ find_desc ITUNES_IMAGE channel = Some image).
Proof.
  intros H.
  destruct (H channel_nested_image) as (item & image & Hin & Ht & Hi & Hc).
  - intros c Hc. simpl in Hc.
    destruct Hc as [<-|[<-|[<-|[]]]]; reflexivity.
  - exists (episode "http://h.example/a.mp3"
              [leaf ITUNES_IMAGE [("href", "http://h.example/e.jpg")]]).
    split; [simpl; auto|]. split; [reflexivity|]. eexists. reflexivity.
  - simpl in Hin. destruct Hin as [<-|[<-|[<-|[]]]]; try discriminate Ht.
    vm_compute in Hi, Hc. congruence.
Qed.

(** C10, amended: the cover lookup takes the first podcast-namespace image
    among all descendants of the channel.  When no such image lies outside
    the items, neither as a child of the channel nor nested in a child
    that is not an item, and some item contains one, the lookup returns
    the episode image of the first item that has one (the element the
    loop finds for that item); its [href] is what is downloaded as the
    cover, into [images/] under the name derived from it; when the
    download succeeds that element, inside its item, gets the relative
    path of the file as its [href], and so does the plain [image/url]
    element if there is one, as for a channel cover; when it fails, the
    tree is left as it was. *)
Theorem C10_episode_image_taken_as_cover
    (env : Env) (channel : Element) (w : World) :
  (forall c, In c (children channel) -> has_tag "item" c = false ->
             iter_first ITUNES_IMAGE c = None) ->
  (exists item, In item (children channel) /\ has_tag "item" item = true
                /\ is_Some (find_desc ITUNES_IMAGE item)) ->
  exists pre item post image,
    children channel = (pre ++ item :: post)%list
    /\ has_tag "item" item = true
    /\ Forall (fun c => iter_first ITUNES_IMAGE c = None) pre
    /\ find_desc ITUNES_IMAGE item = Some image
    /\ find_desc ITUNES_IMAGE channel = Some image
    /\ (forall p w',
          download_file env (get "href" image) ImagesFolder w = (Ok (Some p), w') ->
          exists href channel' item' image',
            get "href" image = Some href
            /\ p = (ImagesFolder, derive_filename href)
            /\ path_exists w' p = true
            /\ (is_dir_name (derive_filename href) = false ->
                relpath p = "images/" ++ derive_filename href)
            /\ download_cover env channel w = (Ok channel', w')
            /\ children channel' !! length pre = Some item'
            /\ has_tag "item" item' = true
            /\ find_desc ITUNES_IMAGE item' = Some image'
            /\ find_desc ITUNES_IMAGE channel' = Some image'
            /\ get "href" image' = Some (relpath p)
            /\ (forall k, k <> "href" -> get k image' = get k image)
            /\ (is_Some (find_path "image" "url" channel) ->
                exists url_element',
                  find_path "image" "url" channel' = Some url_element'
                  /\ text url_element' = Some (relpath p)))
    /\ (forall w',
          download_file env (get "href" image) ImagesFolder w = (Ok None, w') ->
          download_cover env channel w = (Ok channel, w')).
Proof.
  intros Hout (item0 & Hin0 & Ht0 & Hs0).
  assert (Hitem : forall x, has_tag "item" x = true ->
                            iter_first ITUNES_IMAGE x = find_desc ITUNES_IMAGE x).
  { intros x Hx. rewrite iter_first_unfold. apply has_tag_true in Hx.
    rewrite Hx. reflexivity. }
  destruct (find_desc ITUNES_IMAGE channel) as [image|] eqn:Hf.
  2:{ exfalso. unfold find_desc in Hf. apply first_some_none in Hf.
      rewrite Forall_forall in Hf.
      specialize (Hf item0 (proj2 (list_elem_of_In _ _) Hin0)).
      rewrite (Hitem _ Ht0) in Hf. rewrite Hf in Hs0.
      destruct Hs0 as [? Hs0]. discriminate. }
  pose proof Hf as Hsplit. unfold find_desc in Hsplit.
  apply first_some_split in Hsplit.
  destruct Hsplit as (pre & item & post & E & Hpre & Hi).
  assert (Ht : has_tag "item" item = true).
  { destruct (has_tag "item" item) eqn:Hti; [reflexivity|].
    rewrite Hout in Hi; [discriminate | | exact Hti].
    rewrite E. apply in_or_app. right. left. reflexivity. }
  exists pre, item, post, image.
  split; [exact E|]. split; [exact Ht|]. split; [exact Hpre|].
  split; [rewrite <- (Hitem _ Ht); exact Hi|]. split; [reflexivity|].
  split.
  - intros p w' Hd.
    destruct (download_file_some _ _ _ _ _ _ Hd) as [Hex (href & Hh & _ & _ & Hp)].
    destruct (download_cover_some env channel image w w' p Hf Hd) as [Hc Hfc].
    set (g := set "href" (relpath p)) in *.
    destruct (update_iter_some ITUNES_IMAGE g (fun x => tag_set _ _ x) item image Hi)
      as (item1 & Hu & Hf1 & Htag1).
    assert (Ht1 : has_tag "item" item1 = true)
      by (unfold has_tag in *; rewrite Htag1; exact Ht).
    assert (Hch1 : children (update_desc ITUNES_IMAGE g channel)
                   = (pre ++ item1 :: post)%list).
    { unfold update_desc. rewrite E.
      rewrite (update_first_app _ pre post item item1); [| |exact Hu].
      - apply children_with_children.
      - eapply Forall_impl; [exact Hpre|]. intros y Hy.
        apply update_iter_none. exact Hy. }
    pose proof (update_path_children ITUNES_IMAGE "image" "url"
                  (set_text (relpath p)) (update_desc ITUNES_IMAGE g channel)
                  eq_refl eq_refl (set_text_keeps (relpath p))) as HF.
    assert (Hl : children (update_desc ITUNES_IMAGE g channel) !! length pre
                 = Some item1).
    { rewrite Hch1. rewrite lookup_app_r by lia.
      rewrite Nat.sub_diag. reflexivity. }
    destruct (Forall2_lookup_l _ _ _ _ _ HF Hl) as (y & Hy & Hsame & _).
    rewrite Hsame in Hy.
    2:{ apply has_tag_true in Ht1. unfold has_tag. rewrite Ht1. reflexivity. }
    exists href, (update_path "image" "url" (set_text (relpath p))
                    (update_desc ITUNES_IMAGE g channel)), item1, (g image).
    split; [exact Hh|]. split; [exact Hp|]. split; [exact Hex|].
    split; [intros Hfile; subst p; apply (relpath_file ImagesFolder); exact Hfile|].
    split; [exact Hc|]. split; [exact Hy|].
    split; [exact Ht1|]. split; [rewrite <- (Hitem _ Ht1); exact Hf1|].
    split; [exact Hfc|]. split; [apply get_set_eq|].
    split; [intros k Hk; apply get_set_ne; congruence|].
    intros Hurl.
    assert (Hs : shape (update_desc ITUNES_IMAGE g channel) = shape channel)
      by (apply erase_update_desc; intros x; apply erase_set).
    destruct (find_path_shape "image" "url" _ _ Hs Hurl) as [u1 Hu1].
    exists (set_text (relpath p) u1). split.
    + apply find_path_update_path; [exact Hu1 | apply tag_set_text].
    + destruct u1; reflexivity.
  - intros w' Hd. unfold download_cover, bind. rewrite Hf, Hd. reflexivity.
Qed.

Lemma C10_episode_image_witness :
  exists channel' item' image' url_element',
    download_cover episode_image_env (channel_of feed_episode_image) empty_world
    = (Ok channel',
       write_file (ImagesFolder, "b.jpg") 10
         (log_request "http://h.example/b.jpg" empty_world))
    /\ children channel' !! 3 = Some item'
    /\ has_tag "item" item' = true
    /\ find_desc ITUNES_IMAGE item' = Some image'
    /\ find_desc ITUNES_IMAGE channel' = Some image'
    /\ get "href" image' = Some "images/b.jpg"
    /\ find_path "image" "url" channel' = Some url_element'
    /\ text url_element' = Some "images/b.jpg".
Proof.
  destruct (C10_episode_image_taken_as_cover episode_image_env
              (channel_of feed_episode_image) empty_world)
    as (pre & item & post & image & E & Ht & Hpre & Hfi & Hfc & Hsome & _).
  - intros c Hc Hn. simpl in Hc.
    destruct Hc as [<-|[<-|[<-|[<-|[]]]]]; try reflexivity; discriminate Hn.
  - exists (episode "http://h.example/b.mp3"
              [leaf ITUNES_IMAGE [("href", "http://h.example/b.jpg")]]).
    split; [simpl; auto|]. split; [reflexivity|]. eexists. reflexivity.
  - vm_compute in Hfc. injection Hfc as <-.
    assert (Hlen : length pre = 3).
    { destruct pre as [|x1 [|x2 [|x3 [|x4 pre]]]]; vm_compute in E.
      - injection E as <- _. discriminate Ht.
      - injection E as _ <- _. discriminate Ht.
      - injection E as _ _ <- _. vm_compute in Hfi. discriminate Hfi.
      - reflexivity.
      - destruct pre; discriminate E. }
    destruct (Hsome (ImagesFolder, "b.jpg")
                (write_file (ImagesFolder, "b.jpg") 10
                   (log_request "http://h.example/b.jpg" empty_world)) eq_refl)
      as (href & channel' & item' & image' & Hh & Hp & Hex & Hrel & Hc & Hl & Hti
          & Hi' & Hc' & Hg & Hk & Hurl).
    destruct (Hurl ltac:(eexists; reflexivity)) as (u' & Hu & Htext).
    rewrite Hlen in Hl.
    exists channel', item', image', u'. auto 10.
Defined.

(** ** C4: a file that exists is not transferred again *)




(** * Further properties of the code *)

(** ** [sanitize_filename] *)

Section SanitizeFacts.
Import PyStr.

Lemma all_remove_if (p : ascii -> bool) (s : string) :
  all (fun c => negb (p c)) (remove_if p s) = true.
Proof.
  induction s as [|a t IH]; [reflexivity|]. simpl.
  destruct (p a) eqn:E; [exact IH|]. simpl. rewrite E. exact IH.
Qed.

Lemma all_lstrip (q p : ascii -> bool) (s : string) :
  all q s = true -> all q (lstrip_if p s) = true.
Proof.
  induction s as [|a t IH]; [reflexivity|]. simpl. intros H.
  apply andb_true_iff in H. destruct H as [Ha Ht].
  destruct (p a); [auto|]. simpl. rewrite Ha. exact Ht.
Qed.

Lemma all_rstrip (q p : ascii -> bool) (s : string) :
  all q s = true -> all q (rstrip_if p s) = true.
Proof.
  induction s as [|a t IH]; [reflexivity|]. simpl. intros H.
  apply andb_true_iff in H. destruct H as [Ha Ht]. specialize (IH Ht).
  destruct (rstrip_if p t) as [|b r].
  - destruct (p a); [reflexivity|]. simpl. rewrite Ha. reflexivity.
  - cbn [all] in IH |- *. rewrite Ha. exact IH.
Qed.

Lemma all_replace_space (s : string) :
  all (fun c => negb (forbidden_char c)) s = true ->
  all safe_char (replace " " "_" s) = true.
Proof.
  induction s as [|a t IH]; [reflexivity|]. simpl. intros H.
  apply andb_true_iff in H. destruct H as [Ha Ht]. rewrite (IH Ht).
  unfold safe_char. destruct (Ascii.eqb a " ") eqn:E; [reflexivity|].
  rewrite Ha, E. reflexivity.
Qed.

Lemma head_lstrip (p : ascii -> bool) (s : string) (c : ascii) :
  head_char (lstrip_if p s) = Some c -> p c = false.
Proof.
  induction s as [|a t IH]; [discriminate|]. simpl.
  destruct (p a) eqn:E; [exact IH|]. simpl. intros [= <-]. exact E.
Qed.

Lemma head_rstrip (p : ascii -> bool) (s : string) (c : ascii) :
  head_char (rstrip_if p s) = Some c -> head_char s = Some c.
Proof.
  destruct s as [|a t]; [discriminate|]. simpl.
  destruct (rstrip_if p t); [destruct (p a); [discriminate|]|]; auto.
Qed.

Lemma last_rstrip (p : ascii -> bool) (s : string) (c : ascii) :
  last_char (rstrip_if p s) = Some c -> p c = false.
Proof.
  induction s as [|a t IH]; [discriminate|]. simpl.
  destruct (rstrip_if p t) as [|b r].
  - destruct (p a) eqn:E; [discriminate|]. simpl. intros [= <-]. exact E.
  - change (last_char (String a (String b r)))
      with (match last_char (String b r) with Some d => Some d | None => Some a end).
    destruct (last_char (String b r)) as [d|] eqn:L; [exact IH|].
    exfalso. simpl in L. destruct (last_char r); discriminate.
Qed.

Lemma head_replace (a b : ascii) (s : string) :
  head_char (replace a b s)
  = option_map (fun c => if Ascii.eqb c a then b else c) (head_char s).
Proof. destruct s; reflexivity. Qed.

Lemma last_replace (a b : ascii) (s : string) :
  last_char (replace a b s)
  = option_map (fun c => if Ascii.eqb c a then b else c) (last_char s).
Proof.
  induction s as [|x t IH]; [reflexivity|]. simpl. rewrite IH.
  destruct (last_char t); reflexivity.
Qed.

Lemma lstrip_fixed (p : ascii -> bool) (s : string) :
  (forall c, head_char s = Some c -> p c = false) -> lstrip_if p s = s.
Proof.
  destruct s as [|a t]; [reflexivity|]. simpl. intros H.
  rewrite (H a eq_refl). reflexivity.
Qed.

Lemma rstrip_fixed (p : ascii -> bool) (s : string) :
  (forall c, last_char s = Some c -> p c = false) -> rstrip_if p s = s.
Proof.
  induction s as [|a t IH]; [reflexivity|]. simpl. intros H.
  destruct t as [|b u].
  - simpl in H |- *. rewrite (H a eq_refl). reflexivity.
  - rewrite IH.
    + reflexivity.
    + intros c Hc. apply H. cbn [last_char] in Hc |- *.
      destruct (last_char u); exact Hc.
Qed.

Lemma not_space_kept (c : ascii) :
  isspace c = false -> (if Ascii.eqb c " " then "_"%char else c) = c.
Proof.
  destruct (Ascii.eqb c " ") eqn:E; [|reflexivity].
  apply Ascii.eqb_eq in E. subst c. discriminate.
Qed.

Lemma sanitize_no_outer_space (s : string) : no_outer_space (sanitize_filename s).
Proof.
  unfold sanitize_filename, strip. set (x := remove_if forbidden_char s).
  split; intros c.
  - rewrite head_replace.
    destruct (head_char (rstrip_if isspace (lstrip_if isspace x))) as [d|] eqn:E;
      [|discriminate].
    simpl. apply head_rstrip, head_lstrip in E.
    rewrite (not_space_kept d E). intros [= <-]. exact E.
  - rewrite last_replace.
    destruct (last_char (rstrip_if isspace (lstrip_if isspace x))) as [d|] eqn:E;
      [|discriminate].
    simpl. apply last_rstrip in E.
    rewrite (not_space_kept d E). intros [= <-]. exact E.
Qed.

Lemma sanitize_all_safe (s : string) : all safe_char (sanitize_filename s) = true.
Proof.
  unfold sanitize_filename, strip. apply all_replace_space.
  apply all_rstrip, all_lstrip, all_remove_if.
Qed.

Lemma remove_if_fixed (p : ascii -> bool) (s : string) :
  all (fun c => negb (p c)) s = true -> remove_if p s = s.
Proof.
  induction s as [|a t IH]; [reflexivity|]. simpl. intros H.
  apply andb_true_iff in H. destruct H as [Ha Ht].
  apply negb_true_iff in Ha. rewrite Ha, (IH Ht). reflexivity.
Qed.

Lemma replace_fixed (a b : ascii) (s : string) :
  all (fun c => negb (Ascii.eqb c a)) s = true -> replace a b s = s.
Proof.
  induction s as [|x t IH]; [reflexivity|]. simpl. intros H.
  apply andb_true_iff in H. destruct H as [Ha Ht].
  apply negb_true_iff in Ha. rewrite Ha, (IH Ht). reflexivity.
Qed.

Lemma all_weaken (p q : ascii -> bool) (s : string) :
  (forall c, p c = true -> q c = true) -> all p s = true -> all q s = true.
Proof.
  intros Hpq. induction s as [|a t IH]; [reflexivity|]. simpl. intros H.
  apply andb_true_iff in H. destruct H as [Ha Ht].
  rewrite (Hpq _ Ha), (IH Ht). reflexivity.
Qed.

End SanitizeFacts.

(** X1: whatever the input, the sanitized name contains none of the nine
    stripped characters and no space, and neither starts nor ends with
    whitespace; so does every destination name [download_file] derives. *)
Theorem X1_sanitized_name_is_safe (s url : string) :
  PyStr.all safe_char (sanitize_filename s) = true
  /\ no_outer_space (sanitize_filename s)
  /\ PyStr.all safe_char (derive_filename url) = true
  /\ PyStr.contains "/" (derive_filename url) = false.
Proof.
  split; [apply sanitize_all_safe|]. split; [apply sanitize_no_outer_space|].
  assert (H : PyStr.all safe_char (derive_filename url) = true)
    by apply sanitize_all_safe.
  split; [exact H|].
  induction (derive_filename url) as [|a t IH]; [reflexivity|].
  simpl in H |- *. apply andb_true_iff in H. destruct H as [Ha Ht].
  destruct (Ascii.eqb a "/") eqn:E; [|auto].
  apply Ascii.eqb_eq in E. subst a. discriminate.
Qed.

(** X2: sanitizing is idempotent: a sanitized name is its own sanitized
    form. *)
Theorem X2_sanitize_is_idempotent (s : string) :
  sanitize_filename (sanitize_filename s) = sanitize_filename s.
Proof.
  pose proof (sanitize_all_safe s) as Hsafe.
  destruct (sanitize_no_outer_space s) as [Hh Hl].
  unfold sanitize_filename at 1.
  rewrite remove_if_fixed.
  - unfold PyStr.strip. rewrite lstrip_fixed by exact Hh.
    rewrite rstrip_fixed by exact Hl.
    apply replace_fixed. eapply all_weaken; [|exact Hsafe].
    intros c Hc. unfold safe_char in Hc. apply andb_true_iff in Hc. tauto.
  - eapply all_weaken; [|exact Hsafe].
    intros c Hc. unfold safe_char in Hc. apply andb_true_iff in Hc. tauto.
Qed.

(** ** [download_file] *)

(** X3: a destination [download_file] returns is a file (or directory)
    that exists when the call is over: it lies in the folder asked for,
    bears the name derived from the URL, and [os.path.getsize] succeeds on
    it from then on, with one and the same size when it is a file; a
    missing or empty URL gives [None] and touches nothing. *)
Theorem X3_returned_destination_exists
    (env : Env) (url : option string) (folder : Folder) (w w' : World) (p : Path) :
  download_file env url folder w = (Ok (Some p), w') ->
  path_exists w' p = true
  /\ (exists u, url = Some u /\ u <> "" /\ p = (folder, derive_filename u))
  /\ (forall w2, extends w' w2 -> exists size, getsize env p w2 = (Ok size, w2))
  /\ (is_dir_name (snd p) = false ->
      exists size, forall w2, extends w' w2 -> getsize env p w2 = (Ok size, w2))
  /\ download_file env None folder w = (Ok None, w)
  /\ download_file env (Some "") folder w = (Ok None, w).
Proof.
  intros H. destruct (download_file_some _ _ _ _ _ _ H) as (Hex & u & -> & Hu & _ & ->).
  split; [exact Hex|]. split; [eauto|]. split; [|split; [|split; reflexivity]].
  - intros w2 He. apply getsize_succeeds. eapply path_exists_extends; eauto.
  - intros Hfile. destruct (path_exists_file _ _ Hex Hfile) as [n Hn].
    exists n. apply (getsize_file env _ w' n Hfile Hn).
Qed.

Lemma X3_returned_destination_witness :
  path_exists (write_file (MediaFolder, "a.mp3") 10
                 (log_request "http://h.example/a.mp3" empty_world))
    (MediaFolder, "a.mp3") = true
  /\ (exists u, Some "http://h.example/a.mp3" = Some u /\ u <> ""
                /\ (MediaFolder, "a.mp3") = (MediaFolder, derive_filename u))
  /\ (forall w2,
        extends (write_file (MediaFolder, "a.mp3") 10
                   (log_request "http://h.example/a.mp3" empty_world)) w2 ->
        exists size, getsize full_env (MediaFolder, "a.mp3") w2 = (Ok size, w2))
  /\ (is_dir_name (snd (MediaFolder, "a.mp3")) = false ->
      exists size, forall w2,
        extends (write_file (MediaFolder, "a.mp3") 10
                   (log_request "http://h.example/a.mp3" empty_world)) w2 ->
        getsize full_env (MediaFolder, "a.mp3") w2 = (Ok size, w2))
  /\ download_file full_env None MediaFolder empty_world = (Ok None, empty_world)
  /\ download_file full_env (Some "") MediaFolder empty_world = (Ok None, empty_world).
Proof.
  apply (X3_returned_destination_exists full_env (Some "http://h.example/a.mp3")
           MediaFolder empty_world).
  reflexivity.
Defined.

(** X4: two URLs whose derived names are equal share one file: once the
    first has been downloaded into a folder, a call for the second returns
    the first one's file and requests nothing, whatever the second URL
    would have served. *)
Theorem X4_same_name_reuses_first_file
    (env : Env) (url1 url2 : string) (folder : Folder) (w w1 w2 : World) (p : Path) :
  download_file env (Some url1) folder w = (Ok (Some p), w1) ->
  url2 <> "" -> urlparse_raises env url2 = false ->
  derive_filename url2 = derive_filename url1 ->
  extends w1 w2 ->
  download_file env (Some url2) folder w2 = (Ok (Some p), w2).
Proof.
  intros H Hne Hp Hd He.
  destruct (download_file_some _ _ _ _ _ _ H) as (Hex & u & [= <-] & _ & _ & ->).
  rewrite <- Hd. apply download_file_cached; [exact Hne | exact Hp |].
  rewrite Hd. eapply path_exists_extends; eauto.
Qed.

Lemma X4_same_name_witness :
  download_file full_env (Some "http://other.example/x/a.mp3?token=2") MediaFolder
    (write_file (MediaFolder, "a.mp3") 10
       (log_request "http://h.example/a.mp3" empty_world))
  = (Ok (Some (MediaFolder, "a.mp3")),
     write_file (MediaFolder, "a.mp3") 10
       (log_request "http://h.example/a.mp3" empty_world)).
Proof.
  apply (X4_same_name_reuses_first_file full_env "http://h.example/a.mp3"
           "http://other.example/x/a.mp3?token=2" MediaFolder empty_world
           (write_file (MediaFolder, "a.mp3") 10
              (log_request "http://h.example/a.mp3" empty_world)));
    [reflexivity | discriminate | reflexivity | reflexivity | apply extends_refl].
Defined.

(** X5: a transfer that breaks off after the file was opened returns
    [None] and leaves the partial file; the next call for the same URL
    takes that file as downloaded: it returns its path without a request,
    and its size is the number of bytes that had arrived. *)
Theorem X5_partial_file_is_taken_as_downloaded
    (env : Env) (url : string) (folder : Folder) (w : World) (written : N) :
  url <> "" -> urlparse_raises env url = false ->
  path_exists w (folder, derive_filename url) = false ->
  transfer env (length (requests w)) url = Interrupted written ->
  exists w1,
    download_file env (Some url) folder w = (Ok None, w1)
    /\ requests w1 = (requests w ++ [url])%list
    /\ download_file env (Some url) folder w1
       = (Ok (Some (folder, derive_filename url)), w1)
    /\ getsize env (folder, derive_filename url) w1 = (Ok written, w1).
Proof.
  intros Hne Hp Hx Ht.
  exists (write_file (folder, derive_filename url) written (log_request url w)).
  split.
  { unfold download_file. destruct url as [|c u]; [contradiction|].
    rewrite Hp, Hx, Ht. reflexivity. }
  split; [destruct folder; reflexivity|].
  split.
  { apply download_file_cached; [exact Hne | exact Hp | apply path_exists_written]. }
  unfold getsize. unfold path_exists in Hx. apply orb_false_elim in Hx.
  destruct Hx as [Hd _]. cbn [snd fst] in Hd |- *. rewrite Hd.
  pose proof (lookup_write_file (log_request url w)
                (folder, derive_filename url) written) as L.
  cbn [fst snd] in L. rewrite L. reflexivity.
Qed.

Lemma X5_partial_file_witness :
  exists w1,
    download_file interrupted_env (Some "http://h.example/a.mp3") MediaFolder empty_world
    = (Ok None, w1)
    /\ requests w1 = (requests empty_world ++ ["http://h.example/a.mp3"])%list
    /\ download_file interrupted_env (Some "http://h.example/a.mp3") MediaFolder w1
       = (Ok (Some (MediaFolder, derive_filename "http://h.example/a.mp3")), w1)
    /\ getsize interrupted_env (MediaFolder, derive_filename "http://h.example/a.mp3") w1
       = (Ok 5%N, w1).
Proof.
  apply (X5_partial_file_is_taken_as_downloaded interrupted_env
           "http://h.example/a.mp3" MediaFolder empty_world 5%N);
    [discriminate | reflexivity | reflexivity | reflexivity].
Defined.

(** ** [main] and the files on disk *)

Lemma main_step (env : Env) (rss_url : string) (w : World) :
  extends w (snd (main env rss_url w))
  /\ fresh_requests w (snd (main env rss_url w)).
Proof.
  unfold main. destruct (makedirs_raises env).
  - split; [apply extends_refl | apply (step_requests _ _ (step_refl w))].
  - destruct (process_feed env rss_url w) as [[tree|e] w'] eqn:E;
      exact (process_feed_requests _ _ _ _ _ E).
Qed.





(** ** How many requests a run makes *)

Section RequestCount.
Implicit Types (env : Env) (w : World).

Lemma at_most_ret {A : Type} (a : A) : at_most 0 (ret a).
Proof. intros w r w' [= <- <-]. lia. Qed.

Lemma at_most_raise {A : Type} (e : exn) : at_most 0 (@raise A e).
Proof. intros w r w' [= <- <-]. lia. Qed.

Lemma at_most_bind {A B : Type} (k1 k2 : nat) (m : Run A) (k : A -> Run B) :
  at_most k1 m -> (forall a, at_most k2 (k a)) -> at_most (k1 + k2) (bind m k).
Proof.
  intros Hm Hk w r w'. unfold bind.
  destruct (m w) as [[a|e] w1] eqn:E.
  - intros H. specialize (Hm _ _ _ E). specialize (Hk a _ _ _ H). lia.
  - intros [= <- <-]. specialize (Hm _ _ _ E). lia.
Qed.

Lemma at_most_weaken {A : Type} (k1 k2 : nat) (m : Run A) :
  k1 <= k2 -> at_most k1 m -> at_most k2 m.
Proof. intros Hle Hm w r w' H. specialize (Hm _ _ _ H). lia. Qed.

Lemma download_file_at_most env (url : option string) (f : Folder) :
  at_most 1 (download_file env url f).
Proof.
  intros w r w'. unfold download_file.
  destruct url as [[|c u]|]; try (intros [= <- <-]; lia).
  destruct (urlparse_raises env _); [intros [= <- <-]; lia|].
  destruct (path_exists w _); [intros [= <- <-]; lia|].
  destruct (transfer env _ _); intros [= <- <-];
    destruct f; simpl; rewrite length_app; simpl; lia.
Qed.

Lemma getsize_at_most env (p : Path) : at_most 0 (getsize env p).
Proof.
  intros w r w'. unfold getsize.
  destruct (is_dir_name _); [intros [= <- <-]; lia|].
  destruct (_ !! _); intros [= <- <-]; lia.
Qed.

Lemma download_cover_at_most env (channel : Element) :
  at_most 1 (download_cover env channel).
Proof.
  unfold download_cover. destruct (find_desc _ _);
    [|apply (at_most_weaken 0 1); [lia | apply at_most_ret]].
  apply (at_most_bind 1 0); [apply download_file_at_most|].
  intros [p|]; apply at_most_ret.
Qed.

Lemma download_enclosure_at_most env (item : Element) :
  at_most 1 (download_enclosure env item).
Proof.
  unfold download_enclosure. destruct (find _ _);
    [|apply (at_most_weaken 0 1); [lia | apply at_most_ret]].
  destruct (get _ _);
    [|apply (at_most_weaken 0 1); [lia | apply at_most_raise]].
  apply (at_most_bind 1 0); [apply download_file_at_most|].
  intros [p|]; [|apply at_most_ret].
  apply (at_most_bind 0 0); [apply getsize_at_most | intro; apply at_most_ret].
Qed.

Lemma download_episode_image_at_most env (item : Element) :
  at_most 1 (download_episode_image env item).
Proof.
  unfold download_episode_image. destruct (find_desc _ _);
    [|apply (at_most_weaken 0 1); [lia | apply at_most_ret]].
  apply (at_most_bind 1 0); [apply download_file_at_most|].
  intros [p|]; apply at_most_ret.
Qed.

Lemma process_item_at_most env (item : Element) : at_most 2 (process_item env item).
Proof.
  unfold process_item. apply (at_most_bind 1 1);
    [apply download_enclosure_at_most | intro; apply download_episode_image_at_most].
Qed.

Lemma process_items_at_most env (cs : list Element) :
  at_most (2 * length (List.filter (has_tag "item") cs)) (process_items env cs).
Proof.
  induction cs as [|c cs IH]; cbn [process_items].
  - apply at_most_ret.
  - simpl List.filter. set (n := 2 * length (List.filter (has_tag "item") cs)) in *.
    assert (Hrest : forall c', at_most n
              (bind (process_items env cs) (fun cs'' => ret (c' :: cs'')))).
    { intros c'. apply (at_most_weaken (n + 0) n); [lia|].
      apply (at_most_bind n 0); [exact IH | intro; apply at_most_ret]. }
    destruct (has_tag "item" c).
    + apply (at_most_weaken (2 + n)); [simpl; lia|].
      apply (at_most_bind 2 n); [apply process_item_at_most | exact Hrest].
    + apply Hrest.
Qed.

Lemma rewrite_feed_at_most env (root : Element) :
  at_most (1 + 2 * length (feed_items root)) (rewrite_feed env root).
Proof.
  intros w r w'. unfold rewrite_feed, feed_items, bind.
  destruct (find "channel" root) as [channel|]; [|intros [= <- <-]; lia].
  destruct (download_cover env channel w) as [[ch1|e] w1] eqn:E1.
  2:{ intros [= <- <-]. pose proof (download_cover_at_most _ _ _ _ _ E1). lia. }
  pose proof (download_cover_at_most _ _ _ _ _ E1) as H1.
  destruct (download_cover_equiv _ _ _ _ _ E1) as [_ HF].
  assert (Hlen : length (List.filter (has_tag "item") (children ch1))
                 = length (findall "item" channel)).
  { unfold findall. symmetry. eapply Forall2_length.
    apply (filter_tag_Forall2 item_equiv); [|exact HF].
    intros a b Hab. exact (proj1 Hab). }
  destruct (process_items env (children ch1) w1) as [[items|e] w2] eqn:E2;
    intros [= <- <-]; pose proof (process_items_at_most _ _ _ _ _ E2); lia.
Qed.

End RequestCount.

(** X8: a run makes no more asset requests than one for the cover and two
    for each item of the feed (enclosure and episode image), whether it
    completes or aborts. *)
Theorem X8_requests_are_bounded
    (env : Env) (rss_url : string) (w : World)
    (status : N) (content : string) (root : Element) :
  fetch env rss_url = Response status content ->
  fromstring env content = Some root ->
  length (requests (snd (main env rss_url w)))
  <= length (requests w) + 1 + 2 * length (feed_items root).
Proof.
  intros Hf Hp. unfold main. destruct (makedirs_raises env); [simpl; lia|].
  unfold process_feed, requests_get, parse_feed, bind. rewrite Hf. cbn [ret].
  rewrite Hp. cbn [ret].
  destruct (rewrite_feed env root w) as [[tree|e] w1] eqn:E;
    pose proof (rewrite_feed_at_most _ _ _ _ _ E);
    [unfold tree_write; destruct (feed_write env)|]; simpl; lia.
Qed.

Lemma X8_requests_are_bounded_witness :
  length (requests (snd (main full_env "http://h.example/feed" empty_world)))
  <= length (requests empty_world) + 1 + 2 * length (feed_items feed_full).
Proof.
  apply (X8_requests_are_bounded full_env "http://h.example/feed" empty_world
           200%N "feed" feed_full); reflexivity.
Defined.

(** ** Which runs complete *)

Section Outcome.
Implicit Types (env : Env) (w : World) (item c : Element).

Lemma download_enclosure_outcome env item w :
  if lacks_url item
  then download_enclosure env item w = (Raise TypeError, w)
  else exists item' w', download_enclosure env item w = (Ok item', w').
Proof.
  unfold lacks_url, download_enclosure, bind.
  destruct (find "enclosure" item) as [enclosure|]; [|unfold ret; eauto].
  destruct (get "url" enclosure) as [u|]; [|reflexivity].
  destruct (download_file_total env (Some u) MediaFolder w) as (o & w1 & Hd).
  rewrite Hd. destruct o as [p|]; [|unfold ret; eauto].
  destruct (download_file_some _ _ _ _ _ _ Hd) as [Hex _].
  destruct (getsize_succeeds env p w1 Hex) as [n Hn].
  rewrite Hn. unfold ret. eauto.
Qed.

Lemma download_episode_image_total env item w :
  exists item' w', download_episode_image env item w = (Ok item', w').
Proof.
  unfold download_episode_image, bind.
  destruct (find_desc ITUNES_IMAGE item) as [image|]; [|unfold ret; eauto].
  destruct (download_file_total env (get "href" image) ImagesFolder w)
    as (o & w1 & Hd).
  rewrite Hd. destruct o; unfold ret; eauto.
Qed.

Lemma process_item_outcome env item w :
  if lacks_url item
  then process_item env item w = (Raise TypeError, w)
  else exists item' w', process_item env item w = (Ok item', w').
Proof.
  pose proof (download_enclosure_outcome env item w) as H.
  unfold process_item, bind. destruct (lacks_url item).
  - rewrite H. reflexivity.
  - destruct H as (i1 & w1 & ->). apply download_episode_image_total.
Qed.

Lemma process_items_outcome env (cs : list Element) w :
  if aborts_loop cs
  then exists w', process_items env cs w = (Raise TypeError, w')
  else exists cs' w', process_items env cs w = (Ok cs', w').
Proof.
  revert w. induction cs as [|c cs IH]; intros w.
  - simpl. unfold ret. eauto.
  - cbn [process_items aborts_loop existsb]. fold (aborts_loop cs). unfold bind.
    destruct (has_tag "item" c); cbn [andb orb].
    + pose proof (process_item_outcome env c w) as Hc.
      destruct (lacks_url c); cbn [orb].
      * rewrite Hc. eauto.
      * destruct Hc as (c' & w1 & ->). specialize (IH w1).
        destruct (aborts_loop cs).
        -- destruct IH as (w' & ->). eauto.
        -- destruct IH as (cs' & w' & ->). unfold ret. eauto.
    + specialize (IH w). destruct (aborts_loop cs).
      * destruct IH as (w' & ->). eauto.
      * destruct IH as (cs' & w' & ->). unfold ret. eauto.
Qed.

(** An update of namespaced images does not change whether an element
    lacks the enclosure URL. *)
Lemma lacks_url_children (cs cs' : list Element) :
  Forall2 (same_unless ITUNES_IMAGE) cs cs' ->
  forall e e', children e = cs -> children e' = cs' -> lacks_url e' = lacks_url e.
Proof.
  intros HF e e' He He'. unfold lacks_url, find. rewrite He, He'.
  pose proof (first_pick_Forall2 (same_unless ITUNES_IMAGE) "enclosure" _ _
                (fun a b (Hab : same_unless ITUNES_IMAGE a b) => proj1 Hab) HF) as HP.
  change (first_some (fun c => if has_tag "enclosure" c then Some c else None))
    with (first_some (pick "enclosure")).
  destruct (first_some (pick "enclosure") cs) as [enc|] eqn:E.
  - destruct HP as (enc' & -> & Htag & Hattr). unfold get. rewrite Hattr; [reflexivity|].
    apply first_some_split in E. destruct E as (? & y & ? & _ & _ & Hy).
    unfold pick in Hy. destruct (has_tag "enclosure" y) eqn:Ey; [|discriminate].
    injection Hy as ->. apply has_tag_true in Ey. rewrite Ey. discriminate.
  - rewrite HP. reflexivity.
Qed.

Lemma update_iter_lacks_url (g : Element -> Element) c c' :
  (forall x, tag (g x) = tag x) ->
  update_iter ITUNES_IMAGE g c = Some c' ->
  tag c' = tag c /\ (has_tag "item" c = true -> lacks_url c' = lacks_url c).
Proof.
  intros Hg H. split; [exact (proj1 (update_iter_same_unless _ _ _ _ Hg H))|].
  intros Hi. destruct c as [t a x cs tl]. cbn [update_iter] in H.
  apply has_tag_true in Hi. simpl in Hi. subst t.
  change (String.eqb "item" ITUNES_IMAGE) with false in H.
  destruct (update_first (update_iter ITUNES_IMAGE g) cs) as [cs'|] eqn:E;
    [|discriminate].
  injection H as <-. eapply lacks_url_children; [|reflexivity..].
  eapply update_first_Forall2; [| |exact E].
  - intros y. split; reflexivity.
  - intros y y'. apply update_iter_same_unless. exact Hg.
Qed.

Lemma aborts_loop_Forall2 (cs cs' : list Element) :
  Forall2 (fun c c' => tag c' = tag c
                       /\ (has_tag "item" c = true -> lacks_url c' = lacks_url c))
          cs cs' ->
  aborts_loop cs' = aborts_loop cs.
Proof.
  induction 1 as [|c c' cs cs' [Ht Hl] _ IH]; [reflexivity|].
  cbn [aborts_loop existsb]. fold (aborts_loop cs) (aborts_loop cs'). rewrite IH.
  assert (Hb : has_tag "item" c' = has_tag "item" c)
    by (unfold has_tag; rewrite Ht; reflexivity).
  rewrite Hb. destruct (has_tag "item" c); [rewrite Hl|]; reflexivity.
Qed.

(** The cover step does not change which items lack the enclosure URL. *)
Lemma download_cover_aborts_loop env (channel ch1 : Element) w w1 :
  download_cover env channel w = (Ok ch1, w1) ->
  aborts_loop (children ch1) = aborts_loop (children channel).
Proof.
  unfold download_cover, bind.
  destruct (find_desc ITUNES_IMAGE channel) as [image|]; [|intros [= <- <-]; reflexivity].
  destruct (download_file env _ _ w) as [[[p|]|ex] w2]; try discriminate;
    [|intros [= <- <-]; reflexivity].
  intros [= <- <-].
  set (g := set "href" (relpath p)).
  transitivity (aborts_loop (children (update_desc ITUNES_IMAGE g channel))).
  - apply aborts_loop_Forall2. unfold update_path.
    destruct (update_first _ (children (update_desc ITUNES_IMAGE g channel)))
      as [cs'|] eqn:E.
    2:{ clear E. induction (children _); constructor; auto. }
    rewrite children_with_children.
    eapply update_first_Forall2; [auto | | exact E].
    intros x x'. cbv beta. destruct (has_tag "image" x) eqn:Hx; [|discriminate].
    destruct (find "url" x); [|discriminate]. intros [= <-].
    split; [apply tag_update_child|].
    intros Hi. apply has_tag_true in Hx, Hi. congruence.
  - apply aborts_loop_Forall2. unfold update_desc.
    destruct (update_first _ (children channel)) as [cs'|] eqn:E.
    2:{ clear E. induction (children _); constructor; auto. }
    rewrite children_with_children.
    eapply update_first_Forall2; [auto | | exact E].
    intros x x'. apply update_iter_lacks_url. intros y. apply tag_set.
Qed.

End Outcome.

(** X9: the outcome of a run is decided by six things, in this order: the
    folders cannot be made (OSError), the feed request raises
    (ConnectionError), the body does not parse (ParseError), the root has
    no [channel] child (AttributeError), some item has an enclosure
    without a [url] attribute (TypeError), the document cannot be written
    (OSError); in every other case the run completes, whatever the asset
    transfers do. *)
Theorem X9_outcome_of_a_run (env : Env) (rss_url : string) (w : World) :
  if makedirs_raises env then fst (main env rss_url w) = ErrorReported OSError
  else match fetch env rss_url with
       | FetchRaises => fst (main env rss_url w) = ErrorReported ConnectionError
       | Response _ content =>
           match fromstring env content with
           | None => fst (main env rss_url w) = ErrorReported ParseError
           | Some root =>
               match find "channel" root with
               | None => fst (main env rss_url w) = ErrorReported AttributeError
               | Some channel =>
                   if aborts_loop (children channel)
                   then fst (main env rss_url w) = ErrorReported TypeError
                   else match feed_write env with
                        | WriteCompletes =>
                            exists tree, fst (main env rss_url w) = Completed tree
                        | OpenRaises | WriteBreaksOff =>
                            fst (main env rss_url w) = ErrorReported OSError
                        end
               end
           end
       end.
Proof.
  unfold main. destruct (makedirs_raises env); [reflexivity|].
  unfold process_feed, requests_get, parse_feed, bind.
  destruct (fetch env rss_url) as [|status content]; [reflexivity|].
  cbn [ret]. destruct (fromstring env content) as [root|]; [|reflexivity].
  cbn [ret]. unfold rewrite_feed, bind.
  destruct (find "channel" root) as [channel|]; [|reflexivity].
  destruct (download_cover env channel w) as [[ch1|e] w1] eqn:E1.
  - rewrite <- (download_cover_aborts_loop _ _ _ _ _ E1).
    pose proof (process_items_outcome env (children ch1) w1) as H.
    destruct (aborts_loop (children ch1)).
    + destruct H as (w' & ->). reflexivity.
    + destruct H as (cs' & w' & ->). unfold ret, tree_write.
      destruct (feed_write env); cbn [fst]; eauto.
  - exfalso. unfold download_cover, bind in E1.
    destruct (find_desc ITUNES_IMAGE channel) as [image|]; [|discriminate].
    destruct (download_file_total env (get "href" image) ImagesFolder w)
      as (o & w2 & Hd).
    rewrite Hd in E1. destruct o; discriminate.
Qed.

(** ** What a run may change in the document *)

Section Redaction.
Implicit Types (env : Env) (w : World) (e c item channel root : Element).

Lemma redact_tag e : tag (redact e) = tag e.
Proof. destruct e; reflexivity. Qed.

Lemma redact_dict_set (k v : string) (d : list (string * string)) :
  rewritten_key k = true ->
  List.filter (fun kv => negb (rewritten_key (fst kv))) (dict_set k v d)
  = List.filter (fun kv => negb (rewritten_key (fst kv))) d.
Proof.
  intros Hk. induction d as [|[k' v'] d IH]; simpl.
  - rewrite Hk. reflexivity.
  - destruct (String.eqb k' k) eqn:E; simpl.
    + apply String.eqb_eq in E. subst k'. rewrite Hk. reflexivity.
    + rewrite IH. reflexivity.
Qed.

Lemma redact_set (k v : string) e :
  rewritten_key k = true -> redact (set k v e) = redact e.
Proof. intros Hk. destruct e. simpl. rewrite redact_dict_set by exact Hk. reflexivity. Qed.

Lemma redact_set_text (s : string) e :
  rewritten_text (tag e) = true -> redact (set_text s e) = redact e.
Proof. destruct e. simpl. intros ->. reflexivity. Qed.

Lemma redact_with_children (cs cs' : list Element) e :
  List.map redact cs' = List.map redact cs ->
  redact (with_children cs' e) = redact (with_children cs e).
Proof. destruct e; simpl; intros ->; reflexivity. Qed.

Lemma redact_update_first (f : Element -> option Element) (cs cs' : list Element) :
  Forall (fun c => forall c', f c = Some c' -> redact c' = redact c) cs ->
  update_first f cs = Some cs' ->
  List.map redact cs' = List.map redact cs.
Proof.
  intros Hf. revert cs'. induction Hf as [|c cs Hc _ IH]; intros cs' H.
  - discriminate.
  - rewrite update_first_cons in H. destruct (f c) as [c'|] eqn:E.
    + injection H as <-. simpl. rewrite (Hc c' eq_refl). reflexivity.
    + destruct (update_first f cs) as [r|]; [|discriminate].
      injection H as <-. simpl. rewrite (IH r eq_refl). reflexivity.
Qed.

Lemma redact_update_iter (t : string) (g : Element -> Element) e e' :
  (forall x, redact (g x) = redact x) ->
  update_iter t g e = Some e' -> redact e' = redact e.
Proof.
  intros Hg. revert e'. induction e as [t' a x cs tl IH] using Element_ind_children.
  intros e'. cbn [update_iter]. destruct (String.eqb t' t).
  - intros [= <-]. apply Hg.
  - destruct (update_first (update_iter t g) cs) as [cs'|] eqn:E; [|discriminate].
    intros [= <-]. simpl. f_equal.
    eapply redact_update_first; [|exact E]. exact IH.
Qed.

Lemma redact_update_desc (t : string) (g : Element -> Element) e :
  (forall x, redact (g x) = redact x) -> redact (update_desc t g e) = redact e.
Proof.
  intros Hg. unfold update_desc.
  destruct (update_first (update_iter t g) (children e)) as [cs'|] eqn:E;
    [|reflexivity].
  rewrite <- (with_children_id e) at 2. apply redact_with_children.
  eapply redact_update_first; [|exact E].
  rewrite Forall_forall. intros c _ c'. apply redact_update_iter. exact Hg.
Qed.

Lemma redact_update_child (t : string) (g : Element -> Element) e :
  (forall x, tag x = t -> redact (g x) = redact x) ->
  redact (update_child t g e) = redact e.
Proof.
  intros Hg. unfold update_child.
  destruct (update_first _ (children e)) as [cs'|] eqn:E; [|reflexivity].
  rewrite <- (with_children_id e) at 2. apply redact_with_children.
  eapply redact_update_first; [|exact E].
  rewrite Forall_forall. intros c _ c'.
  destruct (has_tag t c) eqn:Hc; [|discriminate]. intros [= <-].
  apply Hg. apply has_tag_true. exact Hc.
Qed.

Lemma redact_update_path (s : string) e :
  redact (update_path "image" "url" (set_text s) e) = redact e.
Proof.
  unfold update_path.
  destruct (update_first _ (children e)) as [cs'|] eqn:E; [|reflexivity].
  rewrite <- (with_children_id e) at 2. apply redact_with_children.
  eapply redact_update_first; [|exact E].
  rewrite Forall_forall. intros c _ c'. cbv beta.
  destruct (has_tag "image" c); [|discriminate].
  destruct (find "url" c); [|discriminate]. intros [= <-].
  apply redact_update_child. intros x Hx. apply redact_set_text.
  rewrite Hx. reflexivity.
Qed.

Lemma download_cover_redact env channel w channel' w' :
  download_cover env channel w = (Ok channel', w') -> redact channel' = redact channel.
Proof.
  unfold download_cover, bind.
  destruct (find_desc ITUNES_IMAGE channel); [|intros [= <- <-]; reflexivity].
  destruct (download_file env _ _ w) as [[[p|]|ex] w1]; try discriminate;
    [|intros [= <- <-]; reflexivity].
  intros [= <- <-]. rewrite redact_update_path.
  apply redact_update_desc. intros x. apply redact_set. reflexivity.
Qed.

Lemma process_item_redact env item w item' w' :
  process_item env item w = (Ok item', w') -> redact item' = redact item.
Proof.
  unfold process_item, bind.
  destruct (download_enclosure env item w) as [[i1|ex] w1] eqn:E1; [|discriminate].
  intros E2. transitivity (redact i1).
  - unfold download_episode_image, bind in E2.
    destruct (find_desc ITUNES_IMAGE i1); [|injection E2 as <- <-; reflexivity].
    destruct (download_file env _ _ w1) as [[[p|]|ex] w2]; try discriminate;
      injection E2 as <- <-; [|reflexivity].
    apply redact_update_desc. intros x. apply redact_set. reflexivity.
  - unfold download_enclosure, bind in E1.
    destruct (find "enclosure" item); [|injection E1 as <- <-; reflexivity].
    destruct (get "url" _); [|discriminate].
    destruct (download_file env _ _ w) as [[[p|]|ex] w2]; try discriminate;
      [|injection E1 as <- <-; reflexivity].
    destruct (getsize env p w2) as [[n|ex] w3]; [|discriminate].
    injection E1 as <- <-. apply redact_update_child.
    intros x _. rewrite !redact_set; reflexivity.
Qed.

Lemma process_items_redact env (cs cs' : list Element) w w' :
  process_items env cs w = (Ok cs', w') -> List.map redact cs' = List.map redact cs.
Proof.
  revert cs' w. induction cs as [|c cs IH]; intros cs' w; cbn [process_items].
  - intros [= <- <-]. reflexivity.
  - unfold bind. destruct (has_tag "item" c).
    + destruct (process_item env c w) as [[c1|ex] w1] eqn:E1; [|discriminate].
      destruct (process_items env cs w1) as [[cs1|ex] w2] eqn:E2; [|discriminate].
      intros [= <- <-]. simpl.
      rewrite (process_item_redact _ _ _ _ _ E1), (IH _ _ E2). reflexivity.
    + destruct (process_items env cs w) as [[cs1|ex] w2] eqn:E2; [|discriminate].
      intros [= <- <-]. simpl. rewrite (IH _ _ E2). reflexivity.
Qed.

Lemma update_self_link_redact c : redact (update_self_link c) = redact c.
Proof.
  unfold update_self_link. destruct (has_tag ATOM_LINK c); [|reflexivity].
  destruct (get "rel" c) as [r|]; [|reflexivity].
  destruct (String.eqb r "self"); [apply redact_set|]; reflexivity.
Qed.

Lemma update_feed_metadata_redact env channel :
  redact (update_feed_metadata env channel) = redact channel.
Proof.
  unfold update_feed_metadata. set (ts := DateTime.strftime_rfc _).
  set (ch1 := update_child "lastBuildDate" (set_text ts) channel).
  assert (H1 : redact ch1 = redact channel).
  { apply redact_update_child. intros x Hx. apply redact_set_text.
    rewrite Hx. reflexivity. }
  rewrite <- H1. rewrite <- (with_children_id ch1) at 3.
  apply redact_with_children. rewrite List.map_map.
  apply List.map_ext. intros c. apply update_self_link_redact.
Qed.

Lemma rewrite_feed_redact env root w tree w' :
  rewrite_feed env root w = (Ok tree, w') -> redact tree = redact root.
Proof.
  intros H. destruct (rewrite_feed_inv _ _ _ _ _ H)
    as (channel & ch1 & w1 & items & Hc & Hcov & Hit & ->).
  destruct (find_split _ _ _ Hc) as (l1 & l2 & E & Hn & Ht).
  rewrite (update_child_split "channel" _ root channel l1 l2 E Hn Ht).
  rewrite <- (with_children_id root) at 2. apply redact_with_children.
  rewrite E, !map_app. f_equal. simpl. f_equal.
  rewrite update_feed_metadata_redact.
  rewrite <- (download_cover_redact _ _ _ _ _ Hcov).
  rewrite <- (with_children_id ch1) at 2. apply redact_with_children.
  eapply process_items_redact. exact Hit.
Qed.

End Redaction.

(** X10: a run that completes writes the parsed document back with nothing
    changed but the values of the attributes [url], [length] and [href]
    and the text of elements tagged [url] or [lastBuildDate]: every other
    attribute with its value and position, every other text, every tail
    and every element, known to the program or not, comes out as it went
    in. *)
Theorem X10_only_references_and_date_change
    (env : Env) (rss_url : string) (w : World) (tree : Element) (w' : World) :
  process_feed env rss_url w = (Ok tree, w') ->
  exists status content root,
    fetch env rss_url = Response status content
    /\ fromstring env content = Some root
    /\ redact tree = redact root.
Proof.
  intros H. destruct (process_feed_inv _ _ _ _ _ H)
    as (status & content & root & w1 & Hf & Hp & Hr & _).
  exists status, content, root. repeat split; auto.
  eapply rewrite_feed_redact. exact Hr.
Qed.

Lemma X10_only_references_and_date_change_witness :
  exists status content root,
    fetch full_env "http://h.example/feed" = Response status content
    /\ fromstring full_env content = Some root
    /\ redact (tree_of full_run) = redact root.
Proof.
  apply (X10_only_references_and_date_change full_env "http://h.example/feed"
           empty_world (tree_of full_run) (snd full_run)).
  vm_compute. reflexivity.
Defined.

(** ** The enclosures after the loop *)

Section Enclosures.
Implicit Types (env : Env) (w : World) (c item : Element).

Lemma download_enclosure_settled env item w i1 wa :
  download_enclosure env item w = (Ok i1, wa) ->
  forall w2, extends wa w2 -> enclosure_settled w2 item i1.
Proof.
  intros H w2 He enclosure Hf.
  destruct (get "url" enclosure) as [u|] eqn:Hu.
  2:{ unfold download_enclosure in H. rewrite Hf, Hu in H. discriminate. }
  destruct (download_file env (Some u) MediaFolder w) as [[[p|]|ex] w1] eqn:Hd.
  - destruct (download_enclosure_size env w w1 item enclosure u p Hf Hu Hd)
      as (size & item' & enclosure' & He' & Hfind & Hlen & Hurl & Hp & _ & Hmap).
    rewrite He' in H. injection H as <- <-.
    exists enclosure'. split; [exact Hfind|]. right.
    exists (derive_filename u). subst p.
    split; [|split; [exact Hurl|split]].
    + eapply path_exists_extends; [exact He|].
      exact (proj1 (download_file_some _ _ _ _ _ _ Hd)).
    + intros Hfile. exists size. split; [|split; [|exact Hlen]].
      * eapply lookup_weaken; [exact (Hmap Hfile) | apply (He MediaFolder)].
      * rewrite Hurl, (relpath_file MediaFolder _ Hfile). reflexivity.
    + intros _. exists size. exact Hlen.
  - unfold download_enclosure, bind in H. rewrite Hf, Hu, Hd in H.
    injection H as <- <-. eauto.
  - destruct (download_file_total env (Some u) MediaFolder w) as (o & w3 & Ho).
    rewrite Ho in Hd. discriminate.
Qed.

Lemma process_item_settled env item w c1 w1 :
  process_item env item w = (Ok c1, w1) ->
  forall w2, extends w1 w2 -> enclosure_settled w2 item c1.
Proof.
  unfold process_item, bind.
  destruct (download_enclosure env item w) as [[i1|ex] wa] eqn:E1; [|discriminate].
  intros E2 w2 He enclosure Hf.
  assert (Hea : extends wa w2).
  { eapply extends_trans; [|exact He].
    exact (step_files _ _ (download_episode_image_grows _ _ _ _ _ E2)). }
  destruct (download_enclosure_settled _ _ _ _ _ E1 w2 Hea enclosure Hf)
    as (enc1 & Hf1 & Hcase).
  assert (Hkept : exists enc2, find "enclosure" c1 = Some enc2
                               /\ attrib enc2 = attrib enc1).
  { unfold download_episode_image, bind in E2.
    destruct (find_desc ITUNES_IMAGE i1); [|injection E2 as <- <-; eauto].
    destruct (download_file env _ _ wa) as [[[p|]|ex] w3]; try discriminate;
      injection E2 as <- <-; [|eauto].
    apply find_update_desc_other;
      [intros x; apply tag_set | discriminate | exact Hf1]. }
  destruct Hkept as (enc2 & Hf2 & Ha).
  exists enc2. split; [exact Hf2|]. unfold get in *. rewrite Ha. exact Hcase.
Qed.

Lemma process_items_settled env (cs cs' : list Element) w w' :
  process_items env cs w = (Ok cs', w') ->
  forall w2, extends w' w2 ->
  Forall2 (fun c c' => has_tag "item" c = true -> enclosure_settled w2 c c')
          cs cs'.
Proof.
  revert cs' w. induction cs as [|c cs IH]; intros cs' w; cbn [process_items].
  - intros [= <- <-] w2 _. constructor.
  - unfold bind. destruct (has_tag "item" c) eqn:Hc.
    + destruct (process_item env c w) as [[c1|ex] w1] eqn:E1; [|discriminate].
      destruct (process_items env cs w1) as [[cs1|ex] w3] eqn:E2; [|discriminate].
      intros [= <- <-] w2 He. constructor; [|eapply IH; eauto].
      intros _. eapply process_item_settled; [exact E1|].
      eapply extends_trans; [|exact He].
      exact (step_files _ _ (process_items_grows _ _ _ _ _ E2)).
    + destruct (process_items env cs w) as [[cs1|ex] w3] eqn:E2; [|discriminate].
      intros [= <- <-] w2 He. constructor; [|eapply IH; eauto].
      intros Hi. rewrite Hi in Hc. discriminate.
Qed.

End Enclosures.

(** X11: when the loop over the episodes is over, the enclosure of every
    item either has the attributes it came with, or its [url] is the
    relative path of a destination that exists in [media/]; when that
    destination is a file, its [length] is the decimal size that file has
    in [media/] at that moment: a later download of the loop never
    invalidates an earlier rewrite. *)
Theorem X11_enclosures_match_disk_after_loop
    (env : Env) (cs cs' : list Element) (w w' : World) :
  process_items env cs w = (Ok cs', w') ->
  Forall2 (fun c c' => has_tag "item" c = true -> enclosure_settled w' c c')
          cs cs'.
Proof.
  intros H. eapply process_items_settled; [exact H | apply extends_refl].
Qed.

Lemma X11_enclosures_match_disk_witness :
  Forall2 (fun c c' => has_tag "item" c = true
                       -> enclosure_settled
                            (snd (process_items full_env
                                    (children (channel_of feed_full)) empty_world))
                            c c')
    (children (channel_of feed_full))
    (match fst (process_items full_env (children (channel_of feed_full)) empty_world)
     with Ok cs' => cs' | Raise _ => [] end).
Proof.
  apply (X11_enclosures_match_disk_after_loop full_env
           (children (channel_of feed_full)) _ empty_world).
  vm_compute. reflexivity.
Defined.

(** ** [update_feed_metadata] on its own *)

Section MetadataAlone.
Implicit Types (env : Env) (c channel : Element).

Lemma dict_set_twice (k v : string) (d : list (string * string)) :
  dict_set k v (dict_set k v d) = dict_set k v d.
Proof.
  induction d as [|[k' v'] d IH]; simpl.
  - rewrite String.eqb_refl. reflexivity.
  - destruct (String.eqb k' k) eqn:E; simpl; rewrite E; [reflexivity|].
    rewrite IH. reflexivity.
Qed.

Lemma set_twice (k v : string) c : set k v (set k v c) = set k v c.
Proof. destruct c. simpl. rewrite dict_set_twice. reflexivity. Qed.

Lemma update_self_link_cases c :
  (update_self_link c = set "href" "feed.xml" c
   /\ has_tag ATOM_LINK c = true /\ get "rel" c = Some "self")
  \/ update_self_link c = c.
Proof.
  unfold update_self_link. destruct (has_tag ATOM_LINK c); [|auto].
  destruct (get "rel" c) as [r|]; [|auto].
  destruct (String.eqb r "self") eqn:E; [|auto].
  apply String.eqb_eq in E. subst r. auto.
Qed.

Lemma update_self_link_twice c :
  update_self_link (update_self_link c) = update_self_link c.
Proof.
  destruct (update_self_link_cases c) as [(H & Ht & Hr)|H]; rewrite H; [|exact H].
  unfold update_self_link.
  assert (Ht' : has_tag ATOM_LINK (set "href" "feed.xml" c) = true)
    by (unfold has_tag in *; rewrite tag_set; exact Ht).
  rewrite Ht', get_set_ne by discriminate. rewrite Hr. simpl. apply set_twice.
Qed.

Lemma update_child_fixed (t : string) (g : Element -> Element) channel c :
  find t channel = Some c -> g c = c -> update_child t g channel = channel.
Proof.
  intros Hf Hg. destruct (find_split _ _ _ Hf) as (l1 & l2 & E & Hn & Ht).
  rewrite (update_child_split t g channel c l1 l2 E Hn Ht), Hg, <- E.
  apply with_children_id.
Qed.

Lemma lookup_map {A B : Type} (f : A -> B) (l : list A) (i : nat) :
  List.map f l !! i = option_map f (l !! i).
Proof.
  revert i. induction l as [|a l IH]; intros [|i]; simpl; auto.
Qed.

Lemma update_feed_metadata_twice env channel :
  update_feed_metadata env (update_feed_metadata env channel)
  = update_feed_metadata env channel.
Proof.
  set (ch2 := update_feed_metadata env channel).
  destruct (update_feed_metadata_spec env channel) as (Hsome & Hnone & _).
  fold ch2 in Hsome, Hnone.
  unfold update_feed_metadata at 1. set (ts := DateTime.strftime_rfc (utcnow env)).
  assert (H1 : update_child "lastBuildDate" (set_text ts) ch2 = ch2).
  { destruct (find "lastBuildDate" channel) as [lb|] eqn:E.
    - eapply update_child_fixed; [apply Hsome; reflexivity|].
      destruct lb; reflexivity.
    - apply update_child_none. apply Hnone. reflexivity. }
  rewrite H1.
  assert (H2 : List.map update_self_link (children ch2) = children ch2).
  { unfold ch2, update_feed_metadata. rewrite children_with_children.
    rewrite List.map_map. apply List.map_ext. intros c.
    apply update_self_link_twice. }
  rewrite H2. apply with_children_id.
Qed.

End MetadataAlone.

(** X12: [update_feed_metadata] is idempotent, keeps the number and order
    of the children of the channel, and returns unchanged every child that
    is neither a [lastBuildDate] element nor an Atom link whose [rel] is
    [self]: links with another [rel], items and unknown elements are not
    touched. *)
Theorem X12_metadata_update_touches_nothing_else
    (env : Env) (channel : Element) (i : nat) (c : Element) :
  children channel !! i = Some c ->
  has_tag "lastBuildDate" c = false ->
  has_tag ATOM_LINK c = false \/ get "rel" c <> Some "self" ->
  children (update_feed_metadata env channel) !! i = Some c
  /\ length (children (update_feed_metadata env channel)) = length (children channel)
  /\ update_feed_metadata env (update_feed_metadata env channel)
     = update_feed_metadata env channel.
Proof.
  intros Hi Hlb Hlink.
  split; [|split; [|apply update_feed_metadata_twice]].
  - unfold update_feed_metadata. set (ts := DateTime.strftime_rfc _).
    rewrite children_with_children, lookup_map.
    assert (H1 : children (update_child "lastBuildDate" (set_text ts) channel) !! i
                 = Some c).
    { unfold update_child.
      destruct (update_first _ (children channel)) as [cs'|] eqn:E; [|exact Hi].
      rewrite children_with_children.
      assert (HF : Forall2 (fun x x' => has_tag "lastBuildDate" x = false -> x' = x)
                     (children channel) cs').
      { eapply update_first_Forall2; [auto | | exact E].
        intros x x'. cbv beta. destruct (has_tag "lastBuildDate" x); [|discriminate].
        intros _; discriminate. }
      destruct (Forall2_lookup_l _ _ _ _ _ HF Hi) as (y & Hy & Hsame).
      rewrite Hy, (Hsame Hlb). reflexivity. }
    rewrite H1. simpl. f_equal. unfold update_self_link.
    destruct (has_tag ATOM_LINK c); [|reflexivity].
    destruct (get "rel" c) as [r|]; [|reflexivity].
    destruct (String.eqb r "self") eqn:E; [|reflexivity].
    apply String.eqb_eq in E. subst r. destruct Hlink as [Hl|Hl];
      [discriminate | contradiction].
  - destruct (update_feed_metadata_equiv env channel) as [_ HF].
    symmetry. eapply Forall2_length. exact HF.
Qed.

Lemma X12_metadata_update_witness :
  children (update_feed_metadata full_env (channel_of feed_full)) !! 3
  = Some (leaf ATOM_LINK [("rel", "alternate"); ("href", "http://h.example/")])
  /\ length (children (update_feed_metadata full_env (channel_of feed_full)))
     = length (children (channel_of feed_full))
  /\ update_feed_metadata full_env
       (update_feed_metadata full_env (channel_of feed_full))
     = update_feed_metadata full_env (channel_of feed_full).
Proof.
  apply (X12_metadata_update_touches_nothing_else full_env (channel_of feed_full) 3
           (leaf ATOM_LINK [("rel", "alternate"); ("href", "http://h.example/")]));
    [reflexivity | reflexivity | right; discriminate].
Defined.

(** ** The image of an episode *)

(** X13: the episode-image step looks at the first podcast-namespace image
    below the item.  Without one it returns the item and requests nothing;
    with one whose download succeeds, the [href] of that element becomes
    the relative path of a file that exists in [images/], and the
    attributes of the enclosure of the item stay as they were. *)
Theorem X13_episode_image_step
    (env : Env) (item : Element) (w : World) :
  (find_desc ITUNES_IMAGE item = None ->
   download_episode_image env item w = (Ok item, w))
  /\ (forall image p w',
        find_desc ITUNES_IMAGE item = Some image ->
        download_file env (get "href" image) ImagesFolder w = (Ok (Some p), w') ->
        exists item',
          download_episode_image env item w = (Ok item', w')
          /\ find_desc ITUNES_IMAGE item' = Some (set "href" (relpath p) image)
          /\ get "href" (set "href" (relpath p) image) = Some (relpath p)
          /\ fst p = ImagesFolder
          /\ path_exists w' p = true
          /\ (forall enclosure,
                find "enclosure" item = Some enclosure ->
                exists enclosure',
                  find "enclosure" item' = Some enclosure'
                  /\ attrib enclosure' = attrib enclosure)).
Proof.
  split.
  - intros Hn. unfold download_episode_image. rewrite Hn. reflexivity.
  - intros image p w' Hf Hd.
    assert (Hrun : download_episode_image env item w
                   = (Ok (update_desc ITUNES_IMAGE (set "href" (relpath p)) item), w'))
      by (unfold download_episode_image, bind; rewrite Hf, Hd; reflexivity).
    destruct (download_file_some _ _ _ _ _ _ Hd) as (Hex & u & _ & _ & _ & ->).
    eexists. split; [exact Hrun|].
    split; [apply find_desc_update_desc; [intros x; apply tag_set | exact Hf]|].
    split; [apply get_set_eq|]. split; [reflexivity|]. split; [exact Hex|].
    intros enclosure He.
    apply find_update_desc_other; [intros x; apply tag_set | discriminate | exact He].
Qed.

Lemma X13_episode_image_step_witness :
  download_episode_image full_env sample_episode empty_world
  = (Ok sample_episode, empty_world).
Proof.
  apply (proj1 (X13_episode_image_step full_env sample_episode empty_world)).
  reflexivity.
Defined.

(** ** Query string and fragment do not name the file *)

Section UrlFacts.
Import PyStr Urllib.

Lemma lstrip_app_stop (p : ascii -> bool) (u : string) (c : ascii) (q : string) :
  p c = false ->
  lstrip_if p (u ++ String c q) = (lstrip_if p u ++ String c q)%string.
Proof.
  intros Hc. induction u as [|a t IH].
  - rewrite !append_nil. simpl. rewrite Hc. reflexivity.
  - rewrite append_cons. simpl. destruct (p a); [exact IH|].
    rewrite append_cons. reflexivity.
Qed.

Lemma remove_if_app (p : ascii -> bool) (u v : string) :
  remove_if p (u ++ v) = (remove_if p u ++ remove_if p v)%string.
Proof.
  induction u as [|a t IH]; [reflexivity|].
  rewrite append_cons. simpl. destruct (p a); [exact IH|].
  rewrite append_cons, IH. reflexivity.
Qed.

Lemma contains_lstrip (d : ascii) (p : ascii -> bool) (u : string) :
  contains d u = false -> contains d (lstrip_if p u) = false.
Proof.
  induction u as [|a t IH]; [reflexivity|]. simpl.
  destruct (Ascii.eqb a d) eqn:E; [discriminate|]. intros H.
  destruct (p a); [auto|]. simpl. rewrite E. exact H.
Qed.

Lemma contains_remove (d : ascii) (p : ascii -> bool) (u : string) :
  contains d u = false -> contains d (remove_if p u) = false.
Proof.
  induction u as [|a t IH]; [reflexivity|]. simpl.
  destruct (Ascii.eqb a d) eqn:E; [discriminate|]. intros H.
  destruct (p a); [auto|]. simpl. rewrite E. auto.
Qed.

Lemma contains_drop (d : ascii) (n : nat) (u : string) :
  contains d u = false -> contains d (drop n u) = false.
Proof.
  revert u. induction n as [|n IH]; intros [|a t]; simpl; auto.
  destruct (Ascii.eqb a d); [discriminate|]. apply IH.
Qed.

Lemma find_none_contains (d : ascii) (u : string) :
  contains d u = false -> find d u = None.
Proof.
  induction u as [|a t IH]; [reflexivity|]. simpl.
  destruct (Ascii.eqb a d); [discriminate|]. intros H. rewrite (IH H). reflexivity.
Qed.

Lemma find_some_lt (d : ascii) (u : string) (j : nat) :
  find d u = Some j -> j < String.length u.
Proof.
  revert j. induction u as [|a t IH]; intros j; simpl; [discriminate|].
  destruct (Ascii.eqb a d); [intros [= <-]; lia|].
  destruct (find d t) as [k|]; [|discriminate]. simpl. intros [= <-].
  specialize (IH k eq_refl). lia.
Qed.

Lemma find_app_some (d : ascii) (u x : string) (j : nat) :
  find d u = Some j -> find d (u ++ x) = Some j.
Proof.
  revert j. induction u as [|a t IH]; intros j; [discriminate|].
  rewrite append_cons. simpl. destruct (Ascii.eqb a d); [auto|].
  destruct (find d t) as [k|]; [|discriminate]. rewrite (IH k eq_refl). auto.
Qed.

Lemma find_app_none (d : ascii) (u x : string) :
  find d u = None ->
  find d (u ++ x) = option_map (fun k => String.length u + k) (find d x).
Proof.
  induction u as [|a t IH].
  - intros _. rewrite append_nil. destruct (find d x); reflexivity.
  - rewrite append_cons. simpl. destruct (Ascii.eqb a d); [discriminate|].
    destruct (find d t); [discriminate|]. intros _. rewrite (IH eq_refl).
    destruct (find d x); reflexivity.
Qed.

Lemma take_zero (s : string) : take 0 s = EmptyString.
Proof. destruct s; reflexivity. Qed.

Lemma take_cons (n : nat) (a : ascii) (t : string) :
  take (Datatypes.S n) (String a t) = String a (take n t).
Proof. reflexivity. Qed.

Lemma drop_zero (s : string) : drop 0 s = s.
Proof. destruct s; reflexivity. Qed.

Lemma drop_cons (n : nat) (a : ascii) (t : string) :
  drop (Datatypes.S n) (String a t) = drop n t.
Proof. reflexivity. Qed.

Lemma take_app_le (n : nat) (u x : string) :
  n <= String.length u -> take n (u ++ x) = take n u.
Proof.
  revert u. induction n as [|n IH]; intros u H.
  - rewrite !take_zero. reflexivity.
  - destruct u as [|a t]; [simpl in H; lia|].
    rewrite append_cons, !take_cons, IH; [reflexivity|]. simpl in H. lia.
Qed.

Lemma drop_app_le (n : nat) (u x : string) :
  n <= String.length u -> drop n (u ++ x) = (drop n u ++ x)%string.
Proof.
  revert u. induction n as [|n IH]; intros u H.
  - rewrite !drop_zero. reflexivity.
  - destruct u as [|a t]; [simpl in H; lia|].
    rewrite append_cons, !drop_cons. apply IH. simpl in H. lia.
Qed.

Lemma take_whole_app (u x : string) : take (String.length u) (u ++ x) = u.
Proof.
  induction u as [|a t IH]; [rewrite append_nil; apply take_zero|].
  rewrite append_cons. cbn [String.length]. rewrite take_cons, IH. reflexivity.
Qed.

Lemma take_past_app (u : string) (c : ascii) (q : string) (k : nat) :
  take (String.length u + Datatypes.S k) (u ++ String c q)
  = (u ++ String c (take k q))%string.
Proof.
  induction u as [|a t IH]; [reflexivity|].
  rewrite !append_cons. cbn [String.length Nat.add]. rewrite take_cons, IH.
  reflexivity.
Qed.

Lemma all_take_past (p : ascii -> bool) (u : string) (c : ascii) (q : string) (n : nat) :
  p c = false -> String.length u < n -> all p (take n (u ++ String c q)) = false.
Proof.
  intros Hc. revert n. induction u as [|a t IH]; intros n Hn;
    (destruct n as [|n]; [simpl in Hn; lia|]).
  - rewrite append_nil, take_cons. cbn [all]. rewrite Hc. reflexivity.
  - rewrite append_cons, take_cons. cbn [all].
    rewrite IH by (simpl in Hn; lia). apply andb_false_r.
Qed.

Lemma split_scheme_app (v : string) (c : ascii) (q : string) :
  scheme_char c = false -> Ascii.eqb c ":" = false ->
  split_scheme (v ++ String c q)
  = (fst (split_scheme v), (snd (split_scheme v) ++ String c q)%string).
Proof.
  intros Hs Hcolon. unfold split_scheme.
  destruct (find ":" v) as [j|] eqn:Ef.
  - rewrite (find_app_some _ _ _ _ Ef). pose proof (find_some_lt _ _ _ Ef) as Hlt.
    destruct j as [|i]; [reflexivity|].
    assert (Hst : starts_alpha (v ++ String c q) = starts_alpha v)
      by (destruct v; [simpl in Hlt; lia | reflexivity]).
    rewrite Hst, take_app_le by lia.
    destruct (starts_alpha v && all scheme_char (take (Datatypes.S i) v));
      [|reflexivity].
    cbn [fst snd]. rewrite drop_app_le by lia. reflexivity.
  - rewrite (find_app_none _ _ _ Ef). cbn [find]. rewrite Hcolon.
    destruct (find ":" q) as [k|]; cbn [fmap option_fmap option_map];
      [|reflexivity].
    replace (String.length v + Datatypes.S k)
      with (Datatypes.S (String.length v + k)) by lia.
    rewrite all_take_past by (auto; lia). rewrite andb_false_r. reflexivity.
Qed.

Lemma span_len_le (p : ascii -> bool) (r : string) : span_len p r <= String.length r.
Proof. induction r as [|a t IH]; simpl; [lia|]. destruct (p a); lia. Qed.

Lemma span_len_app (p : ascii -> bool) (r : string) (c : ascii) (q : string) :
  p c = true -> span_len p (r ++ String c q) = span_len p r.
Proof.
  intros Hc. induction r as [|a t IH].
  - rewrite append_nil. simpl. rewrite Hc. reflexivity.
  - rewrite append_cons. simpl. destruct (p a); [reflexivity|]. rewrite IH. reflexivity.
Qed.

Lemma split_netloc_app (rest : string) (c : ascii) (q : string) :
  is_delim c = true -> Ascii.eqb c "/" = false ->
  snd (split_netloc (rest ++ String c q))
  = (snd (split_netloc rest) ++ String c q)%string.
Proof.
  intros Hd Hslash.
  assert (Hne : c <> "/"%char) by (intros ->; discriminate).
  destruct rest as [|a [|b r]].
  - rewrite append_nil. unfold split_netloc.
    destruct c as [[] [] [] [] [] [] [] []]; try reflexivity; contradiction Hne; reflexivity.
  - rewrite append_cons, append_nil. unfold split_netloc.
    destruct a as [[] [] [] [] [] [] [] []]; try reflexivity;
      destruct c as [[] [] [] [] [] [] [] []]; try reflexivity;
      contradiction Hne; reflexivity.
  - rewrite !append_cons. unfold split_netloc.
    destruct a as [[] [] [] [] [] [] [] []]; try reflexivity;
      destruct b as [[] [] [] [] [] [] [] []]; try reflexivity.
    cbn [snd]. rewrite span_len_app by exact Hd.
    apply drop_app_le, span_len_le.
Qed.

Lemma split_netloc_cases (s : string) :
  (exists r, s = String "/" (String "/" r)
             /\ snd (split_netloc s) = drop (span_len is_delim r) r)
  \/ snd (split_netloc s) = s.
Proof.
  destruct s as [|a [|b r]]; auto.
  - destruct a as [[] [] [] [] [] [] [] []]; auto.
  - destruct a as [[] [] [] [] [] [] [] []]; auto;
      destruct b as [[] [] [] [] [] [] [] []]; auto.
    left. exists r. split; reflexivity.
Qed.

Lemma contains_split_netloc (d : ascii) (s : string) :
  contains d s = false -> contains d (snd (split_netloc s)) = false.
Proof.
  intros H. destruct (split_netloc_cases s) as [(r & -> & ->)| ->]; [|exact H].
  apply contains_drop. cbn [contains] in H.
  destruct (Ascii.eqb "/" d); [discriminate | exact H].
Qed.

Lemma before_fixed (d : ascii) (s : string) : contains d s = false -> before d s = s.
Proof. intros H. unfold before. rewrite (find_none_contains _ _ H). reflexivity. Qed.

Lemma before_app (d c : ascii) (P q : string) :
  contains d P = false ->
  exists q', before d (P ++ String c q) = P
             \/ before d (P ++ String c q) = (P ++ String c q')%string.
Proof.
  intros H. unfold before. rewrite (find_app_none _ _ _ (find_none_contains _ _ H)).
  simpl. destruct (Ascii.eqb c d).
  - exists q. left. simpl. rewrite Nat.add_0_r. apply take_whole_app.
  - destruct (find d q) as [k|]; simpl.
    + exists (take k q). right. apply take_past_app.
    + exists q. right. reflexivity.
Qed.

Lemma before_same (d : ascii) (P q : string) :
  contains d P = false -> before d (P ++ String d q) = P.
Proof.
  intros H. unfold before. rewrite (find_app_none _ _ _ (find_none_contains _ _ H)).
  simpl. rewrite Ascii.eqb_refl. simpl. rewrite Nat.add_0_r. apply take_whole_app.
Qed.

Lemma urlparse_path_unfold (url : string) :
  urlparse_path url
  = let v := remove_if unsafe_byte (lstrip_if c0_or_space url) in
    let P := before "?" (before "#" (snd (split_netloc (snd (split_scheme v))))) in
    if in_list (fst (split_scheme v)) uses_params && contains ";" P
    then strip_params P else P.
Proof.
  unfold urlparse_path.
  destruct (split_scheme (remove_if unsafe_byte (lstrip_if c0_or_space url)))
    as [sch rest].
  cbn [fst snd]. destruct (split_netloc rest) as [netloc path]. reflexivity.
Qed.

(** The path of a URL does not change when a query or a fragment is put
    after it. *)
Lemma urlparse_path_suffix (c : ascii) (u q : string) :
  c = "?"%char \/ c = "#"%char ->
  contains "?" u = false -> contains "#" u = false ->
  urlparse_path (u ++ String c q) = urlparse_path u.
Proof.
  intros Hc Hq Hh. rewrite !urlparse_path_unfold. cbv zeta.
  assert (Hprops : c0_or_space c = false /\ unsafe_byte c = false
                   /\ scheme_char c = false /\ Ascii.eqb c ":" = false
                   /\ is_delim c = true /\ Ascii.eqb c "/" = false)
    by (destruct Hc as [-> | ->]; repeat split; reflexivity).
  destruct Hprops as (H0 & Hu & Hs & Hcolon & Hd & Hslash).
  rewrite lstrip_app_stop by exact H0. rewrite remove_if_app.
  cbn [remove_if]. rewrite Hu.
  set (v := remove_if unsafe_byte (lstrip_if c0_or_space u)).
  set (q1 := remove_if unsafe_byte q).
  rewrite split_scheme_app by assumption. cbn [fst snd].
  rewrite split_netloc_app by assumption.
  set (P := snd (split_netloc (snd (split_scheme v)))).
  assert (HP : forall d, contains d u = false -> contains d P = false).
  { intros d Hdu. unfold P.
    assert (Hv : contains d v = false)
      by (unfold v; apply contains_remove, contains_lstrip; exact Hdu).
    assert (Hrest : contains d (snd (split_scheme v)) = false).
    { unfold split_scheme. destruct (find ":" v) as [[|i]|]; try exact Hv.
      destruct (starts_alpha v && all scheme_char (take (Datatypes.S i) v));
        [apply contains_drop|]; exact Hv. }
    apply contains_split_netloc. exact Hrest. }
  assert (Hsame : before "?" (before "#" (P ++ String c q1)) = P).
  { destruct Hc as [-> | ->].
    - destruct (before_app "#" "?" P q1 (HP _ Hh)) as [q' [-> | ->]].
      + apply before_fixed, HP, Hq.
      + apply before_same, HP, Hq.
    - rewrite before_same by (apply HP; exact Hh). apply before_fixed, HP, Hq. }
  rewrite Hsame.
  rewrite (before_fixed "#" P) by (apply HP; exact Hh).
  rewrite (before_fixed "?" P) by (apply HP; exact Hq). reflexivity.
Qed.

End UrlFacts.

(** X14: the name of the destination file does not depend on the query
    string or on the fragment of the URL: a URL without either, and the
    same URL followed by [?] or [#] and anything, give the same file name;
    with the existence check of [download_file] this makes URLs that
    differ only there share one file. *)
Theorem X14_query_and_fragment_do_not_name_the_file (u q : string) :
  PyStr.contains "?" u = false -> PyStr.contains "#" u = false ->
  derive_filename (u ++ String "?" q) = derive_filename u
  /\ derive_filename (u ++ String "#" q) = derive_filename u.
Proof.
  intros Hq Hh. unfold derive_filename.
  rewrite !urlparse_path_suffix by auto. split; reflexivity.
Qed.

Lemma X14_query_and_fragment_witness :
  derive_filename ("http://h.example/a.mp3" ++ String "?" "token=1&x=/y:z")
  = derive_filename "http://h.example/a.mp3"
  /\ derive_filename ("http://h.example/a.mp3" ++ String "#" "t=10")
     = derive_filename "http://h.example/a.mp3".
Proof.
  apply (X14_query_and_fragment_do_not_name_the_file
           "http://h.example/a.mp3" "token=1&x=/y:z"); reflexivity.
Defined.

(** ** References that are local paths already *)

Section LocalPaths.
Import PyStr Urllib.

Lemma all_contains (p : ascii -> bool) (d : ascii) (s : string) :
  p d = false -> all p s = true -> contains d s = false.
Proof.
  intros Hd. induction s as [|a t IH]; [reflexivity|]. cbn [all contains].
  intros H. apply andb_true_iff in H. destruct H as [Ha Ht].
  destruct (Ascii.eqb a d) eqn:E; [|auto].
  apply Ascii.eqb_eq in E. subst a. congruence.
Qed.

Lemma unquote_fixed (s : string) : contains "%" s = false -> unquote s = s.
Proof.
  induction s as [|a t IH]; [reflexivity|]. cbn [contains unquote].
  destruct (Ascii.eqb a "%"); [discriminate|]. intros H. rewrite (IH H). reflexivity.
Qed.

Lemma all_app (p : ascii -> bool) (u v : string) :
  all p u = true -> all p v = true -> all p (u ++ v) = true.
Proof.
  intros Hu Hv. induction u as [|a t IH]; [exact Hv|].
  rewrite append_cons. cbn [all] in Hu |- *.
  apply andb_true_iff in Hu. destruct Hu as [Ha Ht]. rewrite Ha, (IH Ht). reflexivity.
Qed.

Lemma plain_not_space (c : ascii) : plain_char c = true -> isspace c = false.
Proof.
  destruct c as [[] [] [] [] [] [] [] []]; vm_compute; intros H;
    try discriminate H; reflexivity.
Qed.

Lemma plain_safe (c : ascii) : plain_char c = true -> safe_char c = true.
Proof.
  destruct c as [[] [] [] [] [] [] [] []]; vm_compute; intros H;
    try discriminate H; reflexivity.
Qed.

Lemma head_all (p : ascii -> bool) (s : string) (c : ascii) :
  all p s = true -> head_char s = Some c -> p c = true.
Proof.
  destruct s as [|a t]; [discriminate|]. cbn [all head_char].
  intros H [= <-]. apply andb_true_iff in H. tauto.
Qed.

Lemma last_all (p : ascii -> bool) (s : string) (c : ascii) :
  all p s = true -> last_char s = Some c -> p c = true.
Proof.
  revert c. induction s as [|a t IH]; intros c; [discriminate|].
  cbn [all last_char]. intros H. apply andb_true_iff in H. destruct H as [Ha Ht].
  destruct (last_char t) as [d|]; [intros [= <-]; apply IH; auto|].
  intros [= <-]. exact Ha.
Qed.

Lemma sanitize_plain (name : string) :
  all plain_char name = true -> sanitize_filename name = name.
Proof.
  intros H. unfold sanitize_filename.
  assert (Hsafe : all safe_char name = true)
    by (eapply all_weaken; [apply plain_safe | exact H]).
  rewrite remove_if_fixed.
  - unfold strip. rewrite lstrip_fixed.
    + rewrite rstrip_fixed.
      * apply replace_fixed. eapply all_weaken; [|exact Hsafe].
        intros c Hc. unfold safe_char in Hc. apply andb_true_iff in Hc. tauto.
      * intros c Hc. apply plain_not_space. eapply last_all; eauto.
    + intros c Hc. apply plain_not_space. eapply head_all; eauto.
  - eapply all_weaken; [|exact Hsafe].
    intros c Hc. unfold safe_char in Hc. apply andb_true_iff in Hc. tauto.
Qed.

Lemma pathy_facts (c : ascii) :
  pathy c = true ->
  c0_or_space c = false /\ unsafe_byte c = false /\ Ascii.eqb c ":" = false
  /\ Ascii.eqb c "#" = false /\ Ascii.eqb c "?" = false
  /\ Ascii.eqb c ";" = false /\ Ascii.eqb c "%" = false.
Proof.
  destruct c as [[] [] [] [] [] [] [] []]; vm_compute; intros H;
    try discriminate H; repeat split.
Qed.

Lemma pathy_contains (d : ascii) (s : string) :
  pathy d = false -> all pathy s = true -> contains d s = false.
Proof. apply all_contains. Qed.

Lemma urlparse_path_local (f : Folder) (name : string) :
  all plain_char name = true ->
  urlparse_path (folder_name f ++ String "/" name) = (folder_name f ++ String "/" name)%string.
Proof.
  intros H. set (s := (folder_name f ++ String "/" name)%string).
  assert (Hs : all pathy s = true).
  { unfold s. apply all_app; [destruct f; reflexivity|].
    cbn [all]. apply andb_true_iff. split; [reflexivity|].
    eapply all_weaken; [|exact H]. intros c Hc. unfold pathy. rewrite Hc. reflexivity. }
  assert (Hno : forall d, pathy d = false -> contains d s = false)
    by (intros d Hd; apply pathy_contains; assumption).
  rewrite urlparse_path_unfold. cbv zeta.
  rewrite (lstrip_fixed c0_or_space s).
  2:{ intros c Hc. apply (pathy_facts c). eapply head_all; eauto. }
  rewrite (remove_if_fixed unsafe_byte s).
  2:{ eapply all_weaken; [|exact Hs]. intros c Hc.
      destruct (pathy_facts c Hc) as (_ & -> & _). reflexivity. }
  assert (Hsch : split_scheme s = (EmptyString, s)).
  { unfold split_scheme. rewrite (find_none_contains ":"%char s); [reflexivity|].
    apply Hno. reflexivity. }
  rewrite Hsch. cbn [fst snd].
  assert (Hnet : snd (split_netloc s) = s)
    by (unfold s; destruct f; reflexivity).
  rewrite Hnet.
  rewrite (before_fixed "#"%char s) by (apply Hno; reflexivity).
  rewrite (before_fixed "?"%char s) by (apply Hno; reflexivity).
  rewrite (Hno ";"%char) by reflexivity. rewrite andb_false_r. reflexivity.
Qed.

(** The name derived from a rewritten reference is the name of the file. *)
Lemma derive_filename_relpath (f : Folder) (name : string) :
  plain_name name = true -> derive_filename (relpath (f, name)) = name.
Proof.
  unfold plain_name. intros H. apply andb_true_iff in H. destruct H as [Hp Hd].
  apply negb_true_iff in Hd.
  assert (Hrel : relpath (f, name) = (folder_name f ++ String "/" name)%string).
  { unfold relpath. unfold is_dir_name in Hd.
    apply orb_false_elim in Hd. destruct Hd as [Hd ->]. rewrite Hd. reflexivity. }
  rewrite Hrel. unfold derive_filename. rewrite urlparse_path_local by exact Hp.
  rewrite unquote_fixed.
  - rewrite basename_after_slash; [apply sanitize_plain; exact Hp|].
    eapply all_contains; [|exact Hp]. reflexivity.
  - apply all_contains with (p := pathy); [reflexivity|].
    apply all_app; [destruct f; reflexivity|].
    cbn [all]. apply andb_true_iff. split; [reflexivity|].
    eapply all_weaken; [|exact Hp]. intros c Hc. unfold pathy. rewrite Hc. reflexivity.
Qed.

Lemma relpath_nonempty (f : Folder) (name : string) : relpath (f, name) <> EmptyString.
Proof.
  unfold relpath. destruct (String.eqb name "" || String.eqb name ".");
    [destruct f; discriminate|].
  destruct (String.eqb name ".."); [discriminate|]. destruct f; discriminate.
Qed.

Lemma dict_set_same (k v : string) (d : list (string * string)) :
  dict_get k d = Some v -> dict_set k v d = d.
Proof.
  induction d as [|[k' v'] d IH]; simpl; [discriminate|].
  destruct (String.eqb k' k); [intros [= ->]; reflexivity|].
  intros H. rewrite (IH H). reflexivity.
Qed.

Lemma update_first_fixed {A : Type} (f : A -> option A) (l : list A) :
  Forall (fun x => forall x', f x = Some x' -> x' = x) l ->
  forall l', update_first f l = Some l' -> l' = l.
Proof.
  induction 1 as [|x l Hx _ IH]; intros l' H; [discriminate|].
  rewrite update_first_cons in H. destruct (f x) as [x'|] eqn:E.
  - injection H as <-. rewrite (Hx x' eq_refl). reflexivity.
  - destruct (update_first f l) as [r|]; [|discriminate].
    injection H as <-. rewrite (IH r eq_refl). reflexivity.
Qed.

(** Rewriting the element a lookup finds with what it holds already
    leaves the tree as it is. *)
Lemma update_iter_fixed (t : string) (g : Element -> Element) (e r : Element) :
  (forall y, tag (g y) = tag y) ->
  iter_first t e = Some r -> g r = r -> update_iter t g e = Some e.
Proof.
  intros Hg. revert r. induction e as [t' a x cs tl IH] using Element_ind_children.
  intros r. cbn [iter_first update_iter]. destruct (String.eqb t' t).
  - intros [= <-] Hr. rewrite Hr. reflexivity.
  - intros Hf Hr.
    apply first_some_split in Hf. destruct Hf as (l1 & c & l2 & -> & Hn & Hc).
    rewrite Forall_app in IH. destruct IH as [_ IH].
    inversion IH as [|? ? IHc _]; subst.
    rewrite (update_first_app _ l1 l2 c c); [reflexivity | | eapply IHc; eauto].
    eapply Forall_impl; [exact Hn|]. intros y Hy. apply update_iter_none. exact Hy.
Qed.

Lemma update_desc_fixed (t : string) (g : Element -> Element) (e r : Element) :
  (forall y, tag (g y) = tag y) ->
  find_desc t e = Some r -> g r = r -> update_desc t g e = e.
Proof.
  intros Hg Hf Hr. unfold find_desc in Hf. unfold update_desc.
  apply first_some_split in Hf. destruct Hf as (l1 & c & l2 & E & Hn & Hc).
  rewrite E, (update_first_app _ l1 l2 c c).
  - rewrite <- E. apply with_children_id.
  - eapply Forall_impl; [exact Hn|]. intros y Hy. apply update_iter_none. exact Hy.
  - eapply update_iter_fixed; eauto.
Qed.

Lemma set_same (k v : string) (e : Element) : get k e = Some v -> set k v e = e.
Proof. destruct e. unfold get. simpl. intros H. rewrite dict_set_same by exact H. reflexivity. Qed.

End LocalPaths.

(** X15: a reference that an earlier rewrite turned into a local path is
    recognised as downloaded.  For a file name made of letters, digits,
    dots, dashes and underscores, the name derived from the relative path
    [media/name] or [images/name] is [name] again, so [download_file] on
    that path returns the existing file and requests nothing; the
    episode-image step on an element whose [href] is such a path (as the
    cover step leaves it when it picked the image of an episode) returns
    the item as it is. *)
Theorem X15_local_reference_is_recognised
    (env : Env) (folder : Folder) (name : string) (w : World) :
  plain_name name = true ->
  path_exists w (folder, name) = true ->
  urlparse_raises env (relpath (folder, name)) = false ->
  derive_filename (relpath (folder, name)) = name
  /\ download_file env (Some (relpath (folder, name))) folder w
     = (Ok (Some (folder, name)), w)
  /\ (forall item image,
        folder = ImagesFolder ->
        find_desc ITUNES_IMAGE item = Some image ->
        get "href" image = Some (relpath (folder, name)) ->
        download_episode_image env item w = (Ok item, w)).
Proof.
  intros Hp Hx Hr.
  pose proof (derive_filename_relpath folder name Hp) as Hd.
  assert (Hdl : download_file env (Some (relpath (folder, name))) folder w
                = (Ok (Some (folder, name)), w)).
  { rewrite <- Hd at 2. apply download_file_cached;
      [apply relpath_nonempty | exact Hr | rewrite Hd; exact Hx]. }
  split; [exact Hd|]. split; [exact Hdl|].
  intros item image -> Hf Hh. unfold download_episode_image, bind.
  rewrite Hf, Hh, Hdl. unfold ret. f_equal. f_equal.
  eapply update_desc_fixed; [intros y; apply tag_set | exact Hf |].
  apply set_same. exact Hh.
Qed.

Lemma X15_local_reference_witness :
  derive_filename (relpath (ImagesFolder, "b.jpg")) = "b.jpg"
  /\ download_file full_env (Some (relpath (ImagesFolder, "b.jpg"))) ImagesFolder
       (write_file (ImagesFolder, "b.jpg") 10 empty_world)
     = (Ok (Some (ImagesFolder, "b.jpg")),
        write_file (ImagesFolder, "b.jpg") 10 empty_world)
  /\ (forall item image,
        ImagesFolder = ImagesFolder ->
        find_desc ITUNES_IMAGE item = Some image ->
        get "href" image = Some (relpath (ImagesFolder, "b.jpg")) ->
        download_episode_image full_env item
          (write_file (ImagesFolder, "b.jpg") 10 empty_world)
        = (Ok item, write_file (ImagesFolder, "b.jpg") 10 empty_world)).
Proof.
  apply (X15_local_reference_is_recognised full_env ImagesFolder "b.jpg"
           (write_file (ImagesFolder, "b.jpg") 10 empty_world)); reflexivity.
Defined.
